(** * fetchling: a local-first resource layer (verification development)

    The development embeds the TypeScript sources of the resource engine
    (key utilities, entity normaliser, URL builder, filter matcher, table
    registry and operations factory) and proves the properties the
    specification states about them.

    Modelling conventions.
    - JavaScript values are a first-order tree ([JS.value]).  Numbers are the
      integers (identifiers, counters, HTTP statuses); objects are property
      lists in the order their own properties are enumerated, read through
      own properties only: inherited members of the built-in prototypes are
      outside the model.  [obj_set] assigns to a property that exists or
      appends a name that is no array index; where the text of an object
      built from arbitrary names is observed ([serializeId]), the object is
      built with [assign], which places array indices first and treats
      [__proto__] as the accessor it is.
    - A call that may throw returns a [JS.completion]; asynchronous code is
      sequenced in the order its awaits resolve and records every call it
      makes on a collaborator in a trace.
    - Where a property is about object identity (the normaliser must not
      mutate its argument), objects live in a heap of cells. *)

From Stdlib Require Import ZArith String Ascii List Bool Lia DecimalString.
From stdpp Require Import base option list gmap strings.

Set Warnings "-register-all".
Local Open Scope Z_scope.
Local Open Scope string_scope.
Local Open Scope list_scope.

(* ================================================================== *)
(** * JavaScript values and the primitives the sources rely on *)
(* ================================================================== *)

Module JS.

Inductive value : Type :=
| VUndefined
| VNull
| VBool (b : bool)
| VNum (n : Z)
| VStr (s : string)
| VObj (props : list (string * value))
| VArr (items : list value).

(** Thrown values: [TypeError], a plain [Error], and the transport's
    [ApiError(message, status, statusText)] of src/lib/api.ts. *)
Inductive error : Type :=
| TypeError (msg : string)
| PlainError (msg : string)
| ApiError (msg : string) (status : Z) (statusText : string).

Inductive completion (A : Type) : Type :=
| Normal (a : A)
| Throw (e : error).
Arguments Normal {A} a.
Arguments Throw {A} e.

#[global] Instance completion_ret : MRet completion := @Normal.
#[global] Instance completion_bind : MBind completion :=
  fun A B f c => match c with Normal a => f a | Throw e => Throw e end.

Inductive js_type : Type :=
| TUndefined | TObject | TBoolean | TNumber | TString.

Definition typeof (v : value) : js_type :=
  match v with
  | VUndefined => TUndefined
  | VNull => TObject
  | VBool _ => TBoolean
  | VNum _ => TNumber
  | VStr _ => TString
  | VObj _ | VArr _ => TObject
  end.

Definition is_object_type (v : value) : bool :=
  match typeof v with TObject => true | _ => false end.

Definition is_null (v : value) : bool :=
  match v with VNull => true | _ => false end.

Definition is_undefined (v : value) : bool :=
  match v with VUndefined => true | _ => false end.

Definition is_nullish (v : value) : bool :=
  match v with VUndefined | VNull => true | _ => false end.

Definition is_array (v : value) : bool :=
  match v with VArr _ => true | _ => false end.

(** ToBoolean. *)
Definition truthy (v : value) : bool :=
  match v with
  | VUndefined | VNull => false
  | VBool b => b
  | VNum n => negb (n =? 0)%Z
  | VStr s => negb (String.eqb s EmptyString)
  | VObj _ | VArr _ => true
  end.

Definition dquote : string := String "034"%char EmptyString.
Definition backslash : string := String "092"%char EmptyString.

Definition string_of_Z (n : Z) : string := NilZero.string_of_int (Z.to_int n).

(** [String(v)], also the conversion of template literals and of
    [Array.prototype.join], which prints null and undefined elements as
    the empty string. *)
Fixpoint ToString (v : value) : string :=
  match v with
  | VUndefined => "undefined"
  | VNull => "null"
  | VBool true => "true"
  | VBool false => "false"
  | VNum n => string_of_Z n
  | VStr s => s
  | VObj _ => "[object Object]"
  | VArr items =>
      String.concat ","
        (map (fun x => match x with
                       | VUndefined | VNull => EmptyString
                       | _ => ToString x
                       end) items)
  end.

Definition join (sep : string) (items : list value) : string :=
  String.concat sep
    (map (fun x => if is_nullish x then EmptyString else ToString x) items).

(** Association lists as objects: the first binding of a name is the
    property; assignment keeps the position of an existing property and
    appends a new one. *)
Fixpoint obj_lookup {A} (k : string) (props : list (string * A)) : option A :=
  match props with
  | [] => None
  | (k', v) :: rest => if String.eqb k k' then Some v else obj_lookup k rest
  end.

Fixpoint obj_set {A} (k : string) (v : A) (props : list (string * A))
  : list (string * A) :=
  match props with
  | [] => [(k, v)]
  | (k', v') :: rest =>
      if String.eqb k k' then (k', v) :: rest else (k', v') :: obj_set k v rest
  end.

(** Canonical array indices: ["0"], ["1"], ... without sign or padding. *)
Definition parse_index (s : string) : option N :=
  match NilZero.uint_of_string s with
  | Some d =>
      let n := N.of_uint d in
      if String.eqb (NilZero.string_of_uint (N.to_uint n)) s then Some n else None
  | None => None
  end.

(** An array index: a canonical numeric string below 2^32 - 1.  The own
    properties of an ordinary object are enumerated with the array indices
    first, in ascending order, then the other names in the order of their
    creation. *)
Definition array_index (k : string) : option N :=
  match parse_index k with
  | Some n => if (n <? 4294967295)%N then Some n else None
  | None => None
  end.

(** The place of a new array index among the properties. *)
Fixpoint insert_index {A} (n : N) (k : string) (v : A) (props : list (string * A))
  : list (string * A) :=
  match props with
  | [] => [(k, v)]
  | (k', v') :: rest =>
      match array_index k' with
      | Some n' =>
          if (n' <? n)%N then (k', v') :: insert_index n k v rest
          else (k, v) :: (k', v') :: rest
      | None => (k, v) :: (k', v') :: rest
      end
  end.

(** [obj[k] = v] on an object created by [{}]: an existing property keeps
    its place, a new array index is placed among the indices, any other
    new name is appended.  The name [__proto__] is the accessor of
    [Object.prototype]: assigning to it creates no property. *)
Definition assign {A} (k : string) (v : A) (props : list (string * A))
  : list (string * A) :=
  if String.eqb k "__proto__" then props
  else match obj_lookup k props with
       | Some _ => obj_set k v props
       | None =>
           match array_index k with
           | Some n => insert_index n k v props
           | None => props ++ [(k, v)]
           end
       end.

Definition char_at (s : string) (i : N) : option string :=
  match String.get (N.to_nat i) s with
  | Some c => Some (String c EmptyString)
  | None => None
  end.

(** [v[k]] for a value that is neither null nor undefined. *)
Definition get_own (v : value) (k : string) : value :=
  match v with
  | VObj props => default VUndefined (obj_lookup k props)
  | VArr items =>
      if String.eqb k "length" then VNum (Z.of_nat (length items))
      else match parse_index k with
           | Some i => default VUndefined (items !! N.to_nat i)
           | None => VUndefined
           end
  | VStr s =>
      if String.eqb k "length" then VNum (Z.of_nat (String.length s))
      else match parse_index k with
           | Some i => match char_at s i with
                       | Some c => VStr c
                       | None => VUndefined
                       end
           | None => VUndefined
           end
  | _ => VUndefined
  end.

(** [v[k]]: reading a property of null or undefined is a TypeError. *)
Definition get_prop (v : value) (k : string) : completion value :=
  match v with
  | VUndefined =>
      Throw (TypeError ("Cannot read properties of undefined (reading '" +:+ k +:+ "')"))
  | VNull =>
      Throw (TypeError ("Cannot read properties of null (reading '" +:+ k +:+ "')"))
  | _ => Normal (get_own v k)
  end.

(** [k in v] for an object or an array. *)
Definition has_property (k : string) (v : value) : bool :=
  match v with
  | VObj props => bool_decide (is_Some (obj_lookup k props))
  | VArr items =>
      String.eqb k "length"
      || match parse_index k with
         | Some i => (i <? N.of_nat (length items))%N
         | None => false
         end
  | _ => false
  end.

(** SameValueZero, the comparison of [Array.prototype.includes].  Objects
    and arrays compare by identity; a parameter array never shares an
    object with a stored record, so they compare unequal. *)
Definition same_value_zero (a b : value) : bool :=
  match a, b with
  | VUndefined, VUndefined => true
  | VNull, VNull => true
  | VBool x, VBool y => Bool.eqb x y
  | VNum x, VNum y => (x =? y)%Z
  | VStr x, VStr y => String.eqb x y
  | _, _ => false
  end.

Definition includes (items : list value) (x : value) : bool :=
  existsb (fun y => same_value_zero y x) items.

(** JSON text. *)
Definition hex_digit (n : N) : ascii :=
  if (n <? 10)%N then ascii_of_N (48 + n) else ascii_of_N (87 + n).

Definition json_escape_char (c : ascii) : string :=
  let n := N_of_ascii c in
  if (n =? 34)%N then backslash +:+ dquote
  else if (n =? 92)%N then backslash +:+ backslash
  else if (n =? 8)%N then backslash +:+ "b"
  else if (n =? 9)%N then backslash +:+ "t"
  else if (n =? 10)%N then backslash +:+ "n"
  else if (n =? 12)%N then backslash +:+ "f"
  else if (n =? 13)%N then backslash +:+ "r"
  else if (n <? 32)%N then
    backslash +:+ "u00"
      +:+ String (hex_digit (n / 16)) (String (hex_digit (n mod 16)) EmptyString)
  else String c EmptyString.

Fixpoint json_escape (s : string) : string :=
  match s with
  | EmptyString => EmptyString
  | String c rest => json_escape_char c +:+ json_escape rest
  end.

Definition json_quote (s : string) : string :=
  dquote +:+ json_escape s +:+ dquote.

Definition json_member (k text : string) : string :=
  json_quote k +:+ ":" +:+ text.

(** [JSON.stringify(v)]: [None] stands for the result [undefined]; a
    property whose value has no JSON text is left out, an array element
    without one is printed as null. *)
Fixpoint JSON_stringify (v : value) : option string :=
  match v with
  | VUndefined => None
  | VNull => Some "null"
  | VBool true => Some "true"
  | VBool false => Some "false"
  | VNum n => Some (string_of_Z n)
  | VStr s => Some (json_quote s)
  | VArr items =>
      Some ("[" +:+ String.concat ","
                      (map (fun x => default "null" (JSON_stringify x)) items)
                +:+ "]")
  | VObj props =>
      let fix members (ps : list (string * value)) : list string :=
        match ps with
        | [] => []
        | (k, x) :: rest =>
            match JSON_stringify x with
            | Some text => json_member k text :: members rest
            | None => members rest
            end
        end in
      Some ("{" +:+ String.concat "," (members props) +:+ "}")
  end.

(** The members [JSON_stringify] prints for an object, in their order. *)
Fixpoint json_members (ps : list (string * value)) : list string :=
  match ps with
  | [] => []
  | (k, x) :: rest =>
      match JSON_stringify x with
      | Some text => json_member k text :: json_members rest
      | None => json_members rest
      end
  end.

End JS.

Import JS.

(* ================================================================== *)
(** * src/lib/core/id-utils.ts *)
(* ================================================================== *)

Module IdUtils.

Definition extractPrimitiveValue (val : value) : value :=
  if truthy val && is_object_type val && has_property "id" val
  then get_own val "id"
  else val.

(** The body of the [forEach] that fills an object with one reduced key
    field after the other. *)
Fixpoint collect_fields (src : value) (fields : list string)
    (acc : list (string * value)) : completion (list (string * value)) :=
  match fields with
  | [] => mret acc
  | field :: rest =>
      val ← get_prop src field;
      collect_fields src rest (obj_set field (extractPrimitiveValue val) acc)
  end.

Definition getEntityId (entity : value) (keyFields : option (list string))
  : completion value :=
  match keyFields with
  | Some ((_ :: _) as fields) =>
      idObj ← collect_fields entity fields [];
      mret (VObj idObj)
  | _ => get_prop entity "id"
  end.

(** The same loop where the order of the properties is observed
    afterwards: the object is built by [assign]. *)
Fixpoint assign_fields (src : value) (fields : list string)
    (acc : list (string * value)) : completion (list (string * value)) :=
  match fields with
  | [] => mret acc
  | field :: rest =>
      val ← get_prop src field;
      assign_fields src rest (assign field (extractPrimitiveValue val) acc)
  end.

Definition serializeId (id : value) (keyFields : option (list string))
  : completion value :=
  if is_object_type id && negb (is_null id) then
    match keyFields with
    | Some ((_ :: _) as fields) =>
        normalized ← assign_fields id fields [];
        mret (from_option VStr VUndefined (JSON_stringify (VObj normalized)))
    | _ => mret (from_option VStr VUndefined (JSON_stringify id))
    end
  else mret id.

Definition buildDexieKey (id : value) (keyFields : option (list string))
  : completion value :=
  match keyFields with
  | Some ((_ :: _) as fields) =>
      if is_object_type id && negb (is_null id) then
        keys ← mapM (fun field =>
                       val ← get_prop id field;
                       mret (extractPrimitiveValue val)) fields;
        mret (VArr keys)
      else mret id
  | _ => mret id
  end.

(** The key fields in the order of their declaration, each once. *)
Definition declared_order (fields : list string) : list string :=
  fold_left (fun seen f => if existsb (String.eqb f) seen then seen else seen ++ [f])
            fields [].

(** An identifier reduced field by field. *)
Definition reduced (id : value) (fields : list string) : list (string * value) :=
  map (fun f => (f, extractPrimitiveValue (get_own id f))) fields.

(** A field name that is neither an array index nor [__proto__]. *)
Definition ordinary (f : string) : bool :=
  negb (bool_decide (is_Some (array_index f))) && negb (String.eqb f "__proto__").

(** The names of the object [serializeId] builds from the declared key
    fields, in the order they are enumerated: what [assign] does to the
    names. *)
Fixpoint insert_name (n : N) (k : string) (names : list string) : list string :=
  match names with
  | [] => [k]
  | k' :: rest =>
      match array_index k' with
      | Some n' => if (n' <? n)%N then k' :: insert_name n k rest else k :: k' :: rest
      | None => k :: k' :: rest
      end
  end.

Definition add_name (k : string) (names : list string) : list string :=
  if String.eqb k "__proto__" then names
  else if existsb (String.eqb k) names then names
  else match array_index k with
       | Some n => insert_name n k names
       | None => names ++ [k]
       end.

Definition key_order (fields : list string) : list string :=
  fold_left (fun names f => add_name f names) fields [].

End IdUtils.

(* ================================================================== *)
(** * URLBuilder (core/url-builder) *)
(* ================================================================== *)

Module UrlBuilder.

Record URLBuilder : Type := {
  baseUrl : string;
  keyFields : option (list string);
}.

Definition buildIdUrl (this : URLBuilder) (id : value) : completion string :=
  match keyFields this with
  | Some ((_ :: _) as fields) =>
      if is_object_type id then
        keyValues ← mapM (fun field =>
                            val ← get_prop id field;
                            mret (IdUtils.extractPrimitiveValue val)) fields;
        mret (baseUrl this +:+ "/" +:+ join "/" keyValues)
      else mret (baseUrl this +:+ "/" +:+ ToString id)
  | _ => mret (baseUrl this +:+ "/" +:+ ToString id)
  end.

End UrlBuilder.

(* ================================================================== *)
(** * Filter matcher (utils/filter-matcher) *)
(* ================================================================== *)

Module FilterMatcher.

Definition SPECIAL_PARAMS : list string := ["sort"; "fields"].

Definition is_special (key : string) : bool :=
  existsb (String.eqb key) SPECIAL_PARAMS.

(** One turn of the loop over [Object.entries(params)]: [Normal true]
    continues with the next entry, [Normal false] is the early
    [return false]. *)
Definition matches_entry (entity : value) (key : string) (expectedValue : value)
  : completion bool :=
  if is_undefined expectedValue || is_special key then mret true
  else
    actualValue ← get_prop entity key;
    match expectedValue with
    | VArr expected => mret (includes expected actualValue)
    | _ =>
        if is_object_type actualValue && negb (is_null expectedValue) then
          actualId ← get_prop actualValue "id";
          mret (String.eqb (ToString actualId) (ToString expectedValue))
        else
          mret (String.eqb (ToString actualValue) (ToString expectedValue))
    end.

Fixpoint matchesFilter (entity : value) (params : list (string * value))
  : completion bool :=
  match params with
  | [] => mret true
  | (key, expectedValue) :: rest =>
      ok ← matches_entry entity key expectedValue;
      if (ok : bool) then matchesFilter entity rest else mret false
  end.

(** [entities.filter(e => matchesFilter(e, params))]. *)
Fixpoint filter_matching (entities : list value) (params : list (string * value))
  : completion (list value) :=
  match entities with
  | [] => mret []
  | entity :: rest =>
      keep ← matchesFilter entity params;
      kept ← filter_matching rest params;
      mret (if (keep : bool) then entity :: kept else kept)
  end.

Definition clean_params (params : list (string * value)) : list (string * value) :=
  fold_left (fun acc '(key, val) =>
               if is_undefined val then acc else obj_set key val acc)
            params [].

Definition filterEntities (entities : list value)
    (params : option (list (string * value))) : completion (list value) :=
  match params with
  | None | Some [] => mret entities
  | Some params =>
      let cleanParams := clean_params params in
      match cleanParams with
      | [] => mret entities
      | _ => filter_matching entities cleanParams
      end
  end.

End FilterMatcher.

(* ================================================================== *)
(** * EntityNormalizer (core/entity-normalizer), over a heap *)
(* ================================================================== *)

(** The normaliser copies its argument and assigns to the copy.  To state
    that the argument is left alone, objects are cells of a heap and a
    field holds a primitive or a reference to a cell. *)
Module Normalizer.

Abbreviation loc := positive.

Inductive hval : Type :=
| HUndefined
| HNull
| HBool (b : bool)
| HNum (n : Z)
| HStr (s : string)
| HRef (l : loc).

Inductive cell : Type :=
| CObj (props : list (string * hval))
| CArr (items : list hval).

Abbreviation heap := (gmap loc cell).

Definition h_truthy (v : hval) : bool :=
  match v with
  | HUndefined | HNull => false
  | HBool b => b
  | HNum n => negb (n =? 0)%Z
  | HStr s => negb (String.eqb s EmptyString)
  | HRef _ => true
  end.

Definition h_is_object_type (v : hval) : bool :=
  match v with HNull | HRef _ => true | _ => false end.

Definition items_get (items : list hval) (k : string) : hval :=
  if String.eqb k "length" then HNum (Z.of_nat (length items))
  else match parse_index k with
       | Some i => default HUndefined (items !! N.to_nat i)
       | None => HUndefined
       end.

Definition chars_get (s : string) (k : string) : hval :=
  if String.eqb k "length" then HNum (Z.of_nat (String.length s))
  else match parse_index k with
       | Some i => match char_at s i with
                   | Some c => HStr c
                   | None => HUndefined
                   end
       | None => HUndefined
       end.

(** [v[k]] in heap [h]. *)
Definition h_get_prop (h : heap) (v : hval) (k : string) : completion hval :=
  match v with
  | HUndefined =>
      Throw (TypeError ("Cannot read properties of undefined (reading '" +:+ k +:+ "')"))
  | HNull =>
      Throw (TypeError ("Cannot read properties of null (reading '" +:+ k +:+ "')"))
  | HRef l =>
      match h !! l with
      | Some (CObj props) => Normal (default HUndefined (obj_lookup k props))
      | Some (CArr items) => Normal (items_get items k)
      | None => Normal HUndefined
      end
  | HStr s => Normal (chars_get s k)
  | _ => Normal HUndefined
  end.

(** [k in v] for a reference [v]. *)
Definition h_has_property (h : heap) (k : string) (v : hval) : bool :=
  match v with
  | HRef l =>
      match h !! l with
      | Some (CObj props) => bool_decide (is_Some (obj_lookup k props))
      | Some (CArr items) =>
          String.eqb k "length"
          || match parse_index k with
             | Some i => (i <? N.of_nat (length items))%N
             | None => false
             end
      | None => false
      end
  | _ => false
  end.

Fixpoint indexed_from (i : N) (items : list hval) : list (string * hval) :=
  match items with
  | [] => []
  | x :: rest =>
      (NilZero.string_of_uint (N.to_uint i), x) :: indexed_from (N.succ i) rest
  end.

Fixpoint chars_of (s : string) : list hval :=
  match s with
  | EmptyString => []
  | String c rest => HStr (String c EmptyString) :: chars_of rest
  end.

(** The own enumerable properties an object spread [{...v}] copies. *)
Definition own_props (h : heap) (v : hval) : list (string * hval) :=
  match v with
  | HRef l =>
      match h !! l with
      | Some (CObj props) => props
      | Some (CArr items) => indexed_from 0 items
      | None => []
      end
  | HStr s => indexed_from 0 (chars_of s)
  | _ => []
  end.

(** [o[k] = v] on the object at [l]. *)
Definition h_set_prop (l : loc) (k : string) (v : hval) (h : heap) : heap :=
  alter (fun c => match c with
                  | CObj props => CObj (obj_set k v props)
                  | CArr items => CArr items
                  end) l h.

(** The [forEach] over the key fields; [normalized] is the copy. *)
Fixpoint flatten_fields (entity : hval) (normalized : loc)
    (fields : list string) (h : heap) : completion heap :=
  match fields with
  | [] => mret h
  | field :: rest =>
      val ← h_get_prop h entity field;
      if h_truthy val && h_is_object_type val && h_has_property h "id" val then
        id ← h_get_prop h val "id";
        flatten_fields entity normalized rest (h_set_prop normalized field id h)
      else flatten_fields entity normalized rest h
  end.

Definition normalize (keyFields : option (list string)) (entity : hval) (h : heap)
  : completion (hval * heap) :=
  match keyFields with
  | Some ((_ :: _) as fields) =>
      let normalized := fresh (dom h) in
      let h1 := <[normalized := CObj (own_props h entity)]> h in
      h2 ← flatten_fields entity normalized fields h1;
      mret (HRef normalized, h2)
  | _ => mret (entity, h)
  end.

Fixpoint normalizeMany (keyFields : option (list string)) (entities : list hval)
    (h : heap) : completion (list hval * heap) :=
  match entities with
  | [] => mret ([], h)
  | entity :: rest =>
      '(n, h1) ← normalize keyFields entity h;
      '(ns, h2) ← normalizeMany keyFields rest h1;
      mret (n :: ns, h2)
  end.

(** The id a key field is flattened to: the [id] property of the object
    the field refers to, if it refers to an object that has one. *)
Definition ref_id (h : heap) (v : hval) : option hval :=
  match v with
  | HRef r =>
      match h !! r with
      | Some (CObj props) => obj_lookup "id" props
      | _ => None
      end
  | _ => None
  end.

(** The properties of the copy once the key fields [fields] of an
    entity with properties [props] have been flattened into [current]. *)
Definition flattened (h : heap) (props : list (string * hval))
    (fields : list string) (current : list (string * hval)) : list (string * hval) :=
  fold_left (fun acc field =>
               match obj_lookup field props ≫= ref_id h with
               | Some id => obj_set field id acc
               | None => acc
               end) fields current.

(** A value that is not a dangling reference. *)
Definition bound (h : heap) (v : hval) : Prop :=
  match v with
  | HRef r => is_Some (h !! r)
  | _ => True
  end.

(** The heap of the examples: a tag whose [space] and [owner] are
    references. *)
Definition sample_heap : heap :=
  {[ 1%positive := CObj [("space", HRef 2); ("name", HStr "urgent"); ("owner", HRef 3)];
     2%positive := CObj [("id", HStr "s1"); ("name", HStr "Work")];
     3%positive := CObj [("id", HStr "u1")] ]}.

(** The same function on first-order values, as the operations call
    it. *)
Definition spread (entity : value) : list (string * value) :=
  match entity with
  | VObj props => props
  | VArr items =>
      imap (fun i x => (NilZero.string_of_uint (Nat.to_uint i), x)) items
  | VStr s =>
      imap (fun i c => (NilZero.string_of_uint (Nat.to_uint i),
                        VStr (String c EmptyString)))
           (list_ascii_of_string s)
  | _ => []
  end.

Fixpoint flatten_value (entity : value) (fields : list string)
    (normalized : list (string * value)) : completion (list (string * value)) :=
  match fields with
  | [] => mret normalized
  | field :: rest =>
      val ← get_prop entity field;
      if truthy val && is_object_type val && has_property "id" val then
        flatten_value entity rest (obj_set field (get_own val "id") normalized)
      else flatten_value entity rest normalized
  end.

Definition normalize_value (keyFields : option (list string)) (entity : value)
  : completion value :=
  match keyFields with
  | Some ((_ :: _) as fields) =>
      normalized ← flatten_value entity fields (spread entity);
      mret (VObj normalized)
  | _ => mret entity
  end.

End Normalizer.

(* ================================================================== *)
(** * TableRegistry (src/lib/core/table-registry.ts) *)
(* ================================================================== *)

Module Registry.

Record TableConfig : Type := {
  keyFields : option (list string);
  baseUrl : string;
}.

(** The database handle.  What the registry uses of it: [isOpen()],
    [close()], the version accessor [verno], [version(n).stores(s)] and
    [open()], with the behaviour of the database double of the tests
    (MockDexie in src/lib/query.test.ts): [version(n)] sets the version,
    [stores(s)] merges [s] into the schema.  Every call that changes the
    database is recorded in [calls]. *)
Inductive db_call : Type :=
| DbClose
| DbVersionStores (version : Z) (stores : gmap string string)
| DbOpen.

Record Dexie : Type := {
  isOpen : bool;
  verno : Z;
  schema : gmap string string;
  calls : list db_call;
}.

Definition db_close (d : Dexie) : Dexie :=
  {| isOpen := false; verno := verno d; schema := schema d;
     calls := calls d ++ [DbClose] |}.

Definition db_version_stores (n : Z) (stores : gmap string string) (d : Dexie) : Dexie :=
  {| isOpen := isOpen d; verno := n; schema := stores ∪ schema d;
     calls := calls d ++ [DbVersionStores n stores] |}.

(** [await db.open()]; [outcome] is the rejection reason, if it rejects. *)
Definition db_open (outcome : option error) (d : Dexie) : completion unit * Dexie :=
  match outcome with
  | None => (Normal tt, {| isOpen := true; verno := verno d; schema := schema d;
                           calls := calls d ++ [DbOpen] |})
  | Some e => (Throw e, {| isOpen := isOpen d; verno := verno d; schema := schema d;
                           calls := calls d ++ [DbOpen] |})
  end.

(** The database of [new Query()]: version 1 with an empty schema, not
    opened yet. *)
Definition initial_db : Dexie :=
  {| isOpen := false; verno := 1; schema := ∅; calls := [] |}.

(** [registrationQueue] is the promise chain: [None] while it is
    fulfilled, [Some e] once a queued migration rejected with [e]. *)
Record TableRegistry : Type := {
  db : Dexie;
  registeredTables : gset string;
  registrationQueue : option error;
  pendingTables : gmap string TableConfig;
}.

Definition new_TableRegistry (d : Dexie) : TableRegistry :=
  {| db := d; registeredTables := ∅; registrationQueue := None; pendingTables := ∅ |}.

Definition duplicate_error (name : string) : error :=
  PlainError ("Resource " +:+ dquote +:+ name +:+ dquote
              +:+ " is already registered in this Query. "
              +:+ "Each resource can only be registered once.").

Definition hasTable (name : string) (r : TableRegistry) : bool :=
  bool_decide (is_Some (pendingTables r !! name))
  || bool_decide (name ∈ registeredTables r).

Definition registerTable (name : string) (keyFields : option (list string))
    (baseUrl : option string) (r : TableRegistry) : completion unit * TableRegistry :=
  if bool_decide (is_Some (pendingTables r !! name))
     || bool_decide (name ∈ registeredTables r)
  then (Throw (duplicate_error name), r)
  else (Normal tt,
        {| db := db r;
           registeredTables := registeredTables r;
           registrationQueue := registrationQueue r;
           pendingTables :=
             <[name := {| keyFields := keyFields;
                          baseUrl := default EmptyString baseUrl |}]> (pendingTables r) |}).

Definition getPendingTables (r : TableRegistry) : gmap string TableConfig :=
  pendingTables r.

Definition getRegisteredTables (r : TableRegistry) : list string :=
  elements (registeredTables r).

(** [getTable(name)]: the handle [db.table(name)], named by the table,
    or undefined. *)
Definition getTable (name : string) (r : TableRegistry) : option string :=
  if bool_decide (name ∈ registeredTables r) then Some name else None.

Definition keySpec (keyFields : option (list string)) : string :=
  match keyFields with
  | Some ((_ :: _) as fields) => "[" +:+ String.concat "+" fields +:+ "]"
  | _ => "id"
  end.

(** The callback [createTables] appends to the queue. *)
Definition migration (tables : gmap string (option (list string)))
    (open_outcome : option error) (r : TableRegistry) : completion unit * TableRegistry :=
  let newTables := filter (fun kv => kv.1 ∉ registeredTables r) tables in
  if bool_decide (size newTables = 0%nat) then (Normal tt, r)
  else
    let d1 := if isOpen (db r) then db_close (db r) else db r in
    let stores := keySpec <$> newTables in
    let registered := registeredTables r ∪ dom newTables in
    let currentVersion := verno d1 in
    let d2 := db_version_stores (currentVersion + 1) stores d1 in
    let '(c, d3) := db_open open_outcome d2 in
    (c, {| db := d3; registeredTables := registered;
           registrationQueue := registrationQueue r;
           pendingTables := pendingTables r |}).

(** [createTables]: chain the migration on the queue and await the
    chain.  A rejected chain skips the callback and rejects the await. *)
Definition createTables (tables : gmap string (option (list string)))
    (open_outcome : option error) (r : TableRegistry) : completion unit * TableRegistry :=
  if bool_decide (size tables = 0%nat) then (Normal tt, r)
  else
    match registrationQueue r with
    | Some e => (Throw e, r)
    | None =>
        match migration tables open_outcome r with
        | (Normal _, r1) => (Normal tt, r1)
        | (Throw e, r1) =>
            (Throw e, {| db := db r1; registeredTables := registeredTables r1;
                         registrationQueue := Some e;
                         pendingTables := pendingTables r1 |})
        end
    end.

Definition initializeAll (open_outcome : option error) (r : TableRegistry)
  : completion unit * TableRegistry :=
  if bool_decide (size (pendingTables r) = 0%nat) then (Normal tt, r)
  else
    let tablesToRegister := keyFields <$> pendingTables r in
    match createTables tablesToRegister open_outcome r with
    | (Normal _, r1) =>
        (Normal tt, {| db := db r1; registeredTables := registeredTables r1;
                       registrationQueue := registrationQueue r1;
                       pendingTables := ∅ |})
    | (Throw e, r1) => (Throw e, r1)
    end.

(** The schema migrations a database has gone through. *)
Definition is_migration (c : db_call) : bool :=
  match c with DbVersionStores _ _ => true | _ => false end.

Definition migrations (d : Dexie) : list db_call :=
  List.filter is_migration (calls d).

End Registry.

(* ================================================================== *)
(** * Operations factory (factories/operations-factory) *)
(* ================================================================== *)

Module Operations.

(** The local table: the Dexie [Table] methods the operations call. *)
Class Table (T : Type) : Type := {
  table_get : value -> T -> completion value;
  table_put : value -> T -> completion T;
  table_delete : value -> T -> completion T;
}.

Inductive http_method : Type := GET | POST | PATCH | DELETE.

(** What an operation does to its collaborators, in order. *)
Inductive event : Type :=
| TableGet (key : value)
| TablePut (record : value)
| TableDelete (key : value)
| ApiRequest (url : string) (method : http_method) (body : option string)
| ConsoleError (msg : string) (err : error).

Record world (T : Type) : Type := {
  store : T;
  trace : list event;
}.
Arguments store {T} w.
Arguments trace {T} w.

(** Asynchronous code, sequenced in the order its awaits resolve: a
    rejection is a [Throw]; effects made before it stay in the world. *)
Definition Async (T A : Type) : Type := world T -> completion A * world T.

#[global] Instance Async_ret {T} : MRet (Async T) :=
  fun A a w => (Normal a, w).
#[global] Instance Async_bind {T} : MBind (Async T) :=
  fun A B f m w =>
    match m w with
    | (Normal a, w1) => f a w1
    | (Throw e, w1) => (Throw e, w1)
    end.

Definition lift {T A} (c : completion A) : Async T A := fun w => (c, w).

Definition emit {T} (ev : event) : Async T unit :=
  fun w => (Normal tt, {| store := store w; trace := trace w ++ [ev] |}).

(** [promise.catch(handler)]. *)
Definition catch {T A} (m : Async T A) (handler : error -> Async T A) : Async T A :=
  fun w =>
    match m w with
    | (Normal a, w1) => (Normal a, w1)
    | (Throw e, w1) => handler e w1
    end.

Section WithTable.
Context {T : Type} `{Table T}.

(** A method of the table, applied to the store of the world. *)
Definition call_get (key : value) : Async T value :=
  fun w => (table_get key (store w), w).

Definition call_update (f : T -> completion T) : Async T unit :=
  fun w => match f (store w) with
           | Normal t => (Normal tt, {| store := t; trace := trace w |})
           | Throw e => (Throw e, w)
           end.

Definition tbl_get (key : value) : Async T value :=
  _ ← emit (TableGet key);
  call_get key.

Definition tbl_put (record : value) : Async T unit :=
  _ ← emit (TablePut record);
  call_update (table_put record).

Definition tbl_delete (key : value) : Async T unit :=
  _ ← emit (TableDelete key);
  call_update (table_delete key).

(** [OperationsConfig] and the transport.  [getTable] is the lazy
    accessor: [Normal tt] hands out the table of the world, [Throw e]
    is the accessor throwing.  [normalize] and [buildIdUrl] are the
    injected normaliser and URL builder; [apiRequest] answers a
    request with the parsed body or rejects. *)
Record OperationsConfig : Type := {
  name : string;
  baseUrl : string;
  keyFields : option (list string);
  getTable : completion unit;
  normalize : value -> completion value;
  buildIdUrl : value -> completion string;
  apiRequest : string -> http_method -> option string -> completion value;
}.

Definition request (config : OperationsConfig) (url : string)
    (method : http_method) (body : option string) : Async T value :=
  _ ← emit (ApiRequest url method body);
  lift (apiRequest config url method body).

(** [err instanceof ApiError && err.status === 404]. *)
Definition isNotFound (err : error) : bool :=
  match err with
  | ApiError _ status _ => (status =? 404)%Z
  | _ => false
  end.

Definition getById_log (config : OperationsConfig) : string :=
  "[Query] Failed to fetch " +:+ name config +:+ " by ID: ".

(** The network promise of [getById] with its [then] and [catch]. *)
Definition getById_network (config : OperationsConfig) (url : string)
  : Async T value :=
  catch
    (response ← request config url GET None;
     data ← lift (get_prop response "data");
     normalized ← lift (normalize config data);
     _ ← tbl_put normalized;
     mret data)
    (fun err =>
       _ ← (if isNotFound err then mret tt
            else emit (ConsoleError (getById_log config) err));
       mret VNull).

(** [getById].  With a cached record the call resolves to it and the
    network promise settles in the background; the world returned is
    the one after it settled. *)
Definition getById (config : OperationsConfig) (id : value) : Async T value :=
  _ ← lift (getTable config);
  cached ← tbl_get id;
  url ← lift (buildIdUrl config id);
  if is_nullish cached then getById_network config url
  else (_ ← getById_network config url; mret cached).

Definition create (config : OperationsConfig) (data : value) : Async T value :=
  response ← request config (baseUrl config) POST (JSON_stringify data);
  created ← lift (get_prop response "data");
  _ ← lift (getTable config);
  normalized ← lift (normalize config created);
  _ ← tbl_put normalized;
  mret created.

Definition update (config : OperationsConfig) (id data : value) : Async T value :=
  url ← lift (buildIdUrl config id);
  response ← request config url PATCH (JSON_stringify data);
  updated ← lift (get_prop response "data");
  _ ← lift (getTable config);
  normalized ← lift (normalize config updated);
  _ ← tbl_put normalized;
  mret updated.

Definition remove (config : OperationsConfig) (id : value) : Async T unit :=
  url ← lift (buildIdUrl config id);
  _ ← request config url DELETE None;
  _ ← lift (getTable config);
  keyToDelete ← lift (IdUtils.buildDexieKey id (keyFields config));
  tbl_delete keyToDelete.

(** The keys handed to the table's [get] and [delete], read off a trace. *)
Definition get_keys (tr : list event) : list value :=
  omap (fun ev => match ev with TableGet k => Some k | _ => None end) tr.


End WithTable.

(** An in-memory table to run the operations on: the table double of
    the hook tests (getMockTable in src/lib/query.hooks.test.tsx), a Map
    from store keys to records.  [get] and [delete] accept a primitive
    key, a compound key array, or an identifier object, which is turned
    into the compound key of the table's key fields. *)
Record MockTable : Type := {
  mock_keyFields : option (list string);
  mock_rows : list (value * value);
}.

Definition json_or_undefined (v : value) : value :=
  from_option VStr VUndefined (JSON_stringify v).

Definition getStoreKey (keyFields : option (list string)) (key : value)
  : completion value :=
  match key with
  | VArr _ => mret (json_or_undefined key)
  | VObj _ =>
      match keyFields with
      | Some fields =>
          keys ← mapM (get_prop key) fields;
          mret (json_or_undefined (VArr keys))
      | None => mret (json_or_undefined VUndefined)
      end
  | _ => mret key
  end.

Definition getItemKey (keyFields : option (list string)) (item : value)
  : completion value :=
  match keyFields with
  | Some ((_ :: _) as fields) =>
      keys ← mapM (get_prop item) fields;
      mret (json_or_undefined (VArr keys))
  | _ => get_prop item "id"
  end.

(** [Map.prototype.get], [set] and [delete]; keys compare by
    SameValueZero. *)
Fixpoint map_get (k : value) (rows : list (value * value)) : value :=
  match rows with
  | [] => VUndefined
  | (k', v) :: rest => if same_value_zero k' k then v else map_get k rest
  end.

Fixpoint map_set (k v : value) (rows : list (value * value)) : list (value * value) :=
  match rows with
  | [] => [(k, v)]
  | (k', v') :: rest =>
      if same_value_zero k' k then (k', v) :: rest else (k', v') :: map_set k v rest
  end.

Definition map_delete (k : value) (rows : list (value * value)) : list (value * value) :=
  List.filter (fun row => negb (same_value_zero row.1 k)) rows.

Definition mock_get (key : value) (t : MockTable) : completion value :=
  storeKey ← getStoreKey (mock_keyFields t) key;
  mret (map_get storeKey (mock_rows t)).

Definition mock_put (item : value) (t : MockTable) : completion MockTable :=
  storeKey ← getItemKey (mock_keyFields t) item;
  mret {| mock_keyFields := mock_keyFields t;
          mock_rows := map_set storeKey item (mock_rows t) |}.

Definition mock_delete (key : value) (t : MockTable) : completion MockTable :=
  storeKey ← getStoreKey (mock_keyFields t) key;
  mret {| mock_keyFields := mock_keyFields t;
          mock_rows := map_delete storeKey (mock_rows t) |}.

#[global] Instance MockTable_Table : Table MockTable := {|
  table_get := mock_get;
  table_put := mock_put;
  table_delete := mock_delete;
|}.

End Operations.

(* ================================================================== *)
(** * Resources as [createResourceAPI] composes them *)
(* ================================================================== *)

Module Resource.

Definition not_initialized_error (name : string) : error :=
  PlainError ("Resource " +:+ dquote +:+ name +:+ dquote +:+ " is not initialized. "
              +:+ "You must call query.initialize() before using resource operations. "
              +:+ "Example: await query.initialize();").

(** The lazy table accessor over a registry. *)
Definition getTable (name : string) (r : Registry.TableRegistry) : completion unit :=
  match Registry.getTable name r with
  | Some _ => Normal tt
  | None => Throw (not_initialized_error name)
  end.

(** The configuration [createResourceAPI] hands to [createOperations]. *)
Definition operations_config (name baseUrl : string)
    (keyFields : option (list string)) (table : completion unit)
    (apiRequest : string -> Operations.http_method -> option string -> completion value)
  : Operations.OperationsConfig :=
  {| Operations.name := name;
     Operations.baseUrl := baseUrl;
     Operations.keyFields := keyFields;
     Operations.getTable := table;
     Operations.normalize := Normalizer.normalize_value keyFields;
     Operations.buildIdUrl :=
       UrlBuilder.buildIdUrl
         {| UrlBuilder.baseUrl := baseUrl; UrlBuilder.keyFields := keyFields |};
     Operations.apiRequest := apiRequest |}.

(** The resources of the scenarios: [users] with the simple key [id],
    [tags] with the composite key [spaceId], [tagName]. *)
Definition users := operations_config "users" "/api/users" None (Normal tt).

Definition tags_keyFields : option (list string) := Some ["spaceId"; "tagName"].

Definition tags := operations_config "tags" "/tags" tags_keyFields (Normal tt).

Definition tag_s1_t1 : value :=
  VObj [("spaceId", VStr "s1"); ("tagName", VStr "t1")].

Definition empty_table (keyFields : option (list string))
  : Operations.world Operations.MockTable :=
  {| Operations.store := {| Operations.mock_keyFields := keyFields;
                            Operations.mock_rows := [] |};
     Operations.trace := [] |}.

(** Transports: one that rejects every request with [err], one that
    answers every request with [response]. *)
Definition failing (err : error)
  : string -> Operations.http_method -> option string -> completion value :=
  fun _ _ _ => Throw err.

Definition answering (response : value)
  : string -> Operations.http_method -> option string -> completion value :=
  fun _ _ _ => Normal response.

(** Stored records of the scenarios. *)
Definition cached_user : value :=
  VObj [("id", VStr "user1"); ("name", VStr "Cached User");
        ("email", VStr "cached@example.com")].

Definition fresh_user : value :=
  VObj [("id", VStr "user1"); ("name", VStr "Fresh User");
        ("email", VStr "fresh@example.com")].

Definition users_world (rows : list (value * value))
  : Operations.world Operations.MockTable :=
  {| Operations.store := {| Operations.mock_keyFields := None;
                            Operations.mock_rows := rows |};
     Operations.trace := [] |}.

Definition tag_record : value :=
  VObj [("spaceId", VStr "s1"); ("tagName", VStr "t1"); ("color", VStr "red")].

(** The [tags] table after [put(tag_record)]. *)
Definition tags_world : Operations.world Operations.MockTable :=
  {| Operations.store :=
       {| Operations.mock_keyFields := tags_keyFields;
          Operations.mock_rows :=
            [(Operations.json_or_undefined (VArr [VStr "s1"; VStr "t1"]), tag_record)] |};
     Operations.trace := [] |}.

End Resource.

(* ================================================================== *)
(** * The transport (src/lib/api.ts) *)
(* ================================================================== *)

Module Api.

(** What [fetch] resolves to: the status line and the outcome of reading
    the body, as JSON ([response.json()]) and as text ([response.text()]);
    either read can reject. *)
Record Response : Type := {
  status : Z;
  statusText : string;
  json : completion value;
  text : completion string;
}.

(** [response.ok]: a status from 200 to 299. *)
Definition ok (response : Response) : bool :=
  (200 <=? status response)%Z && (status response <=? 299)%Z.

Record RequestInit : Type := {
  method : option string;
  headers : option (list (string * string));
  body : value;
}.

(** The collaborators of a request: the base address, the configured
    token getter and [fetch], which answers or rejects. *)
Record Env : Type := {
  API_BASE_URL : string;
  tokenGetter : completion value;
  fetch : string -> RequestInit -> completion Response;
}.

(** The header object: the content type, the bearer token when the getter
    gave a truthy one, then the caller's own headers, which win. *)
Definition request_headers (token : value) (options : option RequestInit)
  : list (string * string) :=
  let base := [("Content-Type", "application/json")] in
  let authorized :=
    if truthy token then obj_set "Authorization" ("Bearer " +:+ ToString token) base
    else base in
  fold_left (fun acc '(k, v) => obj_set k v acc)
            (default [] (options ≫= headers)) authorized.

(** An object body is serialised; any other body is passed on. *)
Definition request_body (options : option RequestInit) : value :=
  let given := from_option body VUndefined options in
  if truthy given && is_object_type given
  then from_option VStr VUndefined (JSON_stringify given)
  else given.

Definition message (e : error) : string :=
  match e with
  | TypeError msg | PlainError msg | ApiError msg _ _ => msg
  end.

(** The body of a failed response, read for the [data] of the
    [ApiError]: the parsed body or its [errors] member; when the JSON read
    rejects, or the parsed body is a primitive (on which [in] throws), the
    [catch] block awaits the body text.  That second read is under no
    [try]: its rejection is the rejection of the request. *)
Definition errorData (response : Response) : completion value :=
  match json response with
  | Normal parsed =>
      match parsed with
      | VObj _ | VArr _ =>
          mret (if has_property "errors" parsed then get_own parsed "errors" else parsed)
      | _ => body ← text response; mret (VStr body)
      end
  | Throw _ => body ← text response; mret (VStr body)
  end.

(** [apiRequest].  An [ApiError] of the model carries its message and the
    status line; its [data] member is what [errorData] read. *)
Definition apiRequest (env : Env) (url : string) (options : option RequestInit)
  : completion value :=
  token ← tokenGetter env;
  response ← fetch env (API_BASE_URL env +:+ url)
                {| method := options ≫= method;
                   headers := Some (request_headers token options);
                   body := request_body options |};
  if negb (ok response) then
    _ ← errorData response;
    Throw (ApiError ("API request failed: " +:+ string_of_Z (status response)
                       +:+ " " +:+ statusText response)
                    (status response) (statusText response))
  else if (status response =? 204)%Z then mret VUndefined
  else
    match json response with
    | Normal parsed => mret parsed
    | Throw e =>
        Throw (ApiError ("Failed to parse JSON response: " +:+ message e)
                        (status response) (statusText response))
    end.

(** The requests of the operations: [getById] and [list] pass no options,
    the mutations pass their method and body. *)
Definition method_name (m : Operations.http_method) : string :=
  match m with
  | Operations.GET => "GET"
  | Operations.POST => "POST"
  | Operations.PATCH => "PATCH"
  | Operations.DELETE => "DELETE"
  end.

Definition options_of (m : Operations.http_method) (payload : option string)
  : option RequestInit :=
  match m with
  | Operations.GET => None
  | _ => Some {| method := Some (method_name m); headers := None;
                 body := from_option VStr VUndefined payload |}
  end.

Definition transport (env : Env)
  : string -> Operations.http_method -> option string -> completion value :=
  fun url m payload => apiRequest env url (options_of m payload).

(** A server that answers every request with [response]. *)
Definition server (response : Response) : Env :=
  {| API_BASE_URL := EmptyString;
     tokenGetter := Normal VUndefined;
     fetch := fun _ _ => Normal response |}.

End Api.

(* ================================================================== *)
(** * Query keys (factories/query-keys-factory) *)
(* ================================================================== *)

Module QueryKeys.

Record QueryKeys : Type := {
  all : list value;
  lists : list value;
  detail : value -> completion (list value);
  list : option (Datatypes.list (string * value)) -> Datatypes.list value;
}.

Definition createQueryKeys (name : string)
    (keyFields : option (Datatypes.list string)) : QueryKeys :=
  {| all := [VStr name];
     lists := [VStr name; VStr "list"];
     list := fun params =>
               match params with
               | Some p => [VStr name; VStr "list"; VObj p]
               | None => [VStr name; VStr "list"]
               end;
     detail := fun id =>
                 serialized ← IdUtils.serializeId id keyFields;
                 mret [VStr name; VStr "detail"; serialized] |}.

End QueryKeys.

(* ================================================================== *)
(** * [list] and the cache operations (operations-factory, cache-factory) *)
(* ================================================================== *)

Module Bulk.

(** The table methods that work on all records. *)
Class BulkTable (T : Type) : Type := {
  table_toArray : T -> completion (list value);
  table_bulkPut : list value -> T -> completion unit * T;
  table_clear : T -> completion unit * T;
}.

(** The calls of an operation on its collaborators: those of
    [Operations.event], the bulk methods of the table, and the calls on the
    reactive cache. *)
Inductive event : Type :=
| Single (e : Operations.event)
| TableToArray
| TableBulkPut (records : list value)
| TableClear
| SetQueryData (key : list value) (data : value)
| RemoveQueries (key : list value).

(** The writes to the reactive cache, read off a trace. *)
Definition cache_writes (tr : Datatypes.list event) : Datatypes.list event :=
  List.filter (fun ev => match ev with
                         | SetQueryData _ _ | RemoveQueries _ => true
                         | _ => false
                         end) tr.

Record world (T : Type) : Type := {
  store : T;
  trace : list event;
}.
Arguments store {T} w.
Arguments trace {T} w.

Definition Async (T A : Type) : Type := world T -> completion A * world T.

#[global] Instance Async_ret {T} : MRet (Async T) :=
  fun A a w => (Normal a, w).
#[global] Instance Async_bind {T} : MBind (Async T) :=
  fun A B f m w =>
    match m w with
    | (Normal a, w1) => f a w1
    | (Throw e, w1) => (Throw e, w1)
    end.

Definition lift {T A} (c : completion A) : Async T A := fun w => (c, w).

Definition emit {T} (ev : event) : Async T unit :=
  fun w => (Normal tt, {| store := store w; trace := trace w ++ [ev] |}).

Definition catch {T A} (m : Async T A) (handler : error -> Async T A) : Async T A :=
  fun w =>
    match m w with
    | (Normal a, w1) => (Normal a, w1)
    | (Throw e, w1) => handler e w1
    end.

(** The bulk methods of the table double of the hook tests. *)
Fixpoint mock_bulkPut (items : list value) (t : Operations.MockTable)
  : completion unit * Operations.MockTable :=
  match items with
  | [] => (Normal tt, t)
  | item :: rest =>
      match Operations.mock_put item t with
      | Normal t1 => mock_bulkPut rest t1
      | Throw e => (Throw e, t)
      end
  end.

#[global] Instance MockTable_BulkTable : BulkTable Operations.MockTable := {|
  table_toArray t := Normal (Operations.mock_rows t).*2;
  table_bulkPut := mock_bulkPut;
  table_clear t :=
    (Normal tt, {| Operations.mock_keyFields := Operations.mock_keyFields t;
                   Operations.mock_rows := [] |});
|}.

Section WithTable.
Context {T : Type} `{Operations.Table T} `{BulkTable T}.

Definition call_read {A} (f : T -> completion A) : Async T A :=
  fun w => (f (store w), w).

Definition call_write (f : T -> completion unit * T) : Async T unit :=
  fun w => let '(c, t) := f (store w) in (c, {| store := t; trace := trace w |}).

Definition call_update (f : T -> completion T) : Async T unit :=
  fun w => match f (store w) with
           | Normal t => (Normal tt, {| store := t; trace := trace w |})
           | Throw e => (Throw e, w)
           end.

Definition tbl_toArray : Async T (list value) :=
  _ ← emit TableToArray;
  call_read table_toArray.

Definition tbl_bulkPut (records : list value) : Async T unit :=
  _ ← emit (TableBulkPut records);
  call_write (table_bulkPut records).

Definition tbl_put (record : value) : Async T unit :=
  _ ← emit (Single (Operations.TablePut record));
  call_update (Operations.table_put record).

Definition tbl_clear : Async T unit :=
  _ ← emit TableClear;
  call_write table_clear.

(** What [list] uses beyond the configuration of the single-record
    operations: the URL builder's [buildUrl] and the normaliser's
    [normalizeMany]. *)
Record ListConfig : Type := {
  operations : Operations.OperationsConfig;
  buildUrl : string -> option (list (string * value)) -> completion string;
  normalizeMany : value -> completion (list value);
}.

(** [CacheConfig] with the [getEntityId] handed to
    [createCacheOperations]. *)
Record CacheConfig : Type := {
  getTable : completion unit;
  normalize : value -> completion value;
  normalizeAll : list value -> completion (list value);
  queryKeys : QueryKeys.QueryKeys;
  getEntityId : value -> completion value;
}.

Definition seedOne (config : CacheConfig) (item : value) : Async T unit :=
  _ ← lift (getTable config);
  normalized ← lift (normalize config item);
  _ ← tbl_put normalized;
  entityId ← lift (getEntityId config item);
  key ← lift (QueryKeys.detail (queryKeys config) entityId);
  emit (SetQueryData key item).

(** The [forEach] of [seedMany] over the items. *)
Fixpoint seed_details (config : CacheConfig) (items : list value) : Async T unit :=
  match items with
  | [] => mret tt
  | item :: rest =>
      entityId ← lift (getEntityId config item);
      key ← lift (QueryKeys.detail (queryKeys config) entityId);
      _ ← emit (SetQueryData key item);
      seed_details config rest
  end.

Definition seedMany (config : CacheConfig) (items : list value)
    (params : option (list (string * value))) : Async T unit :=
  _ ← lift (getTable config);
  normalized ← lift (normalizeAll config items);
  _ ← tbl_bulkPut normalized;
  _ ← emit (SetQueryData (QueryKeys.list (queryKeys config) params) (VArr items));
  seed_details config items.

Definition clearCache (config : CacheConfig) : Async T unit :=
  _ ← lift (getTable config);
  _ ← tbl_clear;
  emit (RemoveQueries (QueryKeys.all (queryKeys config))).

Definition request (config : ListConfig) (url : string) : Async T value :=
  _ ← emit (Single (Operations.ApiRequest url Operations.GET None));
  lift (Operations.apiRequest (operations config) url Operations.GET None).

Definition list_log (config : ListConfig) : string :=
  "[Query] Failed to fetch " +:+ Operations.name (operations config) +:+ " list: ".

(** The network promise of [list] with its [then] and [catch]. *)
Definition list_network (config : ListConfig) (url : string) : Async T value :=
  catch
    (response ← request config url;
     data ← lift (get_prop response "data");
     normalized ← lift (normalizeMany config data);
     _ ← tbl_bulkPut normalized;
     mret data)
    (fun err =>
       _ ← emit (Single (Operations.ConsoleError (list_log config) err));
       mret (VArr [])).

(** [list].  With a non-empty filtered cache the call resolves to it and
    the network promise settles in the background; the world returned is
    the one after it settled. *)
Definition list (config : ListConfig) (params : option (list (string * value)))
  : Async T value :=
  _ ← lift (Operations.getTable (operations config));
  allCached ← tbl_toArray;
  cached ← lift (FilterMatcher.filterEntities allCached params);
  url ← lift (buildUrl config (Operations.baseUrl (operations config)) params);
  if (0 <? length cached)%nat
  then (_ ← list_network config url; mret (VArr cached))
  else list_network config url.

End WithTable.

End Bulk.

(* ================================================================== *)
(** * The resource façade and the Query class *)
(* ================================================================== *)

Module Facade.

(** [EntityNormalizer.normalizeMany] on first-order values. *)
Definition normalizeMany_value (keyFields : option (list string))
    (entities : list value) : completion (list value) :=
  mapM (Normalizer.normalize_value keyFields) entities.

(** [normalizeMany] applied to the [data] of a response, which need not
    be an array: [entities.map] is then missing. *)
Definition normalizeMany_data (keyFields : option (list string)) (data : value)
  : completion (list value) :=
  match data with
  | VArr items => normalizeMany_value keyFields items
  | VUndefined =>
      Throw (TypeError "Cannot read properties of undefined (reading 'map')")
  | VNull => Throw (TypeError "Cannot read properties of null (reading 'map')")
  | _ => Throw (TypeError "entities.map is not a function")
  end.

(** The configurations [createResourceAPI] builds for [list] and for the
    cache operations.  [buildUrl] stays a parameter. *)
Definition list_config (name baseUrl : string) (keyFields : option (list string))
    (table : completion unit)
    (apiRequest : string -> Operations.http_method -> option string -> completion value)
    (buildUrl : string -> option (list (string * value)) -> completion string)
  : Bulk.ListConfig :=
  {| Bulk.operations := Resource.operations_config name baseUrl keyFields table apiRequest;
     Bulk.buildUrl := buildUrl;
     Bulk.normalizeMany := normalizeMany_data keyFields |}.

Definition cache_config (name : string) (keyFields : option (list string))
    (table : completion unit) : Bulk.CacheConfig :=
  {| Bulk.getTable := table;
     Bulk.normalize := Normalizer.normalize_value keyFields;
     Bulk.normalizeAll := normalizeMany_value keyFields;
     Bulk.queryKeys := QueryKeys.createQueryKeys name keyFields;
     Bulk.getEntityId := fun entity => IdUtils.getEntityId entity keyFields |}.

(** [Query.size]: pending plus created tables. *)
Definition size (r : Registry.TableRegistry) : nat :=
  (size (Registry.getPendingTables r) + length (Registry.getRegisteredTables r))%nat.

(** The URL builder double of the operations tests' composite resource:
    the base URL, whatever the parameters. *)
Definition base_only : string -> option (list (string * value)) -> completion string :=
  fun base _ => Normal base.

Definition bulk_world (t : Operations.MockTable) : Bulk.world Operations.MockTable :=
  {| Bulk.store := t; Bulk.trace := [] |}.

End Facade.

(* ================================================================== *)
(** * Vocabulary of the statements *)
(* ================================================================== *)

Module Props.

(** A value that is not an object or an array. *)
Definition is_primitive (v : value) : bool :=
  match v with
  | VObj _ | VArr _ => false
  | _ => true
  end.


(** A parameter the matcher looks at. *)
Definition relevant (entry : string * value) : bool :=
  negb (is_undefined entry.2 || FilterMatcher.is_special entry.1).

(** A parameter value of the scalar kinds: not undefined, null or an
    array. *)
Definition scalar (v : value) : bool :=
  negb (is_undefined v) && negb (is_null v) && negb (is_array v).

(** The key fields of an entity reduce to primitives: each is a
    primitive or a reference whose [id] is one. *)
Definition flat_key (entity : value) (fields : list string) : Prop :=
  Forall (fun f => is_primitive (IdUtils.extractPrimitiveValue (get_own entity f)) = true)
         fields.

(** An entity the table can hold under the given key fields: an object
    whose key fields reduce to primitives or, with the simple key, whose
    [id] is a primitive. *)
Definition storable (keyFields : option (list string)) (entity : value) : Prop :=
  match keyFields with
  | Some ((_ :: _) as fields) => flat_key entity fields
  | _ => is_primitive (get_own entity "id") = true
  end.

(** No table is pending and registered at once. *)
Definition consistent (r : Registry.TableRegistry) : Prop :=
  dom (Registry.pendingTables r) ## Registry.registeredTables r.

End Props.

(* ================================================================== *)
(** * Sample data of the sources' documentation and tests *)
(* ================================================================== *)

Module Samples.

Definition tag : value :=
  VObj [("space", VObj [("id", VStr "s1")]); ("name", VStr "urgent");
        ("color", VStr "#FF0000")].

Definition note : value :=
  VObj [("id", VStr "1"); ("type", VStr "note"); ("status", VStr "active")].

Definition entity1 : value :=
  VObj [("id", VStr "1"); ("type", VStr "note"); ("status", VStr "active");
        ("score", VNum 100)].
Definition entity2 : value :=
  VObj [("id", VStr "2"); ("type", VStr "task"); ("status", VStr "active");
        ("score", VNum 50)].
Definition entity3 : value :=
  VObj [("id", VStr "3"); ("type", VStr "note"); ("status", VStr "inactive");
        ("score", VNum 75)].
Definition entity4 : value :=
  VObj [("id", VStr "4"); ("type", VStr "task"); ("status", VStr "pending");
        ("score", VNum 100)].

Definition entities : list value := [entity1; entity2; entity3; entity4].

End Samples.

(* ================================================================== *)
(** * The examples of the sources' documentation and tests *)
(* ================================================================== *)

Section DocumentedExamples.
Import IdUtils FilterMatcher Samples.

Example extractPrimitiveValue_doc :
  extractPrimitiveValue (VStr "simple") = VStr "simple"
  /\ extractPrimitiveValue (VNum 123) = VNum 123
  /\ extractPrimitiveValue (VObj [("id", VStr "s1")]) = VStr "s1".
Proof. repeat split; reflexivity. Qed.

Example getEntityId_doc :
  getEntityId (VObj [("id", VStr "123"); ("name", VStr "User")]) None
  = Normal (VStr "123")
  /\ getEntityId tag (Some ["space"; "name"])
     = Normal (VObj [("space", VStr "s1"); ("name", VStr "urgent")]).
Proof. split; reflexivity. Qed.

Example serializeId_doc :
  serializeId (VStr "123") None = Normal (VStr "123")
  /\ serializeId (VObj [("space", VObj [("id", VStr "s1")]); ("name", VStr "urgent")])
                 (Some ["space"; "name"])
     = Normal (VStr ("{" +:+ json_member "space" (json_quote "s1") +:+ ","
                         +:+ json_member "name" (json_quote "urgent") +:+ "}")).
Proof. split; reflexivity. Qed.

Example buildDexieKey_doc :
  buildDexieKey (VStr "123") None = Normal (VStr "123")
  /\ buildDexieKey (VObj [("space", VObj [("id", VStr "s1")]); ("name", VStr "urgent")])
                   (Some ["space"; "name"])
     = Normal (VArr [VStr "s1"; VStr "urgent"]).
Proof. split; reflexivity. Qed.

Example buildIdUrl_doc :
  UrlBuilder.buildIdUrl
    {| UrlBuilder.baseUrl := "/v1/users"; UrlBuilder.keyFields := None |} (VStr "123")
  = Normal "/v1/users/123"
  /\ UrlBuilder.buildIdUrl
       {| UrlBuilder.baseUrl := "/v1/tags"; UrlBuilder.keyFields := Some ["space"; "name"] |}
       (VObj [("space", VObj [("id", VStr "s1")]); ("name", VStr "urgent")])
     = Normal "/v1/tags/s1/urgent".
Proof. split; reflexivity. Qed.

Example normalize_value_doc :
  Normalizer.normalize_value (Some ["space"; "name"])
    (VObj [("space", VObj [("id", VStr "s1"); ("name", VStr "Work")]);
           ("name", VStr "urgent"); ("color", VStr "#FF0000")])
  = Normal (VObj [("space", VStr "s1"); ("name", VStr "urgent");
                  ("color", VStr "#FF0000")]).
Proof. reflexivity. Qed.

Example matchesFilter_tests :
  matchesFilter note [("type", VStr "note")] = Normal true
  /\ matchesFilter note [("type", VStr "task")] = Normal false
  /\ matchesFilter note [("type", VStr "note"); ("status", VStr "inactive")] = Normal false
  /\ matchesFilter note [("status", VArr [VStr "active"; VStr "pending"])] = Normal true
  /\ matchesFilter note [("type", VStr "note"); ("status", VUndefined)] = Normal true
  /\ matchesFilter note [] = Normal true
  /\ matchesFilter (VObj [("id", VStr "1")]) [("type", VStr "note")] = Normal false
  /\ matchesFilter note [("type", VStr "note"); ("sort", VStr "createdAt");
                         ("fields", VStr "id,title")] = Normal true.
Proof. repeat split; reflexivity. Qed.

Example matchesFilter_coercion_tests :
  matchesFilter (VObj [("id", VStr "1"); ("count", VNum 5); ("active", VBool true)])
                [("count", VStr "5"); ("active", VStr "true")] = Normal true
  /\ matchesFilter (VObj [("id", VStr "1"); ("score", VNum 100)])
                   [("score", VNum 100)] = Normal true
  /\ matchesFilter (VObj [("id", VStr "1");
                          ("category", VObj [("id", VNum 42); ("name", VStr "Work")])])
                   [("category", VStr "42")] = Normal true
  /\ matchesFilter (VObj [("id", VStr "1");
                          ("type", VObj [("id", VStr "abc123"); ("name", VStr "Note")])])
                   [("type", VStr "xyz789")] = Normal false.
Proof. repeat split; reflexivity. Qed.

Example filterEntities_tests :
  filterEntities entities (Some [("type", VStr "note")]) = Normal [entity1; entity3]
  /\ filterEntities entities None = Normal entities
  /\ filterEntities entities (Some []) = Normal entities
  /\ filterEntities entities (Some [("type", VUndefined); ("status", VUndefined)])
     = Normal entities
  /\ filterEntities entities (Some [("status", VArr [VStr "active"; VStr "pending"])])
     = Normal [entity1; entity2; entity4]
  /\ filterEntities entities
       (Some [("type", VStr "task");
              ("status", VArr [VStr "active"; VStr "pending"]);
              ("score", VNum 100)])
     = Normal [entity4]
  /\ filterEntities entities (Some [("type", VStr "nonexistent")]) = Normal [].
Proof. repeat split; reflexivity. Qed.

Example registry_tests :
  let r0 := Registry.new_TableRegistry Registry.initial_db in
  let r1 := (Registry.registerTable "users" None (Some "/v1/users") r0).2 in
  let r2 := (Registry.registerTable "tags" (Some ["space"; "name"]) (Some "/v1/tags") r1).2 in
  let r3 := (Registry.initializeAll None r2).2 in
  Registry.getTable "users" r2 = None
  /\ Registry.getTable "users" r3 = Some "users"
  /\ Registry.pendingTables r3 = ∅
  /\ Registry.calls (Registry.db r3)
     = [Registry.DbVersionStores 2 {[ "users" := "id"; "tags" := "[space+name]" ]};
        Registry.DbOpen]
  /\ Registry.verno (Registry.db r3) = 2.
Proof. repeat split; vm_compute; reflexivity. Qed.

(** operations-factory.test.ts: a cached record is returned and the fresh
    one is put in the background; without a cached record the fresh one is
    returned. *)
Example getById_tests :
  Operations.getById
    (Resource.users (Resource.answering (VObj [("data", Resource.fresh_user)])))
    (VStr "user1") (Resource.users_world [(VStr "user1", Resource.cached_user)])
  = (Normal Resource.cached_user,
     {| Operations.store :=
          Operations.store (Resource.users_world [(VStr "user1", Resource.fresh_user)]);
        Operations.trace :=
          [Operations.TableGet (VStr "user1");
           Operations.ApiRequest "/api/users/user1" Operations.GET None;
           Operations.TablePut Resource.fresh_user] |})
  /\ Operations.getById
       (Resource.users (Resource.answering (VObj [("data", Resource.fresh_user)])))
       (VStr "user1") (Resource.users_world [])
     = (Normal Resource.fresh_user,
        {| Operations.store :=
             Operations.store (Resource.users_world [(VStr "user1", Resource.fresh_user)]);
           Operations.trace :=
             [Operations.TableGet (VStr "user1");
              Operations.ApiRequest "/api/users/user1" Operations.GET None;
              Operations.TablePut Resource.fresh_user] |}).
Proof. split; reflexivity. Qed.

(** The table of the hook tests finds a record stored under its compound
    key when [get] is handed the identifier object, and [put] stores it
    under that key. *)
Example getById_composite_cached :
  Operations.mock_put Resource.tag_record
    (Operations.store (Resource.empty_table Resource.tags_keyFields))
  = Normal (Operations.store Resource.tags_world)
  /\ (Operations.getById
        (Resource.tags (Resource.failing (PlainError "Network failure")))
        Resource.tag_s1_t1 Resource.tags_world).1
     = Normal Resource.tag_record.
Proof. split; reflexivity. Qed.

(** resource-factory: the lazy accessor throws until the table is
    registered, and an operation that starts with the accessor then rejects
    before it touches the table or the network. *)
Example getTable_lifecycle :
  let r0 := Registry.new_TableRegistry Registry.initial_db in
  let r1 := (Registry.registerTable "users" None (Some "/api/users") r0).2 in
  let r2 := (Registry.initializeAll None r1).2 in
  Resource.getTable "users" r1 = Throw (Resource.not_initialized_error "users")
  /\ Resource.getTable "users" r2 = Normal tt
  /\ Operations.getById
       (Resource.operations_config "users" "/api/users" None
          (Resource.getTable "users" r1) (Resource.answering VUndefined))
       (VStr "user1") (Resource.users_world [])
     = (Throw (Resource.not_initialized_error "users"), Resource.users_world []).
Proof. repeat split; vm_compute; reflexivity. Qed.

End DocumentedExamples.

(* ================================================================== *)
(** * Properties of the table registry *)
(* ================================================================== *)

Section RegistryFacts.
Import Registry.

Lemma size_zero_empty {A} (m : gmap string A) :
  size m = 0%nat <-> m = ∅.
Proof. apply map_size_empty_iff. Qed.

(** Adding the not yet registered names of [m] to the registered set
    registers every name of [m]. *)
Lemma registered_with_new {A} (registered : gset string) (m : gmap string A) :
  registered ∪ dom (filter (fun kv => kv.1 ∉ registered) m) = registered ∪ dom m.
Proof.
  apply set_eq; intros x.
  rewrite !elem_of_union, !elem_of_dom.
  unfold is_Some. setoid_rewrite map_lookup_filter_Some.
  destruct (decide (x ∈ registered)) as [Hin|Hnin]; split;
    [ by left | by left
    | intros [?|(v & Hv & _)]; [done | right; by exists v]
    | intros [?|[v Hv]]; [done | right; by exists v] ].
Qed.

(** No new table: every name of [m] is registered. *)
Lemma none_new_all_registered {A} (registered : gset string) (m : gmap string A) :
  filter (fun kv => kv.1 ∉ registered) m = ∅ <-> dom m ⊆ registered.
Proof.
  split.
  - intros Hf x Hx. apply elem_of_dom in Hx as [v Hv].
    apply map_empty_filter_1 in Hf.
    specialize (Hf x v Hv). simpl in Hf.
    destruct (decide (x ∈ registered)); [done | contradiction].
  - intros Hsub. apply map_empty_filter_2.
    intros x v Hv Hn. simpl in Hn. apply Hn, Hsub, elem_of_dom. eauto.
Qed.

(** A migration over registered tables only does nothing at all. *)
Lemma migration_registered_skipped tables outcome r :
  dom tables ⊆ registeredTables r ->
  migration tables outcome r = (Normal tt, r).
Proof.
  intros Hsub. unfold migration.
  apply none_new_all_registered in Hsub. rewrite Hsub.
  rewrite bool_decide_eq_true_2; [done | by apply size_zero_empty].
Qed.

(** What a migration that finds new tables does to the database: it
    closes an open database, adds one version with the schema of the new
    tables only, and reopens. *)
Lemma migration_new_tables tables outcome r c r1 :
  filter (fun kv => kv.1 ∉ registeredTables r) tables ≠ ∅ ->
  migration tables outcome r = (c, r1) ->
  calls (db r1)
  = calls (db r)
    ++ (if isOpen (db r) then [DbClose] else [])
    ++ [DbVersionStores (verno (db r) + 1)
          (keySpec <$> filter (fun kv => kv.1 ∉ registeredTables r) tables);
        DbOpen]
  /\ registeredTables r1 = registeredTables r ∪ dom tables
  /\ pendingTables r1 = pendingTables r
  /\ (c = Normal tt -> isOpen (db r1) = true /\ verno (db r1) = verno (db r) + 1).
Proof.
  intros Hnew. unfold migration.
  rewrite bool_decide_eq_false_2; [| by rewrite size_zero_empty].
  destruct outcome as [e|]; simpl; intros [= <- <-]; simpl;
    rewrite (registered_with_new (registeredTables r) tables);
    (split; [ destruct (isOpen (db r)); simpl; by rewrite <- ?app_assoc | ]);
    (split; [ done | split; [ done | ] ]);
    intros Hc; try discriminate;
    split; [ done | destruct (isOpen (db r)); simpl; lia ].
Qed.

End RegistryFacts.

Section RegistryClaims.
Import Registry.

Lemma initializeAll_success outcome r r1 :
  initializeAll outcome r = (Normal tt, r1) ->
  pendingTables r1 = ∅
  /\ registeredTables r1 = registeredTables r ∪ dom (pendingTables r).
Proof.
  unfold initializeAll. case_bool_decide as Hsz.
  - intros [= <-]. apply size_zero_empty in Hsz. rewrite Hsz.
    split; [done |]. rewrite dom_empty_L. by rewrite (right_id_L ∅ (∪)).
  - unfold createTables. rewrite bool_decide_eq_false_2 by (by rewrite map_size_fmap).
    destruct (registrationQueue r) as [e|]; [discriminate |].
    destruct (migration _ outcome r) as [[[]|e] r2] eqn:Hm; [| discriminate].
    intros [= <-]. simpl. split; [done |].
    destruct (decide (filter (fun kv => kv.1 ∉ registeredTables r)
                             (keyFields <$> pendingTables r) = ∅)) as [Hnone|Hsome].
    + pose proof Hnone as Hsub. apply none_new_all_registered in Hsub.
      rewrite (migration_registered_skipped _ _ _ Hsub) in Hm.
      injection Hm as <-. rewrite dom_fmap_L in Hsub.
      apply set_eq; intros x. rewrite elem_of_union. split; [by left |].
      intros [?|?]; [done | by apply Hsub].
    + destruct (migration_new_tables _ _ _ _ _ Hsome Hm) as (_ & -> & _).
      by rewrite dom_fmap_L.
Qed.

Lemma registerTable_fresh name keyFields baseUrl r :
  hasTable name r = false ->
  registerTable name keyFields baseUrl r
  = (Normal tt,
     {| db := db r;
        registeredTables := registeredTables r;
        registrationQueue := registrationQueue r;
        pendingTables :=
          <[name := {| keyFields := keyFields;
                       baseUrl := default EmptyString baseUrl |}]> (pendingTables r) |}).
Proof. intros Hh. unfold registerTable. unfold hasTable in Hh. by rewrite Hh. Qed.

(** C7.  Registering a name that is already known, pending or
    registered or both, throws the duplicate error and returns the registry
    as it was: neither set changes and no database call is made.  In
    particular a second registration right after the first throws, and so
    does a registration after the name went from pending to registered
    through [initializeAll]. *)
Theorem registerTable_duplicate_throws :
  forall name keyFields baseUrl r,
    (hasTable name r = true ->
     registerTable name keyFields baseUrl r = (Throw (duplicate_error name), r))
    /\ (forall keyFields0 baseUrl0,
          let r1 := (registerTable name keyFields0 baseUrl0 r).2 in
          hasTable name r = false ->
          is_Some (pendingTables r1 !! name)
          /\ registerTable name keyFields baseUrl r1 = (Throw (duplicate_error name), r1))
    /\ (forall keyFields0 baseUrl0 outcome r2,
          hasTable name r = false ->
          initializeAll outcome (registerTable name keyFields0 baseUrl0 r).2
          = (Normal tt, r2) ->
          name ∈ registeredTables r2
          /\ registerTable name keyFields baseUrl r2 = (Throw (duplicate_error name), r2)).
Proof.
  intros name kf url r.
  assert (Hdup : forall r', hasTable name r' = true ->
            registerTable name kf url r' = (Throw (duplicate_error name), r')).
  { intros r' Hh. unfold registerTable. unfold hasTable in Hh. by rewrite Hh. }
  split; [apply Hdup |]. split.
  - intros kf0 url0 r1 Hfresh. subst r1.
    rewrite (registerTable_fresh _ kf0 url0 _ Hfresh). simpl.
    assert (Hp : is_Some (<[name := {| keyFields := kf0;
                                      baseUrl := default EmptyString url0 |}]>
                            (pendingTables r) !! name))
      by (rewrite lookup_insert_eq; eauto).
    split; [done |]. apply Hdup. unfold hasTable. simpl.
    by rewrite (bool_decide_eq_true_2 _ Hp).
  - intros kf0 url0 outcome r2 Hfresh Hinit.
    apply initializeAll_success in Hinit as [_ Hreg].
    assert (Hin : name ∈ registeredTables r2).
    { rewrite Hreg. apply elem_of_union_r, elem_of_dom.
      rewrite (registerTable_fresh _ kf0 url0 _ Hfresh). simpl.
      rewrite lookup_insert_eq. eauto. }
    split; [done |]. apply Hdup. unfold hasTable.
    rewrite (bool_decide_eq_true_2 _ Hin). apply orb_true_r.
Qed.

Lemma registerTable_duplicate_throws_witness :
  let r1 := (registerTable "tags" (Some ["spaceId"; "tagName"]) (Some "/tags")
               (new_TableRegistry initial_db)).2 in
  registerTable "tags" None None r1 = (Throw (duplicate_error "tags"), r1).
Proof.
  intros r1.
  apply (proj1 (registerTable_duplicate_throws "tags" None None r1)).
  vm_compute. reflexivity.
Defined.

(** C8.  A successful [initializeAll] empties the pending set and adds
    every pending name to the registered set.  Calling it again without a
    registration in between returns the registry unchanged: the database
    sees no further call, so no version is added and the store is neither
    closed nor reopened.  A migration handed tables that are all
    registered is skipped in the same way, and one handed a mix adds a
    single version whose schema holds the unregistered tables only. *)
Theorem initializeAll_twice_no_migration :
  forall outcome r r1,
    initializeAll outcome r = (Normal tt, r1) ->
    pendingTables r1 = ∅
    /\ registeredTables r1 = registeredTables r ∪ dom (pendingTables r)
    /\ (forall outcome', initializeAll outcome' r1 = (Normal tt, r1))
    /\ (forall tables outcome',
          dom tables ⊆ registeredTables r1 ->
          migration tables outcome' r1 = (Normal tt, r1)
          /\ (registrationQueue r1 = None ->
              createTables tables outcome' r1 = (Normal tt, r1)))
    /\ (forall tables outcome' c r2,
          filter (fun kv => kv.1 ∉ registeredTables r1) tables ≠ ∅ ->
          migration tables outcome' r1 = (c, r2) ->
          migrations (db r2)
          = migrations (db r1)
            ++ [DbVersionStores (verno (db r1) + 1)
                  (keySpec <$> filter (fun kv => kv.1 ∉ registeredTables r1) tables)]).
Proof.
  intros outcome r r1 Hinit.
  destruct (initializeAll_success _ _ _ Hinit) as [Hp Hr].
  split; [done |]. split; [done |]. split; [| split].
  - intros outcome'. unfold initializeAll.
    rewrite bool_decide_eq_true_2; [done |]. by apply size_zero_empty.
  - intros tables outcome' Hsub.
    pose proof (migration_registered_skipped tables outcome' r1 Hsub) as Hm.
    split; [done |]. intros Hq. unfold createTables.
    case_bool_decide; [done |]. by rewrite Hq, Hm.
  - intros tables outcome' c r2 Hnew Hm.
    destruct (migration_new_tables _ _ _ _ _ Hnew Hm) as (Hcalls & _).
    unfold migrations. rewrite Hcalls, !List.filter_app.
    destruct (isOpen (db r1)); simpl; by rewrite ?app_nil_r.
Qed.

Lemma initializeAll_twice_no_migration_witness :
  let r0 := (registerTable "tags" (Some ["spaceId"; "tagName"]) (Some "/tags")
               (new_TableRegistry initial_db)).2 in
  let r1 := (initializeAll None r0).2 in
  migrations (db r1)
  = [DbVersionStores 2 {[ "tags" := "[spaceId+tagName]" ]}]
  /\ initializeAll None r1 = (Normal tt, r1).
Proof.
  intros r0 r1.
  assert (Hinit : initializeAll None r0 = (Normal tt, r1)) by (vm_compute; reflexivity).
  split; [vm_compute; reflexivity |].
  apply (proj1 (proj2 (proj2 (initializeAll_twice_no_migration None r0 r1 Hinit)))).
Defined.

End RegistryClaims.

(* ================================================================== *)
(** * Properties of the filter matcher *)
(* ================================================================== *)

Section FilterFacts.
Import FilterMatcher.

(** The array branch: the field value itself is looked up in the
    parameter array; nothing is converted and a reference is not
    unwrapped. *)
Lemma matches_entry_array entity key expected actual :
  is_special key = false ->
  get_prop entity key = Normal actual ->
  matches_entry entity key (VArr expected) = Normal (includes expected actual).
Proof.
  intros Hk Hget. unfold matches_entry. simpl. rewrite Hk. simpl.
  by rewrite Hget.
Qed.

(** The reference branch: a field holding an object is compared through
    its [id], both sides as strings. *)
Lemma matches_entry_reference entity key expected props :
  is_special key = false ->
  is_undefined expected = false ->
  is_array expected = false ->
  is_null expected = false ->
  get_prop entity key = Normal (VObj props) ->
  matches_entry entity key expected
  = Normal (String.eqb (ToString (get_own (VObj props) "id")) (ToString expected)).
Proof.
  intros Hk Hu Ha Hn Hget. unfold matches_entry.
  rewrite Hu, Hk. simpl. rewrite Hget. simpl.
  destruct expected; try discriminate; reflexivity.
Qed.

(** The primitive branch: both sides as strings. *)
Lemma matches_entry_primitive entity key expected actual :
  is_special key = false ->
  is_undefined expected = false ->
  is_array expected = false ->
  is_object_type actual = false ->
  get_prop entity key = Normal actual ->
  matches_entry entity key expected
  = Normal (String.eqb (ToString actual) (ToString expected)).
Proof.
  intros Hk Hu Ha Ho Hget. unfold matches_entry.
  rewrite Hu, Hk. simpl. rewrite Hget. simpl. rewrite Ho. simpl.
  destruct expected; try discriminate; reflexivity.
Qed.

(** A null field met by a scalar parameter: the guard of the reference
    branch tests the parameter against null, not the field, so the [id]
    of null is read. *)
Lemma matches_entry_null_field entity key expected :
  is_special key = false ->
  is_undefined expected = false ->
  is_array expected = false ->
  is_null expected = false ->
  get_prop entity key = Normal VNull ->
  matches_entry entity key expected
  = Throw (TypeError "Cannot read properties of null (reading 'id')").
Proof.
  intros Hk Hu Ha Hn Hget. unfold matches_entry.
  rewrite Hu, Hk. simpl. rewrite Hget. simpl.
  destruct expected; try discriminate; reflexivity.
Qed.

(** C3.  The numeric field value 5 is not found in the parameter array
    ["5"], although the scalar parameter "5" matches the same record:
    array membership is [includes], without the string conversion of the
    scalar branches. *)
Theorem matchesFilter_array_membership_is_strict :
  let entity := VObj [("id", VStr "1"); ("count", VNum 5)] in
  matchesFilter entity [("count", VArr [VStr "5"])] = Normal false
  /\ matchesFilter entity [("count", VStr "5")] = Normal true
  /\ matchesFilter entity [("count", VArr [VNum 5])] = Normal true.
Proof. repeat split; reflexivity. Qed.

(** C4.  A reference field is compared through its [id] when the
    parameter is a scalar, but against the object itself when the
    parameter is an array, which then never matches. *)
Theorem matchesFilter_array_on_reference_field :
  let entity := VObj [("id", VStr "1");
                      ("type", VObj [("id", VStr "abc123"); ("name", VStr "Note")])] in
  matchesFilter entity [("type", VStr "abc123")] = Normal true
  /\ matchesFilter entity [("type", VArr [VStr "abc123"])] = Normal false.
Proof. split; reflexivity. Qed.

(** C10.  With a null field and a scalar parameter on it the matcher
    throws a TypeError instead of answering. *)
Theorem matchesFilter_null_field_throws :
  matchesFilter (VObj [("id", VStr "1"); ("type", VNull)]) [("type", VStr "note")]
  = Throw (TypeError "Cannot read properties of null (reading 'id')").
Proof. reflexivity. Qed.

(** Where the matcher does answer: on an object whose filtered fields
    are not null. *)
Lemma matches_entry_answers props key expected :
  obj_lookup key props <> Some VNull ->
  exists b, matches_entry (VObj props) key expected = Normal b.
Proof.
  intros Hnn. unfold matches_entry.
  destruct (is_undefined expected || is_special key); [by eexists |].
  simpl. destruct (obj_lookup key props) as [actual|] eqn:Hl; simpl.
  - destruct actual; try congruence;
      destruct expected; simpl; eexists; reflexivity.
  - destruct expected; eexists; reflexivity.
Qed.

Lemma matchesFilter_answers props params :
  (forall key, obj_lookup key props <> Some VNull) ->
  exists b, matchesFilter (VObj props) params = Normal b.
Proof.
  intros Hnn. induction params as [|[key expected] rest IH]; simpl.
  - by eexists.
  - destruct (matches_entry_answers props key expected (Hnn key)) as [b ->].
    simpl. destruct b; [apply IH | by eexists].
Qed.

End FilterFacts.

(* ================================================================== *)
(** * Properties of the key utilities *)
(* ================================================================== *)

Section IdFacts.
Import IdUtils.

Lemma existsb_eqb_elem (f : string) (l : list string) :
  existsb (String.eqb f) l = true <-> f ∈ l.
Proof.
  rewrite existsb_exists, list_elem_of_In. split.
  - intros (g & Hin & Heq). apply String.eqb_eq in Heq. by subst.
  - intros Hin. exists f. split; [done | apply String.eqb_refl].
Qed.

Lemma JSON_stringify_object props :
  JSON_stringify (VObj props)
  = Some ("{" +:+ String.concat "," (json_members props) +:+ "}").
Proof.
  reflexivity.
Qed.

(** Reading the fields of an identifier that is not null or undefined
    never throws: the loop is a fold of assignments. *)
Lemma collect_fields_fold id fields acc :
  is_nullish id = false ->
  collect_fields id fields acc
  = Normal (fold_left (fun a f => obj_set f (extractPrimitiveValue (get_own id f)) a)
                      fields acc).
Proof.
  intros Hid. revert acc. induction fields as [|f rest IH]; intros acc; simpl; [done |].
  destruct id; try discriminate; simpl; apply IH.
Qed.

(** Assigning the reduced value of a field to an object that holds
    reduced values: a declared field keeps its place, a new one is
    appended. *)
Lemma obj_set_reduced id f seen :
  obj_set f (extractPrimitiveValue (get_own id f)) (reduced id seen)
  = reduced id (if existsb (String.eqb f) seen then seen else seen ++ [f]).
Proof.
  unfold reduced. induction seen as [|g seen IH]; simpl; [done |].
  destruct (String.eqb f g) eqn:Heq; simpl.
  - apply String.eqb_eq in Heq. by subst.
  - rewrite IH. by destruct (existsb (String.eqb f) seen).
Qed.

Lemma fold_reduced id fields seen :
  fold_left (fun a f => obj_set f (extractPrimitiveValue (get_own id f)) a)
            fields (reduced id seen)
  = reduced id
      (fold_left (fun seen f => if existsb (String.eqb f) seen then seen else seen ++ [f])
                 fields seen).
Proof.
  revert seen. induction fields as [|f rest IH]; intros seen; simpl; [done |].
  by rewrite obj_set_reduced, IH.
Qed.

Lemma declared_order_NoDup_from fields seen :
  NoDup (seen ++ fields) ->
  fold_left (fun seen f => if existsb (String.eqb f) seen then seen else seen ++ [f])
            fields seen
  = seen ++ fields.
Proof.
  revert seen. induction fields as [|f rest IH]; intros seen Hnd; simpl.
  - by rewrite app_nil_r.
  - assert (Hf : existsb (String.eqb f) seen = false).
    { apply not_true_is_false. rewrite existsb_eqb_elem.
      apply NoDup_app in Hnd as (_ & Hdisj & _).
      intros Hin. apply (Hdisj f Hin). by left. }
    rewrite Hf, IH, <- app_assoc; [done |].
    by rewrite <- app_assoc.
Qed.

Lemma declared_order_NoDup fields :
  NoDup fields -> declared_order fields = fields.
Proof. intros Hnd. by apply (declared_order_NoDup_from fields []). Qed.

Lemma fold_fields_ext (E1 E2 : string -> value) fields acc :
  (forall f, f ∈ fields -> E1 f = E2 f) ->
  fold_left (fun a f => obj_set f (E1 f) a) fields acc
  = fold_left (fun a f => obj_set f (E2 f) a) fields acc.
Proof.
  revert acc. induction fields as [|f rest IH]; intros acc Hext; simpl; [done |].
  rewrite (Hext f) by (by left). apply IH. intros g Hg. apply Hext. by right.
Qed.

(** With distinct property names, the order in which the properties of
    an object were inserted does not change what a name reads. *)
Lemma obj_lookup_Permutation {A} (k : string) (props1 props2 : list (string * A)) :
  NoDup props1.*1 -> props1 ≡ₚ props2 ->
  obj_lookup k props1 = obj_lookup k props2.
Proof.
  intros Hnd Hperm. induction Hperm as [|[k1 v1] l l' Hp IH|[k1 v1] [k2 v2] l|l l' l'' Hp1 IH1 Hp2 IH2].
  - done.
  - simpl. apply NoDup_cons in Hnd as [_ Hnd]. by rewrite IH.
  - simpl. apply NoDup_cons in Hnd as [Hnotin _].
    destruct (String.eqb k k1) eqn:E1, (String.eqb k k2) eqn:E2; try done.
    apply String.eqb_eq in E1, E2. subst. exfalso. apply Hnotin. by left.
  - rewrite IH1 by done. apply IH2.
    by rewrite <- Hp1.
Qed.

End IdFacts.

Section IdClaims.
Import IdUtils.

Lemma assign_fields_fold id fields acc :
  is_nullish id = false ->
  assign_fields id fields acc
  = Normal (fold_left (fun a f => assign f (extractPrimitiveValue (get_own id f)) a)
                      fields acc).
Proof.
  intros Hid. revert acc. induction fields as [|f rest IH]; intros acc; simpl; [done |].
  destruct id; try discriminate; simpl; apply IH.
Qed.

Lemma obj_lookup_reduced_existsb id (names : list string) f :
  obj_lookup f (reduced id names)
  = if existsb (String.eqb f) names
    then Some (extractPrimitiveValue (get_own id f)) else None.
Proof.
  unfold reduced. induction names as [|g rest IH]; simpl; [done |].
  destruct (String.eqb f g) eqn:Hfg; simpl; [| done].
  apply String.eqb_eq in Hfg. by subst g.
Qed.

Lemma insert_index_reduced id n f (names : list string) :
  insert_index n f (extractPrimitiveValue (get_own id f)) (reduced id names)
  = reduced id (insert_name n f names).
Proof.
  unfold reduced. induction names as [|g rest IH]; simpl; [done |].
  destruct (array_index g) as [n'|]; [| done].
  destruct (n' <? n)%N; simpl; [| done]. by rewrite IH.
Qed.

(** Assigning the reduced value of a field to the object of the reduced
    fields: what happens to the object happens to its names. *)
Lemma assign_reduced id f (names : list string) :
  assign f (extractPrimitiveValue (get_own id f)) (reduced id names)
  = reduced id (add_name f names).
Proof.
  unfold assign, add_name. destruct (String.eqb f "__proto__"); [done |].
  rewrite obj_lookup_reduced_existsb.
  destruct (existsb (String.eqb f) names) eqn:Hseen.
  - by rewrite obj_set_reduced, Hseen.
  - destruct (array_index f) as [n|].
    + apply insert_index_reduced.
    + unfold reduced. by rewrite map_app.
Qed.

Lemma fold_assign_reduced id fields (names : list string) :
  fold_left (fun a f => assign f (extractPrimitiveValue (get_own id f)) a)
            fields (reduced id names)
  = reduced id (fold_left (fun names f => add_name f names) fields names).
Proof.
  revert names. induction fields as [|f rest IH]; intros names; simpl; [done |].
  by rewrite assign_reduced, IH.
Qed.

Lemma fold_assign_ext (E1 E2 : string -> value) fields acc :
  (forall f, f ∈ fields -> E1 f = E2 f) ->
  fold_left (fun a f => assign f (E1 f) a) fields acc
  = fold_left (fun a f => assign f (E2 f) a) fields acc.
Proof.
  revert acc. induction fields as [|f rest IH]; intros acc Hext; simpl; [done |].
  rewrite (Hext f) by (by left). apply IH. intros g Hg. apply Hext. by right.
Qed.

Lemma add_name_ordinary f (seen : list string) :
  ordinary f = true ->
  add_name f seen = if existsb (String.eqb f) seen then seen else seen ++ [f].
Proof.
  unfold ordinary, add_name. intros Hf.
  apply andb_true_iff in Hf as [Hidx Hproto].
  apply negb_true_iff in Hidx, Hproto. rewrite Hproto.
  destruct (existsb (String.eqb f) seen); [done |].
  destruct (array_index f) as [n|]; [| done].
  by rewrite bool_decide_eq_true_2 in Hidx.
Qed.

Lemma key_order_ordinary_from fields (seen : list string) :
  Forall (fun f => ordinary f = true) fields ->
  fold_left (fun names f => add_name f names) fields seen
  = fold_left (fun seen f => if existsb (String.eqb f) seen then seen else seen ++ [f])
              fields seen.
Proof.
  revert seen. induction fields as [|f rest IH]; intros seen Hord; simpl; [done |].
  apply Forall_cons in Hord as [Hf Hrest].
  by rewrite (add_name_ordinary f seen Hf), IH.
Qed.

(** Among ordinary names the enumeration order is the order of
    declaration. *)
Lemma key_order_ordinary fields :
  Forall (fun f => ordinary f = true) fields -> key_order fields = declared_order fields.
Proof. apply key_order_ordinary_from. Qed.

Lemma serializeId_composite props fields :
  fields <> [] ->
  serializeId (VObj props) (Some fields)
  = Normal (VStr ("{" +:+ String.concat ","
                            (json_members (reduced (VObj props) (key_order fields)))
                      +:+ "}")).
Proof.
  intros Hne. destruct fields as [|f rest]; [done |].
  unfold serializeId. cbn [is_object_type typeof is_null negb andb].
  rewrite assign_fields_fold by done.
  change (@nil (string * value)) with (reduced (VObj props) []).
  rewrite fold_assign_reduced. cbn [mbind completion_bind mret completion_ret].
  by rewrite JSON_stringify_object.
Qed.

Lemma serializeId_ext props1 props2 fields :
  (forall f, f ∈ fields ->
     extractPrimitiveValue (get_own (VObj props1) f)
     = extractPrimitiveValue (get_own (VObj props2) f)) ->
  fields <> [] ->
  serializeId (VObj props1) (Some fields) = serializeId (VObj props2) (Some fields).
Proof.
  intros Hext Hne. destruct fields as [|f rest]; [done |].
  unfold serializeId. cbn [is_object_type typeof is_null negb andb].
  rewrite !assign_fields_fold by done.
  by rewrite (fold_assign_ext _ _ _ _ Hext).
Qed.

(** C5, as stated, fails: with the key fields [b], [1] the text lists the
    array index [1] first, not the declared order. *)
Lemma serializeId_index_names_first :
  let id := VObj [("b", VStr "x"); ("1", VStr "y")] in
  serializeId id (Some ["b"; "1"])
  = Normal (VStr ("{" +:+ json_member "1" (json_quote "y") +:+ ","
                      +:+ json_member "b" (json_quote "x") +:+ "}"))
  /\ serializeId id (Some ["b"; "1"])
     <> Normal (VStr ("{" +:+ String.concat "," (json_members (reduced id ["b"; "1"]))
                          +:+ "}")).
Proof. split; [reflexivity |]. vm_compute. discriminate. Qed.

(** C5, amended.  For a composite identifier and a non-empty list of
    declared key fields, [serializeId] is the JSON text of the object that
    holds the declared fields, each reduced by [extractPrimitiveValue] (one
    level of [{ id }] unwrapped), in the order an object built from the
    declared fields is enumerated.  That is the order of declaration when
    no field name is an array index or [__proto__], and the declared list
    itself when its names are also distinct.  In every case identifiers
    whose declared fields reduce to the same values serialise to the same
    text, so the insertion order of the identifier's own properties does
    not matter.  An identifier that is not an object is returned as it
    is. *)
Theorem serializeId_key_order :
  forall fields,
    fields <> [] ->
    (forall props,
       serializeId (VObj props) (Some fields)
       = Normal (VStr ("{" +:+ String.concat ","
                                 (json_members (reduced (VObj props) (key_order fields)))
                           +:+ "}")))
    /\ (Forall (fun f => ordinary f = true) fields ->
        key_order fields = declared_order fields)
    /\ (NoDup fields -> declared_order fields = fields)
    /\ (forall props1 props2,
          (forall f, f ∈ fields ->
             extractPrimitiveValue (get_own (VObj props1) f)
             = extractPrimitiveValue (get_own (VObj props2) f)) ->
          serializeId (VObj props1) (Some fields)
          = serializeId (VObj props2) (Some fields))
    /\ (forall props1 props2,
          NoDup props1.*1 -> props1 ≡ₚ props2 ->
          serializeId (VObj props1) (Some fields)
          = serializeId (VObj props2) (Some fields))
    /\ (forall id keyFields,
          is_object_type id = false -> serializeId id keyFields = Normal id).
Proof.
  intros fields Hne. repeat split.
  - intros props. by apply serializeId_composite.
  - apply key_order_ordinary.
  - apply declared_order_NoDup.
  - intros props1 props2 Hext. by apply serializeId_ext.
  - intros props1 props2 Hnd Hperm. apply serializeId_ext; [| done].
    intros f _. simpl. by rewrite (obj_lookup_Permutation f _ _ Hnd Hperm).
  - intros id keyFields Hid. unfold serializeId. by rewrite Hid.
Qed.

Lemma serializeId_key_order_witness :
  let fields := ["space"; "name"] in
  let id1 := [("space", VObj [("id", VStr "s1")]); ("name", VStr "urgent")] in
  let id2 := [("name", VStr "urgent"); ("space", VObj [("id", VStr "s1")])] in
  serializeId (VObj id1) (Some fields) = serializeId (VObj id2) (Some fields)
  /\ serializeId (VObj id1) (Some fields)
     = Normal (VStr ("{" +:+ json_member "space" (json_quote "s1") +:+ ","
                         +:+ json_member "name" (json_quote "urgent") +:+ "}"))
  /\ key_order fields = fields.
Proof.
  intros fields id1 id2.
  assert (Hne : fields <> []) by discriminate.
  destruct (serializeId_key_order fields Hne) as (Htext & Hord & Hnd & _ & Hperm & _).
  split; [| split].
  - apply Hperm.
    + apply (bool_decide_unpack _). vm_compute. exact I.
    + apply Permutation_swap.
  - rewrite Htext. vm_compute. reflexivity.
  - rewrite Hord.
    + apply Hnd. apply (bool_decide_unpack _). vm_compute. exact I.
    + repeat constructor.
Defined.

Lemma mapM_Normal {A B} (g : A -> B) (l : list A) :
  mapM (fun x => Normal (g x)) l = Normal (map g l).
Proof. induction l as [|x l IH]; simpl; [done |]. by rewrite IH. Qed.

(** [buildDexieKey] on a composite identifier: the reduced key fields in
    declared order. *)
Lemma buildDexieKey_composite props fields :
  fields <> [] ->
  buildDexieKey (VObj props) (Some fields)
  = Normal (VArr (map (fun f => extractPrimitiveValue (get_own (VObj props) f)) fields)).
Proof.
  intros Hne. destruct fields as [|f rest]; [done |].
  unfold buildDexieKey. cbn [is_object_type typeof is_null negb andb].
  change (fun field : string =>
            val ← get_prop (VObj props) field; mret (extractPrimitiveValue val))
    with (fun field : string =>
            Normal (extractPrimitiveValue (get_own (VObj props) field))).
  by rewrite mapM_Normal.
Qed.

(** [buildDexieKey] on an identifier that is not an object, or without
    key fields: the identifier itself. *)
Lemma buildDexieKey_simple id keyFields :
  is_object_type id && negb (is_null id) = false
  \/ keyFields = None \/ keyFields = Some [] ->
  buildDexieKey id keyFields = Normal id.
Proof.
  unfold buildDexieKey. intros [Hid|[->| ->]]; [| done | done].
  destruct keyFields as [[|f rest]|]; [done | | done]. by rewrite Hid.
Qed.

End IdClaims.

(* ================================================================== *)
(** * Properties of the entity normaliser *)
(* ================================================================== *)

Section NormalizerFacts.
Import Normalizer.

Lemma obj_lookup_set {A} (k f : string) (x : A) (props : list (string * A)) :
  obj_lookup k (obj_set f x props)
  = if String.eqb k f then Some x else obj_lookup k props.
Proof.
  induction props as [|[g y] rest IH]; simpl.
  - by destruct (String.eqb k f).
  - destruct (String.eqb f g) eqn:Hfg; simpl.
    + apply String.eqb_eq in Hfg. subst g. by destruct (String.eqb k f).
    + rewrite IH. destruct (String.eqb k g) eqn:Hkg; [| done].
      apply String.eqb_eq in Hkg. subst g.
      destruct (String.eqb k f) eqn:Hkf; [| done].
      apply String.eqb_eq in Hkf. subst f. by rewrite String.eqb_refl in Hfg.
Qed.

Lemma obj_set_names {A} (f : string) (x : A) (props : list (string * A)) :
  is_Some (obj_lookup f props) -> (obj_set f x props).*1 = props.*1.
Proof.
  induction props as [|[g y] rest IH]; csimpl; intros Hs.
  - by destruct Hs.
  - destruct (String.eqb f g); csimpl; [done |]. by rewrite IH.
Qed.

Lemma obj_lookup_value_in {A} (k : string) (v : A) (props : list (string * A)) :
  obj_lookup k props = Some v -> v ∈ props.*2.
Proof.
  induction props as [|[g y] rest IH]; csimpl; [done |].
  destruct (String.eqb k g).
  - intros [= ->]. by left.
  - intros Hl. right. by apply IH.
Qed.

(** Assignments reach the copy only. *)
Lemma h_set_prop_other l k v h l0 :
  l0 <> l -> h_set_prop l k v h !! l0 = h !! l0.
Proof. intros Hne. unfold h_set_prop. by rewrite lookup_alter_ne. Qed.

Lemma flatten_fields_frame entity l fields h1 h2 l0 :
  flatten_fields entity l fields h1 = Normal h2 ->
  l0 <> l -> h2 !! l0 = h1 !! l0.
Proof.
  revert h1. induction fields as [|f rest IH]; intros h1; simpl.
  - by intros [= <-].
  - destruct (h_get_prop h1 entity f) as [val|e]; simpl; [| discriminate].
    destruct (h_truthy val && h_is_object_type val && h_has_property h1 "id" val).
    + destruct (h_get_prop h1 val "id") as [id|e]; simpl; [| discriminate].
      intros Hrun Hne. rewrite (IH _ Hrun Hne). by apply h_set_prop_other.
    + apply IH.
Qed.

(** The loop over the key fields, run on the copy [l] of an object. *)
Lemma flatten_fields_object h le props l fields :
  h !! l = None ->
  h !! le = Some (CObj props) ->
  Forall (bound h) props.*2 ->
  forall current,
    flatten_fields (HRef le) l fields (<[l := CObj current]> h)
    = Normal (<[l := CObj (flattened h props fields current)]> h).
Proof.
  intros Hfresh Hle Hbound.
  assert (Hne : le <> l) by (intros ->; congruence).
  induction fields as [|f rest IH]; intros current; simpl; [done |].
  rewrite lookup_insert_ne by done. rewrite Hle. simpl.
  unfold flattened in *. simpl.
  destruct (obj_lookup f props) as [val|] eqn:Hval; simpl; [| apply IH].
  destruct val as [| | | | |r]; simpl; rewrite ?andb_false_r; try apply IH.
  assert (Hr : r <> l).
  { intros ->. apply obj_lookup_value_in in Hval.
    rewrite Forall_forall in Hbound. destruct (Hbound _ Hval) as [c Hc]. congruence. }
  rewrite lookup_insert_ne by done.
  destruct (h !! r) as [[rprops|ritems]|] eqn:Hcell; simpl; try apply IH.
  destruct (obj_lookup "id" rprops) as [id|] eqn:Hid; simpl.
  - unfold h_set_prop. rewrite alter_insert_eq. apply IH.
  - apply IH.
Qed.

Lemma bool_decide_app_other (k f : string) (done : list string) :
  k <> f -> bool_decide (k ∈ done ++ [f]) = bool_decide (k ∈ done).
Proof.
  intros Hne. apply bool_decide_ext.
  rewrite elem_of_app, list_elem_of_singleton. tauto.
Qed.

Lemma flattened_spec h props fields :
  forall current done,
    current.*1 = props.*1 ->
    (forall k, obj_lookup k current
               = v ← obj_lookup k props;
                 Some (if bool_decide (k ∈ done) then default v (ref_id h v) else v)) ->
    (flattened h props fields current).*1 = props.*1
    /\ forall k, obj_lookup k (flattened h props fields current)
                 = v ← obj_lookup k props;
                   Some (if bool_decide (k ∈ done ++ fields)
                         then default v (ref_id h v) else v).
Proof.
  unfold flattened.
  induction fields as [|f rest IH]; intros current done Hnames Hlook; simpl.
  - by rewrite app_nil_r.
  - replace (done ++ f :: rest) with ((done ++ [f]) ++ rest) by (by rewrite <- app_assoc).
    destruct (obj_lookup f props) as [val|] eqn:Hval; simpl.
    + destruct (ref_id h val) as [id|] eqn:Hid; apply IH.
      * rewrite obj_set_names; [done |]. rewrite Hlook, Hval. simpl. eauto.
      * intros k. rewrite obj_lookup_set, Hlook.
        destruct (String.eqb k f) eqn:Hkf.
        -- apply String.eqb_eq in Hkf. subst k. rewrite Hval. simpl.
           rewrite bool_decide_eq_true_2; [by rewrite Hid |].
           rewrite elem_of_app, list_elem_of_singleton. by right.
        -- apply String.eqb_neq in Hkf. by rewrite bool_decide_app_other.
      * done.
      * intros k. rewrite Hlook.
        destruct (decide (k = f)) as [->|Hkf].
        -- rewrite Hval. simpl. rewrite Hid. simpl. by repeat case_bool_decide.
        -- by rewrite bool_decide_app_other.
    + apply IH; [done |]. intros k. rewrite Hlook.
      destruct (decide (k = f)) as [->|Hkf].
      * by rewrite Hval.
      * by rewrite bool_decide_app_other.
Qed.

End NormalizerFacts.

Section NormalizerClaims.
Import Normalizer.

(** C6.  [normalize] leaves every object of the heap as it was, the
    argument and the objects it refers to included.  Without key fields it
    returns the argument itself.  With key fields and an object argument it
    returns a new object with the names of the argument in their order; a
    key field that refers to an object with an [id] holds that [id], and
    every other field, key field or not, holds what the argument holds:
    the same primitive or the same reference. *)
Theorem normalize_shallow_copy :
  forall keyFields entity h,
    (forall v h', normalize keyFields entity h = Normal (v, h') ->
       forall l0 c, h !! l0 = Some c -> h' !! l0 = Some c)
    /\ (keyFields = None \/ keyFields = Some [] ->
        normalize keyFields entity h = Normal (entity, h))
    /\ (forall fields le props,
          keyFields = Some fields -> fields <> [] ->
          entity = HRef le -> h !! le = Some (CObj props) ->
          Forall (bound h) props.*2 ->
          exists l props',
            normalize keyFields entity h = Normal (HRef l, <[l := CObj props']> h)
            /\ h !! l = None
            /\ props'.*1 = props.*1
            /\ forall k, obj_lookup k props'
                         = v ← obj_lookup k props;
                           Some (if bool_decide (k ∈ fields)
                                 then default v (ref_id h v) else v)).
Proof.
  intros keyFields entity h.
  assert (Hfresh : h !! fresh (dom h) = None)
    by (apply not_elem_of_dom, is_fresh).
  split; [| split].
  - intros v h' Hrun l0 c Hl0. unfold normalize in Hrun.
    destruct keyFields as [[|f rest]|]; try (by injection Hrun as <- <-).
    destruct (flatten_fields entity (fresh (dom h)) (f :: rest) _) as [h2|e] eqn:Hloop;
      [| discriminate].
    simpl in Hrun. injection Hrun as <- <-.
    assert (Hne : l0 <> fresh (dom h)) by (intros ->; congruence).
    rewrite (flatten_fields_frame _ _ _ _ _ _ Hloop Hne).
    by rewrite lookup_insert_ne.
  - by intros [-> | ->].
  - intros fields le props -> Hne -> Hle Hbound.
    destruct fields as [|f rest]; [done |].
    exists (fresh (dom h)), (flattened h props (f :: rest) props).
    split; [| split; [done |]].
    + unfold normalize. cbn [own_props]. rewrite Hle.
      by rewrite (flatten_fields_object h le props _ (f :: rest) Hfresh Hle Hbound).
    + apply (flattened_spec h props (f :: rest) props []); [done |].
      intros k. by destruct (obj_lookup k props).
Qed.

Lemma sample_heap_bound :
  Forall (bound sample_heap) [HRef 2; HStr "urgent"; HRef 3].
Proof. repeat constructor; vm_compute; eauto. Defined.

Lemma normalize_shallow_copy_witness :
  exists l props',
    normalize (Some ["space"; "name"]) (HRef 1) sample_heap
    = Normal (HRef l, <[l := CObj props']> sample_heap)
    /\ sample_heap !! l = None
    /\ props'.*1 = ["space"; "name"; "owner"]
    /\ forall k, obj_lookup k props'
                 = v ← obj_lookup k [("space", HRef 2); ("name", HStr "urgent");
                                     ("owner", HRef 3)];
                   Some (if bool_decide (k ∈ ["space"; "name"])
                         then default v (ref_id sample_heap v) else v).
Proof.
  apply (proj2 (proj2 (normalize_shallow_copy (Some ["space"; "name"]) (HRef 1)
                         sample_heap))
           ["space"; "name"] 1%positive
           [("space", HRef 2); ("name", HStr "urgent"); ("owner", HRef 3)]).
  - reflexivity.
  - discriminate.
  - reflexivity.
  - vm_compute. reflexivity.
  - exact sample_heap_bound.
Defined.

(** The example of the class documentation, read out of the heap. *)
Lemma normalize_sample :
  let l := fresh (dom sample_heap) in
  normalize (Some ["space"; "name"]) (HRef 1) sample_heap
  = Normal (HRef l,
            <[l := CObj [("space", HStr "s1"); ("name", HStr "urgent");
                         ("owner", HRef 3)]]> sample_heap)
  /\ sample_heap !! l = None.
Proof. split; vm_compute; reflexivity. Qed.

End NormalizerClaims.

(* ================================================================== *)
(** * Properties of the operations *)
(* ================================================================== *)

Section OperationsFacts.
Import Operations.
Context {T : Type} `{Table T}.

Ltac run :=
  unfold getById, getById_network, remove, request, tbl_get, tbl_put, tbl_delete,
    call_get, call_update, catch, emit, lift, mbind, mret, Async_bind, Async_ret;
  cbn beta iota; cbn [store trace].

(** The network promise of [getById] when the request is rejected. *)
Lemma getById_network_rejected config url err (w : world T) :
  apiRequest config url GET None = Throw err ->
  getById_network config url w
  = (Normal VNull,
     {| store := store w;
        trace := trace w ++ [ApiRequest url GET None]
                 ++ (if isNotFound err then []
                     else [ConsoleError (getById_log config) err]) |}).
Proof.
  intros Hreq. run. rewrite Hreq.
  destruct (isNotFound err); cbn [store trace].
  - by rewrite app_nil_r.
  - by rewrite <- app_assoc.
Qed.

(** The network promise of [getById] when the request is answered and
    the record is stored. *)
Lemma getById_network_stored config url response data normalized t (w : world T) :
  apiRequest config url GET None = Normal response ->
  get_prop response "data" = Normal data ->
  normalize config data = Normal normalized ->
  table_put normalized (store w) = Normal t ->
  getById_network config url w
  = (Normal data,
     {| store := t;
        trace := trace w ++ [ApiRequest url GET None; TablePut normalized] |}).
Proof.
  intros Hreq Hdata Hnorm Hput. run. rewrite Hreq, Hdata, Hnorm. cbn [store trace].
  rewrite Hput. cbn [store trace]. by rewrite <- app_assoc.
Qed.

(** The network promise of [getById] when the request is answered but the
    store refuses the record: the rejection of [put] is caught like a
    rejection of the request, logged, and the promise resolves to null. *)
Lemma getById_network_put_rejected config url response data normalized err (w : world T) :
  apiRequest config url GET None = Normal response ->
  get_prop response "data" = Normal data ->
  normalize config data = Normal normalized ->
  table_put normalized (store w) = Throw err ->
  isNotFound err = false ->
  getById_network config url w
  = (Normal VNull,
     {| store := store w;
        trace := trace w ++ [ApiRequest url GET None; TablePut normalized;
                             ConsoleError (getById_log config) err] |}).
Proof.
  intros Hreq Hdata Hnorm Hput Hnf. run. rewrite Hreq, Hdata, Hnorm. cbn [store trace].
  rewrite Hput, Hnf. cbn [store trace]. by rewrite <- !app_assoc.
Qed.

(** The network promise never rejects and never reads the table. *)
Lemma getById_network_settles config url (w : world T) :
  exists v w1,
    getById_network config url w = (Normal v, w1)
    /\ get_keys (trace w1) = get_keys (trace w).
Proof.
  run. unfold get_keys.
  destruct (apiRequest config url GET None) as [response|err] eqn:Hreq.
  - destruct (get_prop response "data") as [data|err] eqn:Hdata.
    + destruct (normalize config data) as [normalized|err] eqn:Hnorm.
      * cbn [store trace].
        destruct (table_put normalized (store w)) as [t|err] eqn:Hput.
        -- do 2 eexists. split; [reflexivity |]. cbn [trace].
           by rewrite !omap_app, !app_nil_r.
        -- destruct (isNotFound err); do 2 eexists; (split; [reflexivity |]);
             cbn [trace]; by rewrite !omap_app, !app_nil_r.
      * destruct (isNotFound err); do 2 eexists; (split; [reflexivity |]);
          cbn [trace]; by rewrite !omap_app, !app_nil_r.
    + destruct (isNotFound err); do 2 eexists; (split; [reflexivity |]);
        cbn [trace]; by rewrite !omap_app, !app_nil_r.
  - destruct (isNotFound err); do 2 eexists; (split; [reflexivity |]);
      cbn [trace]; by rewrite !omap_app, !app_nil_r.
Qed.

Lemma getById_steps config id cached url (w : world T) :
  getTable config = Normal tt ->
  table_get id (store w) = Normal cached ->
  buildIdUrl config id = Normal url ->
  getById config id w
  = let w1 := {| store := store w; trace := trace w ++ [TableGet id] |} in
    if is_nullish cached then getById_network config url w1
    else match getById_network config url w1 with
         | (Normal _, w2) => (Normal cached, w2)
         | (Throw e, w2) => (Throw e, w2)
         end.
Proof.
  intros Htbl Hget Hurl. unfold getById, tbl_get, call_get, emit, lift.
  unfold mbind, mret, Async_bind, Async_ret. cbn beta iota. cbn [store trace].
  rewrite Htbl, Hget, Hurl. by destruct (is_nullish cached).
Qed.

End OperationsFacts.

Section OperationsClaims.
Import Operations.

(** C1.  Once the table is at hand, the cache has been read and the
    URL is built, a rejected request never rejects [getById]: the call
    resolves to the cached record, or to null when the cache read gave no
    value; the failure is logged unless it is classified as not found,
    which is an [ApiError] with status 404, and the store is left alone.
    With no cached value and an answered request, the record is
    normalised, put into the store, and the record as received is
    returned. *)
Theorem getById_network_failure_resolves :
  forall {T : Type} `{Table T} (config : OperationsConfig)
         (id cached : value) (url : string) (w : world T),
    getTable config = Normal tt ->
    table_get id (store w) = Normal cached ->
    buildIdUrl config id = Normal url ->
    (forall err,
       apiRequest config url GET None = Throw err ->
       getById config id w
       = (Normal (if is_nullish cached then VNull else cached),
          {| store := store w;
             trace := trace w ++ [TableGet id; ApiRequest url GET None]
                      ++ (if isNotFound err then []
                          else [ConsoleError (getById_log config) err]) |}))
    /\ (forall err,
          isNotFound err = true
          <-> exists msg statusText, err = ApiError msg 404 statusText)
    /\ (forall response data normalized t,
          is_nullish cached = true ->
          apiRequest config url GET None = Normal response ->
          get_prop response "data" = Normal data ->
          normalize config data = Normal normalized ->
          table_put normalized (store w) = Normal t ->
          getById config id w
          = (Normal data,
             {| store := t;
                trace := trace w ++ [TableGet id; ApiRequest url GET None;
                                     TablePut normalized] |})).
Proof.
  intros T HT config id cached url w Htbl Hget Hurl. split; [| split].
  - intros err Hreq.
    rewrite (getById_steps config id cached url w Htbl Hget Hurl). cbn zeta.
    rewrite (getById_network_rejected config url err _ Hreq). cbn [store trace].
    rewrite <- !app_assoc. by destruct (is_nullish cached).
  - intros err. split.
    + destruct err as [msg|msg|msg status statusText]; try discriminate.
      simpl. intros Hs. apply Z.eqb_eq in Hs. subst. eauto.
    + by intros (msg & statusText & ->).
  - intros response data normalized t Hnull Hreq Hdata Hnorm Hput.
    rewrite (getById_steps config id cached url w Htbl Hget Hurl). cbn zeta.
    rewrite Hnull.
    rewrite (getById_network_stored config url response data normalized t
               {| store := store w; trace := trace w ++ [TableGet id] |}
               Hreq Hdata Hnorm Hput).
    cbn [store trace]. by rewrite <- app_assoc.
Qed.

Lemma getById_network_failure_resolves_witness :
  let w := Resource.empty_table None in
  getById (Resource.users (Resource.failing (ApiError "Not found" 404 "Not Found")))
          (VStr "nonexistent") w
  = (Normal VNull,
     {| store := store w;
        trace := [TableGet (VStr "nonexistent");
                  ApiRequest "/api/users/nonexistent" GET None] |})
  /\ getById (Resource.users (Resource.failing (PlainError "Network failure")))
             (VStr "user1") w
     = (Normal VNull,
        {| store := store w;
           trace := [TableGet (VStr "user1");
                     ApiRequest "/api/users/user1" GET None;
                     ConsoleError "[Query] Failed to fetch users by ID: "
                                  (PlainError "Network failure")] |}).
Proof.
  intros w. split.
  - destruct (getById_network_failure_resolves
                (Resource.users (Resource.failing (ApiError "Not found" 404 "Not Found")))
                (VStr "nonexistent") VUndefined "/api/users/nonexistent" w)
      as [Hfail _]; [reflexivity | reflexivity | reflexivity |].
    exact (Hfail (ApiError "Not found" 404 "Not Found") eq_refl).
  - destruct (getById_network_failure_resolves
                (Resource.users (Resource.failing (PlainError "Network failure")))
                (VStr "user1") VUndefined "/api/users/user1" w)
      as [Hfail _]; [reflexivity | reflexivity | reflexivity |].
    exact (Hfail (PlainError "Network failure") eq_refl).
Defined.

(** C2.  [remove] sends the DELETE request first.  If the request is
    rejected, [remove] rejects with the same error and the store is as it
    was: no table method has been called.  If it is answered, the key
    [buildDexieKey id keyFields] is deleted from the store, after the
    request.  For the [tags] resource with key fields [spaceId] and
    [tagName], removing [{spaceId: "s1", tagName: "t1"}] requests DELETE
    [/tags/s1/t1] and then deletes the key [["s1", "t1"]]. *)
Theorem remove_deletes_after_network :
  forall {T : Type} `{Table T} (w : world T),
    (forall (config : OperationsConfig) (id : value) (url : string),
       buildIdUrl config id = Normal url ->
       (forall err,
          apiRequest config url DELETE None = Throw err ->
          remove config id w
          = (Throw err,
             {| store := store w;
                trace := trace w ++ [ApiRequest url DELETE None] |}))
       /\ (forall response key t,
             apiRequest config url DELETE None = Normal response ->
             getTable config = Normal tt ->
             IdUtils.buildDexieKey id (keyFields config) = Normal key ->
             table_delete key (store w) = Normal t ->
             remove config id w
             = (Normal tt,
                {| store := t;
                   trace := trace w ++ [ApiRequest url DELETE None;
                                        TableDelete key] |})))
    /\ (forall transport response t,
          transport "/tags/s1/t1" DELETE None = Normal response ->
          table_delete (VArr [VStr "s1"; VStr "t1"]) (store w) = Normal t ->
          remove (Resource.tags transport) Resource.tag_s1_t1 w
          = (Normal tt,
             {| store := t;
                trace := trace w ++ [ApiRequest "/tags/s1/t1" DELETE None;
                                     TableDelete (VArr [VStr "s1"; VStr "t1"])] |})).
Proof.
  intros T HT w.
  assert (Hgen : forall (config : OperationsConfig) (id : value) (url : string),
    buildIdUrl config id = Normal url ->
    (forall err,
       apiRequest config url DELETE None = Throw err ->
       remove config id w
       = (Throw err,
          {| store := store w; trace := trace w ++ [ApiRequest url DELETE None] |}))
    /\ (forall response key t,
          apiRequest config url DELETE None = Normal response ->
          getTable config = Normal tt ->
          IdUtils.buildDexieKey id (keyFields config) = Normal key ->
          table_delete key (store w) = Normal t ->
          remove config id w
          = (Normal tt,
             {| store := t;
                trace := trace w ++ [ApiRequest url DELETE None; TableDelete key] |}))).
  { intros config id url Hurl. split.
    - intros err Hreq.
      unfold remove, request, emit, lift, mbind, mret, Async_bind, Async_ret.
      cbn beta iota. rewrite Hurl. cbn [store trace]. by rewrite Hreq.
    - intros response key t Hreq Htbl Hkey Hdel.
      unfold remove, request, tbl_delete, call_update, emit, lift,
        mbind, mret, Async_bind, Async_ret.
      cbn beta iota. rewrite Hurl. cbn [store trace]. rewrite Hreq, Htbl, Hkey.
      cbn [store trace]. rewrite Hdel. cbn [store trace]. by rewrite <- app_assoc. }
  split; [exact Hgen |].
  intros transport response t Hreq Hdel.
  destruct (Hgen (Resource.tags transport) Resource.tag_s1_t1 "/tags/s1/t1")
    as [_ Hok]; [reflexivity |].
  apply (Hok response (VArr [VStr "s1"; VStr "t1"]) t); done.
Qed.

Lemma remove_deletes_after_network_witness :
  let w := Resource.empty_table Resource.tags_keyFields in
  remove (Resource.tags (Resource.answering VUndefined)) Resource.tag_s1_t1 w
  = (Normal tt,
     {| store := store w;
        trace := [ApiRequest "/tags/s1/t1" DELETE None;
                  TableDelete (VArr [VStr "s1"; VStr "t1"])] |})
  /\ remove (Resource.tags (Resource.failing (PlainError "Network failure")))
            Resource.tag_s1_t1 w
     = (Throw (PlainError "Network failure"),
        {| store := store w; trace := [ApiRequest "/tags/s1/t1" DELETE None] |}).
Proof.
  intros w. destruct (remove_deletes_after_network w) as [Hgen Htags]. split.
  - apply (Htags (Resource.answering VUndefined) VUndefined); reflexivity.
  - destruct (Hgen (Resource.tags (Resource.failing (PlainError "Network failure")))
                   Resource.tag_s1_t1 "/tags/s1/t1") as [Hfail _]; [reflexivity |].
    exact (Hfail (PlainError "Network failure") eq_refl).
Defined.



End OperationsClaims.

(* ================================================================== *)
(** * Further properties of the filter matcher *)
(* ================================================================== *)

Section FilterMore.
Import FilterMatcher Props.

Lemma clean_params_from acc params :
  Forall (fun kv : string * value => is_undefined kv.2 = true) params ->
  fold_left (fun acc '(key, val) =>
               if is_undefined val then acc else obj_set key val acc) params acc
  = acc.
Proof.
  intros Hall. revert acc. induction Hall as [|[k v] rest Hu _ IH]; intros acc; simpl.
  - done.
  - simpl in Hu. rewrite Hu. apply IH.
Qed.

(** X1.  Without parameters, with an empty parameter object, or with
    parameters that are all undefined, [filterEntities] returns the
    entities it was given, whatever they are, and does not throw. *)
Theorem filterEntities_unfiltered :
  forall entities params,
    (forall p, params = Some p ->
       Forall (fun kv : string * value => is_undefined kv.2 = true) p) ->
    filterEntities entities params = Normal entities.
Proof.
  intros entities [p|] Hall; [| done].
  specialize (Hall p eq_refl). unfold filterEntities.
  destruct p as [|kv rest]; [done |].
  unfold clean_params. by rewrite clean_params_from.
Qed.

Lemma filterEntities_unfiltered_witness :
  filterEntities [VNull; VNum 3] (Some [("type", VUndefined); ("status", VUndefined)])
  = Normal [VNull; VNum 3].
Proof.
  apply filterEntities_unfiltered.
  intros p [= <-]. repeat constructor.
Defined.





(** X3.  Undefined parameters and the special parameters [sort] and
    [fields] never change what [matchesFilter] does: dropping them gives
    the same answer or the same error. *)
Theorem matchesFilter_ignores_irrelevant :
  forall entity params,
    matchesFilter entity params = matchesFilter entity (List.filter relevant params).
Proof.
  intros entity params. induction params as [|[k v] rest IH]; simpl; [done |].
  unfold relevant at 1. simpl.
  destruct (is_undefined v || is_special k) eqn:Hskip; simpl.
  - unfold matches_entry. rewrite Hskip. simpl. apply IH.
  - destruct (matches_entry entity k v) as [[|]|err]; simpl; [apply IH | done | done].
Qed.

(** X4.  [matchesFilter] answers true exactly when every parameter
    matches on its own: the parameters are combined by AND. *)
Theorem matchesFilter_conjunction :
  forall entity params,
    matchesFilter entity params = Normal true
    <-> Forall (fun kv => matches_entry entity kv.1 kv.2 = Normal true) params.
Proof.
  intros entity params. induction params as [|[k v] rest IH]; simpl.
  - split; [constructor | done].
  - destruct (matches_entry entity k v) as [[|]|err] eqn:Hentry; simpl.
    + rewrite IH. split.
      * intros Hrest. by constructor.
      * intros Hall. by apply Forall_cons in Hall as [_ Hall].
    + split; [discriminate |]. intros Hall.
      apply Forall_cons in Hall as [Hk _]. simpl in Hk. congruence.
    + split; [discriminate |]. intros Hall.
      apply Forall_cons in Hall as [Hk _]. simpl in Hk. congruence.
Qed.

Lemma matches_entry_scalar_coercion entity key v1 v2 :
  scalar v1 = true -> scalar v2 = true -> ToString v1 = ToString v2 ->
  matches_entry entity key v1 = matches_entry entity key v2.
Proof.
  unfold scalar. intros H1 H2 Hs. unfold matches_entry.
  destruct v1; try discriminate; destruct v2; try discriminate;
    simpl in *; by rewrite ?Hs.
Qed.

(** X5.  A scalar parameter is compared as a string: two parameter
    objects with the same names whose values print the same (the number 5
    and the string "5", true and "true") give the same answer on every
    record. *)
Theorem matchesFilter_scalar_coercion :
  forall entity params1 params2,
    Forall2 (fun a b : string * value =>
               a.1 = b.1 /\ scalar a.2 = true /\ scalar b.2 = true
               /\ ToString a.2 = ToString b.2) params1 params2 ->
    matchesFilter entity params1 = matchesFilter entity params2.
Proof.
  intros entity params1 params2 Hrel.
  induction Hrel as [|[k1 v1] [k2 v2] rest1 rest2 (Hk & Hs1 & Hs2 & Hstr) _ IH]; simpl.
  - done.
  - simpl in *. subst k2.
    rewrite (matches_entry_scalar_coercion entity k1 v1 v2 Hs1 Hs2 Hstr).
    by rewrite IH.
Qed.

Lemma matchesFilter_scalar_coercion_witness :
  let entity := VObj [("id", VStr "1"); ("count", VNum 5); ("active", VBool true)] in
  matchesFilter entity [("count", VNum 5); ("active", VBool true)]
  = matchesFilter entity [("count", VStr "5"); ("active", VStr "true")].
Proof.
  intros entity. apply matchesFilter_scalar_coercion.
  repeat constructor.
Defined.

Lemma filter_matching_answers entities params :
  Forall (fun e => exists props, e = VObj props
                   /\ forall key, obj_lookup key props <> Some VNull) entities ->
  exists kept, filter_matching entities params = Normal kept.
Proof.
  intros Hall. induction Hall as [|e rest (props & -> & Hnn) _ [kept IH]]; simpl.
  - by eexists.
  - destruct (matchesFilter_answers props params Hnn) as [b ->]. simpl.
    rewrite IH. simpl. by eexists.
Qed.

(** X6.  On records that are objects without a null field,
    [filterEntities] always returns: the only way the cache filter can
    throw is a null field or a record that is not an object. *)
Theorem filterEntities_answers :
  forall entities params,
    Forall (fun e => exists props, e = VObj props
                     /\ forall key, obj_lookup key props <> Some VNull) entities ->
    exists kept, filterEntities entities params = Normal kept.
Proof.
  intros entities params Hall. unfold filterEntities.
  destruct params as [[|kv rest]|]; try (by eexists).
  destruct (clean_params (kv :: rest)); [by eexists |].
  by apply filter_matching_answers.
Qed.

Lemma filterEntities_answers_witness :
  exists kept,
    filterEntities [VObj [("id", VStr "1"); ("type", VStr "note")]]
                   (Some [("type", VStr "task")]) = Normal kept.
Proof.
  apply filterEntities_answers. constructor; [| constructor].
  eexists. split; [reflexivity |].
  intros key. simpl.
  destruct (String.eqb key "id"); [discriminate |].
  destruct (String.eqb key "type"); discriminate.
Defined.

End FilterMore.

(* ================================================================== *)
(** * Further properties of the key utilities and the normaliser *)
(* ================================================================== *)

Section KeysMore.
Import IdUtils Props.

Lemma extractPrimitiveValue_primitive v :
  is_primitive v = true -> extractPrimitiveValue v = v.
Proof.
  destruct v; try discriminate; intros _; unfold extractPrimitiveValue; simpl;
    by rewrite ?andb_false_r.
Qed.

(** The loop of [normalize_value] on an object: a key field that holds a
    reference with an [id] is assigned its reduced value. *)
Lemma flatten_value_fold props fields current :
  Normalizer.flatten_value (VObj props) fields current
  = Normal (fold_left
              (fun acc f =>
                 let val := get_own (VObj props) f in
                 if truthy val && is_object_type val && has_property "id" val
                 then obj_set f (extractPrimitiveValue val) acc
                 else acc) fields current).
Proof.
  revert current. induction fields as [|f rest IH]; intros current; simpl; [done |].
  destruct (obj_lookup f props) as [val|]; simpl; [| apply IH].
  unfold extractPrimitiveValue.
  destruct (truthy val && is_object_type val && has_property "id" val); apply IH.
Qed.

Lemma flatten_value_spec props fields :
  forall current done,
    current.*1 = props.*1 ->
    (forall k, obj_lookup k current
               = v ← obj_lookup k props;
                 Some (if bool_decide (k ∈ done) then extractPrimitiveValue v else v)) ->
    let result :=
      fold_left
        (fun acc f =>
           let val := get_own (VObj props) f in
           if truthy val && is_object_type val && has_property "id" val
           then obj_set f (extractPrimitiveValue val) acc
           else acc) fields current in
    result.*1 = props.*1
    /\ forall k, obj_lookup k result
                 = v ← obj_lookup k props;
                   Some (if bool_decide (k ∈ done ++ fields)
                         then extractPrimitiveValue v else v).
Proof.
  induction fields as [|f rest IH]; intros current done Hnames Hlook; simpl.
  - by rewrite app_nil_r.
  - replace (done ++ f :: rest) with ((done ++ [f]) ++ rest) by (by rewrite <- app_assoc).
    destruct (obj_lookup f props) as [val|] eqn:Hval; simpl.
    + destruct (truthy val && is_object_type val && has_property "id" val) eqn:Hcond;
        apply IH.
      * rewrite obj_set_names; [done |]. rewrite Hlook, Hval. simpl. eauto.
      * intros k. rewrite obj_lookup_set, Hlook.
        destruct (String.eqb k f) eqn:Hkf.
        -- apply String.eqb_eq in Hkf. subst k. rewrite Hval. simpl.
           rewrite bool_decide_eq_true_2; [done |].
           rewrite elem_of_app, list_elem_of_singleton. by right.
        -- apply String.eqb_neq in Hkf. by rewrite bool_decide_app_other.
      * done.
      * intros k. rewrite Hlook.
        destruct (decide (k = f)) as [->|Hkf].
        -- rewrite Hval. simpl. unfold extractPrimitiveValue. rewrite Hcond.
           by repeat case_bool_decide.
        -- by rewrite bool_decide_app_other.
    + apply IH; [done |]. intros k. rewrite Hlook.
      destruct (decide (k = f)) as [->|Hkf].
      * by rewrite Hval.
      * by rewrite bool_decide_app_other.
Qed.

(** [normalize_value] on an object: the names stay, a key field holds its
    reduced value, any other field what it held. *)
Lemma normalize_value_object props fields :
  fields <> [] ->
  exists props',
    Normalizer.normalize_value (Some fields) (VObj props) = Normal (VObj props')
    /\ props'.*1 = props.*1
    /\ forall k, obj_lookup k props'
                 = v ← obj_lookup k props;
                   Some (if bool_decide (k ∈ fields)
                         then extractPrimitiveValue v else v).
Proof.
  intros Hne. destruct fields as [|f rest]; [done |].
  eexists. split.
  - unfold Normalizer.normalize_value. rewrite flatten_value_fold. reflexivity.
  - apply (flatten_value_spec props (f :: rest) props []); [done |].
    intros k. by destruct (obj_lookup k props).
Qed.

Lemma normalized_key_field props props' (fields : list string) f :
  (forall k, obj_lookup k props'
             = v ← obj_lookup k props;
               Some (if bool_decide (k ∈ fields) then extractPrimitiveValue v else v)) ->
  f ∈ fields ->
  get_own (VObj props') f = extractPrimitiveValue (get_own (VObj props) f).
Proof.
  intros Hlook Hf. simpl. rewrite Hlook.
  destruct (obj_lookup f props); simpl; [| done].
  by rewrite bool_decide_eq_true_2.
Qed.

(** The key fields of the normalised form of an entity whose key fields
    reduce to primitives. *)
Lemma normalize_value_flat props fields :
  fields <> [] ->
  flat_key (VObj props) fields ->
  exists props',
    Normalizer.normalize_value (Some fields) (VObj props) = Normal (VObj props')
    /\ (forall f, f ∈ fields ->
          get_own (VObj props') f = extractPrimitiveValue (get_own (VObj props) f))
    /\ (forall f, f ∈ fields -> is_primitive (get_own (VObj props') f) = true).
Proof.
  intros Hne Hflat.
  destruct (normalize_value_object props fields Hne) as (props' & Hrun & _ & Hlook).
  exists props'. split; [done |].
  assert (Hfield : forall f, f ∈ fields ->
            get_own (VObj props') f = extractPrimitiveValue (get_own (VObj props) f))
    by (intros f Hf; by eapply normalized_key_field).
  split; [done |].
  intros f Hf. rewrite (Hfield f Hf).
  unfold flat_key in Hflat. rewrite Forall_forall in Hflat. by apply Hflat.
Qed.

(** X7.  When the key fields of an entity reduce to primitives, the
    normalised form holds a primitive in every key field and stands for the
    same record as the raw form: [getEntityId], [buildDexieKey] and
    [serializeId] give the same result on both. *)
Theorem normalize_keeps_identifier :
  forall props fields,
    fields <> [] ->
    flat_key (VObj props) fields ->
    exists props',
      Normalizer.normalize_value (Some fields) (VObj props) = Normal (VObj props')
      /\ Forall (fun f => is_primitive (get_own (VObj props') f) = true) fields
      /\ getEntityId (VObj props') (Some fields) = getEntityId (VObj props) (Some fields)
      /\ buildDexieKey (VObj props') (Some fields) = buildDexieKey (VObj props) (Some fields)
      /\ serializeId (VObj props') (Some fields) = serializeId (VObj props) (Some fields).
Proof.
  intros props fields Hne Hflat.
  destruct (normalize_value_flat props fields Hne Hflat) as (props' & Hrun & Hfield & Hprim).
  exists props'. split; [done |].
  assert (Hext : forall f, f ∈ fields ->
            extractPrimitiveValue (get_own (VObj props') f)
            = extractPrimitiveValue (get_own (VObj props) f)).
  { intros f Hf. rewrite extractPrimitiveValue_primitive by (by apply Hprim).
    by apply Hfield. }
  split; [by apply Forall_forall |]. split; [| split].
  - destruct fields as [|f rest]; [done |]. unfold getEntityId.
    rewrite !collect_fields_fold by done.
    by rewrite (fold_fields_ext _ _ _ _ Hext).
  - rewrite !buildDexieKey_composite by done. do 2 f_equal.
    apply map_ext_in. intros f Hf. apply Hext. by apply list_elem_of_In.
  - by apply serializeId_ext.
Qed.

Lemma tag_flat_key :
  flat_key (VObj [("space", VObj [("id", VStr "s1"); ("name", VStr "Work")]);
                  ("name", VStr "urgent"); ("color", VStr "#FF0000")])
           ["space"; "name"].
Proof. repeat constructor. Defined.

Lemma normalize_keeps_identifier_witness :
  exists props',
    Normalizer.normalize_value (Some ["space"; "name"])
      (VObj [("space", VObj [("id", VStr "s1"); ("name", VStr "Work")]);
             ("name", VStr "urgent"); ("color", VStr "#FF0000")])
    = Normal (VObj props')
    /\ getEntityId (VObj props') (Some ["space"; "name"])
       = Normal (VObj [("space", VStr "s1"); ("name", VStr "urgent")]).
Proof.
  destruct (normalize_keeps_identifier
              [("space", VObj [("id", VStr "s1"); ("name", VStr "Work")]);
               ("name", VStr "urgent"); ("color", VStr "#FF0000")]
              ["space"; "name"]) as (props' & Hrun & _ & Hid & _).
  - discriminate.
  - exact tag_flat_key.
  - exists props'. split; [exact Hrun |]. rewrite Hid. reflexivity.
Defined.

Lemma fold_left_id {A B} (f : A -> B -> A) (l : list B) (a : A) :
  (forall b, b ∈ l -> f a b = a) -> fold_left f l a = a.
Proof.
  induction l as [|b l IH]; simpl; [done |]. intros Hid.
  rewrite (Hid b) by (by left). apply IH. intros b' Hb'. apply Hid. by right.
Qed.

(** X8.  Normalising is idempotent on entities whose key fields reduce to
    primitives: the normalised form is its own normal form. *)
Theorem normalize_value_idempotent :
  forall props fields,
    flat_key (VObj props) fields ->
    exists normalized,
      Normalizer.normalize_value (Some fields) (VObj props) = Normal normalized
      /\ Normalizer.normalize_value (Some fields) normalized = Normal normalized.
Proof.
  intros props fields Hflat.
  destruct fields as [|f rest]; [by eexists |].
  destruct (normalize_value_flat props (f :: rest)) as (props' & Hrun & _ & Hprim);
    [done | done |].
  exists (VObj props'). split; [done |].
  unfold Normalizer.normalize_value. rewrite flatten_value_fold.
  rewrite fold_left_id; [done |].
  intros g Hg. specialize (Hprim g Hg).
  cbv zeta. revert Hprim. generalize (get_own (VObj props') g). intros v Hv.
  destruct v; try discriminate; simpl; by rewrite ?andb_false_r.
Qed.

Lemma normalize_value_idempotent_witness :
  exists normalized,
    Normalizer.normalize_value (Some ["space"; "name"])
      (VObj [("space", VObj [("id", VStr "s1"); ("name", VStr "Work")]);
             ("name", VStr "urgent"); ("color", VStr "#FF0000")])
    = Normal normalized
    /\ Normalizer.normalize_value (Some ["space"; "name"]) normalized = Normal normalized.
Proof. apply normalize_value_idempotent. exact tag_flat_key. Defined.

(** X9.  The path of an identifier follows its store key.  For an object
    or array identifier of a resource with key fields, [buildDexieKey] is
    the array of the reduced key fields in declared order and [buildIdUrl]
    is the base URL followed by exactly these elements, joined by slashes.
    For any other identifier but null both use the identifier itself.
    For null with key fields the two differ: the key is null, the URL
    builder throws a TypeError. *)
Theorem buildIdUrl_follows_key :
  forall base fields id,
    let builder := {| UrlBuilder.baseUrl := base; UrlBuilder.keyFields := fields |} in
    (forall first rest,
       fields = Some (first :: rest) ->
       is_object_type id = true -> is_null id = false ->
       let keys := map (fun f => extractPrimitiveValue (get_own id f)) (first :: rest) in
       buildDexieKey id fields = Normal (VArr keys)
       /\ UrlBuilder.buildIdUrl builder id = Normal (base +:+ "/" +:+ join "/" keys))
    /\ (is_object_type id = false \/ fields = None \/ fields = Some [] ->
        buildDexieKey id fields = Normal id
        /\ UrlBuilder.buildIdUrl builder id = Normal (base +:+ "/" +:+ ToString id))
    /\ (forall first rest,
          fields = Some (first :: rest) -> id = VNull ->
          buildDexieKey id fields = Normal VNull
          /\ UrlBuilder.buildIdUrl builder id
             = Throw (TypeError ("Cannot read properties of null (reading '"
                                 +:+ first +:+ "')"))).
Proof.
  intros base fields id builder. split; [| split].
  - intros first rest -> Hobj Hnull keys.
    unfold buildDexieKey, UrlBuilder.buildIdUrl. cbn [UrlBuilder.keyFields builder].
    rewrite Hobj, Hnull. cbn [negb andb].
    change (fun field : string =>
              val ← get_prop id field; mret (extractPrimitiveValue val))
      with (fun field : string => get_prop id field ≫= fun val => Normal (extractPrimitiveValue val)).
    assert (Hmap : mapM (fun field : string =>
                           get_prop id field ≫= fun val => Normal (extractPrimitiveValue val))
                        (first :: rest) = Normal keys).
    { subst keys. generalize (first :: rest). intros l.
      induction l as [|f l IH]; [done |].
      cbn [mapM map]. rewrite IH.
      destruct id; try discriminate; reflexivity. }
    rewrite Hmap. done.
  - intros Hsimple. split.
    + apply buildDexieKey_simple. destruct Hsimple as [Hobj|[->| ->]]; auto.
      left. by rewrite Hobj.
    + unfold UrlBuilder.buildIdUrl. cbn [UrlBuilder.keyFields builder].
      destruct Hsimple as [Hobj|[->| ->]]; [| done | done].
      destruct fields as [[|f rest]|]; [done | | done]. by rewrite Hobj.
  - intros first rest -> ->. split; reflexivity.
Qed.

Lemma buildIdUrl_follows_key_witness :
  buildDexieKey Resource.tag_s1_t1 Resource.tags_keyFields
  = Normal (VArr [VStr "s1"; VStr "t1"])
  /\ UrlBuilder.buildIdUrl
       {| UrlBuilder.baseUrl := "/tags"; UrlBuilder.keyFields := Resource.tags_keyFields |}
       Resource.tag_s1_t1
     = Normal "/tags/s1/t1".
Proof.
  apply (proj1 (buildIdUrl_follows_key "/tags" Resource.tags_keyFields Resource.tag_s1_t1)
           "spaceId" ["tagName"]); reflexivity.
Defined.

(** X10.  The identifier of an entity does not depend on the order in
    which the entity lists its properties: with distinct property names,
    [getEntityId] gives the same value for every ordering, for simple and
    composite keys alike, and so does the detail query key made of it. *)
Theorem getEntityId_order_independent :
  forall name keyFields props1 props2,
    NoDup props1.*1 -> props1 ≡ₚ props2 ->
    getEntityId (VObj props1) keyFields = getEntityId (VObj props2) keyFields
    /\ (getEntityId (VObj props1) keyFields
          ≫= QueryKeys.detail (QueryKeys.createQueryKeys name keyFields))
       = (getEntityId (VObj props2) keyFields
          ≫= QueryKeys.detail (QueryKeys.createQueryKeys name keyFields)).
Proof.
  intros name keyFields props1 props2 Hnd Hperm.
  assert (Hid : getEntityId (VObj props1) keyFields = getEntityId (VObj props2) keyFields).
  { unfold getEntityId. destruct keyFields as [[|f rest]|].
    - simpl. by rewrite (obj_lookup_Permutation "id" _ _ Hnd Hperm).
    - rewrite !collect_fields_fold by done. do 2 f_equal.
      apply fold_fields_ext. intros g _. simpl.
      by rewrite (obj_lookup_Permutation g _ _ Hnd Hperm).
    - simpl. by rewrite (obj_lookup_Permutation "id" _ _ Hnd Hperm). }
  split; [done |]. by rewrite Hid.
Qed.

Lemma getEntityId_order_independent_witness :
  getEntityId (VObj [("space", VObj [("id", VStr "s1")]); ("name", VStr "urgent")])
              (Some ["space"; "name"])
  = getEntityId (VObj [("name", VStr "urgent"); ("space", VObj [("id", VStr "s1")])])
                (Some ["space"; "name"]).
Proof.
  apply (getEntityId_order_independent "tags" (Some ["space"; "name"])).
  - apply (bool_decide_unpack _). vm_compute. exact I.
  - apply Permutation_swap.
Defined.

(** X11.  The query keys of a resource form a hierarchy: [all] is a
    prefix of every key, [lists()] is a prefix of every list key, and a
    detail key, which always exists, has three elements and is never
    under [lists()], so invalidating the lists leaves the details alone. *)
Theorem queryKeys_hierarchy :
  forall name keyFields params id,
    let keys := QueryKeys.createQueryKeys name keyFields in
    QueryKeys.all keys `prefix_of` QueryKeys.lists keys
    /\ QueryKeys.lists keys `prefix_of` QueryKeys.list keys params
    /\ exists serialized,
         QueryKeys.detail keys id = Normal [VStr name; VStr "detail"; serialized]
         /\ QueryKeys.all keys `prefix_of` [VStr name; VStr "detail"; serialized]
         /\ ~ QueryKeys.lists keys `prefix_of` [VStr name; VStr "detail"; serialized].
Proof.
  intros name keyFields params id keys. split; [| split].
  - by exists [VStr "list"].
  - destruct params as [p|]; simpl; [by exists [VObj p] | by exists []].
  - assert (Hser : exists s, serializeId id keyFields = Normal s).
    { unfold serializeId.
      destruct (is_object_type id && negb (is_null id)) eqn:Hobj; [| by eexists].
      destruct keyFields as [[|f rest]|]; try (by eexists).
      rewrite assign_fields_fold; [by eexists |].
      by destruct id. }
    destruct Hser as [s Hs]. exists s. split; [| split].
    + simpl. by rewrite Hs.
    + by exists [VStr "detail"; s].
    + intros [tail Htail]. simpl in Htail. discriminate.
Qed.

End KeysMore.

(* ================================================================== *)
(** * Further properties of the table registry *)
(* ================================================================== *)

Section RegistryMore.
Import Registry Props.

Lemma pending_all_new r :
  consistent r ->
  filter (fun kv => kv.1 ∉ registeredTables r) (keyFields <$> pendingTables r)
  = keyFields <$> pendingTables r.
Proof.
  intros Hc. apply map_filter_id. intros name kf Hl. simpl.
  intros Hin. apply (Hc name); [| done].
  apply elem_of_dom. rewrite lookup_fmap in Hl.
  destruct (pendingTables r !! name); [eauto | discriminate].
Qed.

Lemma fmap_nonempty {A B} (f : A -> B) (m : gmap string A) :
  m <> ∅ -> f <$> m <> ∅.
Proof. intros Hne Hf. apply Hne. by apply fmap_empty_inv in Hf. Qed.

(** [initializeAll] on a consistent registry with pending tables and a
    healthy queue: the migration runs over all pending tables. *)
Lemma initializeAll_runs outcome r :
  consistent r -> pendingTables r <> ∅ -> registrationQueue r = None ->
  exists c r1,
    migration (keyFields <$> pendingTables r) outcome r = (c, r1)
    /\ calls (db r1)
       = calls (db r)
         ++ (if isOpen (db r) then [DbClose] else [])
         ++ [DbVersionStores (verno (db r) + 1) (keySpec <$> (keyFields <$> pendingTables r));
             DbOpen]
    /\ registeredTables r1 = registeredTables r ∪ dom (pendingTables r)
    /\ pendingTables r1 = pendingTables r
    /\ registrationQueue r1 = None
    /\ verno (db r1) = verno (db r) + 1
    /\ c = match outcome with None => Normal tt | Some e => Throw e end
    /\ initializeAll outcome r
       = match outcome with
         | None => (Normal tt, {| db := db r1; registeredTables := registeredTables r1;
                                  registrationQueue := None; pendingTables := ∅ |})
         | Some e => (Throw e, {| db := db r1; registeredTables := registeredTables r1;
                                  registrationQueue := Some e;
                                  pendingTables := pendingTables r |})
         end.
Proof.
  intros Hc Hne Hq.
  destruct (migration (keyFields <$> pendingTables r) outcome r) as [c r1] eqn:Hm.
  exists c, r1. split; [done |].
  assert (Hnew : filter (fun kv => kv.1 ∉ registeredTables r) (keyFields <$> pendingTables r)
                 <> ∅) by (rewrite pending_all_new by done; by apply fmap_nonempty).
  destruct (migration_new_tables _ _ _ _ _ Hnew Hm) as (Hcalls & Hreg & Hpend & _).
  rewrite pending_all_new in Hcalls by done. rewrite dom_fmap_L in Hreg.
  split; [done |]. split; [done |]. split; [done |].
  assert (Hrest : registrationQueue r1 = None /\ verno (db r1) = verno (db r) + 1
                  /\ c = match outcome with None => Normal tt | Some e => Throw e end).
  { unfold migration in Hm.
    rewrite bool_decide_eq_false_2 in Hm by (by rewrite size_zero_empty).
    destruct outcome as [e|]; simpl in Hm; injection Hm as <- <-; simpl;
      (split; [done |]); (split; [| done]); by destruct (isOpen (db r)). }
  destruct Hrest as (Hq1 & Hv & ->). split; [done |]. split; [done |]. split; [done |].
  unfold initializeAll, createTables.
  rewrite bool_decide_eq_false_2 by (by rewrite size_zero_empty).
  rewrite bool_decide_eq_false_2
    by (rewrite size_zero_empty; by apply fmap_nonempty).
  rewrite Hq, Hm. destruct outcome as [e|]; [| by rewrite Hq1].
  by rewrite Hpend.
Qed.

(** X12.  One failed [open] blocks initialisation for good.  When the
    database rejects the reopening, [initializeAll] rejects with that
    error, yet the new tables are already in the registered set, so
    [getTable] hands out their handles, and they stay pending.  From then
    on every [initializeAll] rejects with the same error without calling
    the database, also when the database would open. *)
Theorem initializeAll_open_failure_blocks :
  forall e r,
    consistent r -> pendingTables r <> ∅ -> registrationQueue r = None ->
    exists r1,
      initializeAll (Some e) r = (Throw e, r1)
      /\ pendingTables r1 = pendingTables r
      /\ (forall name, name ∈ dom (pendingTables r) -> getTable name r1 = Some name)
      /\ forall outcome, initializeAll outcome r1 = (Throw e, r1).
Proof.
  intros e r Hc Hne Hq.
  destruct (initializeAll_runs (Some e) r Hc Hne Hq)
    as (c & r1 & _ & _ & Hreg & _ & _ & _ & _ & Hinit).
  eexists. split; [exact Hinit |]. split; [done |]. split.
  - intros name Hin. unfold getTable. simpl.
    rewrite bool_decide_eq_true_2; [done |]. rewrite Hreg. by apply elem_of_union_r.
  - intros outcome. unfold initializeAll, createTables. simpl.
    rewrite bool_decide_eq_false_2 by (by rewrite size_zero_empty).
    rewrite bool_decide_eq_false_2
      by (rewrite size_zero_empty; by apply fmap_nonempty).
    done.
Qed.

Lemma one_pending_consistent :
  let r := (registerTable "tags" (Some ["spaceId"; "tagName"]) (Some "/tags")
              (new_TableRegistry initial_db)).2 in
  consistent r /\ pendingTables r <> ∅ /\ registrationQueue r = None.
Proof.
  intros r. split; [| split].
  - intros name _ Hin. vm_compute in Hin. discriminate.
  - intros Hempty. assert (Hl : pendingTables r !! "tags" = None) by (by rewrite Hempty).
    vm_compute in Hl. discriminate.
  - reflexivity.
Defined.

Lemma initializeAll_open_failure_blocks_witness :
  let r := (registerTable "tags" (Some ["spaceId"; "tagName"]) (Some "/tags")
              (new_TableRegistry initial_db)).2 in
  exists r1,
    initializeAll (Some (PlainError "blocked")) r = (Throw (PlainError "blocked"), r1)
    /\ initializeAll None r1 = (Throw (PlainError "blocked"), r1).
Proof.
  intros r. destruct one_pending_consistent as (Hc & Hne & Hq).
  destruct (initializeAll_open_failure_blocks (PlainError "blocked") r Hc Hne Hq)
    as (r1 & Hfirst & _ & _ & Hlater).
  exists r1. split; [exact Hfirst | exact (Hlater None)].
Defined.

(** X13.  All pending tables are created by one migration.  On a
    consistent registry with pending tables, a successful [initializeAll]
    closes the database if it is open, adds exactly one version, the
    current one plus one, whose schema has the key specification of every
    pending table, and reopens: the number of pending tables does not
    matter. *)
Theorem initializeAll_single_version :
  forall outcome r r1,
    consistent r -> pendingTables r <> ∅ ->
    initializeAll outcome r = (Normal tt, r1) ->
    calls (db r1)
    = calls (db r)
      ++ (if isOpen (db r) then [DbClose] else [])
      ++ [DbVersionStores (verno (db r) + 1)
            ((fun config => keySpec (keyFields config)) <$> pendingTables r);
          DbOpen]
    /\ verno (db r1) = verno (db r) + 1
    /\ consistent r1.
Proof.
  intros outcome r r1 Hc Hne Hinit.
  assert (Hq : registrationQueue r = None).
  { unfold initializeAll, createTables in Hinit.
    rewrite bool_decide_eq_false_2 in Hinit by (by rewrite size_zero_empty).
    rewrite bool_decide_eq_false_2 in Hinit
      by (rewrite size_zero_empty; by apply fmap_nonempty).
    destruct (registrationQueue r); [discriminate | done]. }
  destruct (initializeAll_runs outcome r Hc Hne Hq)
    as (c & r2 & _ & Hcalls & _ & _ & _ & Hv & _ & Hrun).
  rewrite Hrun in Hinit. destruct outcome as [e|]; [discriminate |].
  injection Hinit as <-. simpl. rewrite Hcalls, Hv.
  rewrite <- map_fmap_compose. split; [done |]. split; [done |].
  unfold consistent. simpl. rewrite dom_empty_L. apply disjoint_empty_l.
Qed.

Lemma initializeAll_single_version_witness :
  let r := (registerTable "tags" (Some ["spaceId"; "tagName"]) (Some "/tags")
              (new_TableRegistry initial_db)).2 in
  verno (db (initializeAll None r).2) = verno (db r) + 1.
Proof.
  intros r. destruct one_pending_consistent as (Hc & Hne & _).
  apply (proj1 (proj2 (initializeAll_single_version None r (initializeAll None r).2
                         Hc Hne eq_refl))).
Defined.

(** X14.  Registration is one-way.  [registerTable] never touches the
    database or the registered set and keeps the registry consistent;
    [initializeAll], whatever the database does, only adds to the
    registered set and never lowers the version: a table that has a
    handle keeps it. *)
Theorem registry_one_way :
  forall r,
    (forall name keyFields baseUrl,
       let r1 := (registerTable name keyFields baseUrl r).2 in
       registeredTables r1 = registeredTables r /\ db r1 = db r
       /\ (consistent r -> consistent r1))
    /\ (forall outcome,
          let r1 := (initializeAll outcome r).2 in
          registeredTables r ⊆ registeredTables r1
          /\ verno (db r) <= verno (db r1)
          /\ forall name, getTable name r = Some name -> getTable name r1 = Some name).
Proof.
  intros r. split.
  - intros name kf url r1. subst r1. unfold registerTable.
    destruct (bool_decide (is_Some (pendingTables r !! name))
              || bool_decide (name ∈ registeredTables r)) eqn:Hknown; simpl.
    + done.
    + split; [done |]. split; [done |]. unfold consistent. simpl.
      apply orb_false_iff in Hknown as [_ Hreg]. apply bool_decide_eq_false in Hreg.
      rewrite dom_insert_L. intros Hc x Hx Hxr.
      apply elem_of_union in Hx as [Hx|Hx]; [| by apply (Hc x)].
      apply elem_of_singleton in Hx. by subst.
  - intros outcome r1.
    assert (Hmono : registeredTables r ⊆ registeredTables r1
                    /\ verno (db r) <= verno (db r1)).
    { subst r1. unfold initializeAll.
      case_bool_decide; simpl; [split; [done | lia] |].
      unfold createTables. case_bool_decide; simpl; [split; [done | lia] |].
      destruct (registrationQueue r); simpl; [split; [done | lia] |].
      destruct (decide (filter (fun kv => kv.1 ∉ registeredTables r)
                               (keyFields <$> pendingTables r) = ∅)) as [Hnone|Hsome].
      - apply none_new_all_registered in Hnone.
        rewrite (migration_registered_skipped _ _ _ Hnone). simpl. split; [done | lia].
      - destruct (migration _ outcome r) as [c r2] eqn:Hm.
        destruct (migration_new_tables _ _ _ _ _ Hsome Hm) as (_ & Hreg & _ & _).
        assert (Hv : verno (db r2) = verno (db r) + 1).
        { unfold migration in Hm.
          rewrite bool_decide_eq_false_2 in Hm by (by rewrite size_zero_empty).
          destruct outcome; simpl in Hm; injection Hm as <- <-; simpl;
            by destruct (isOpen (db r)). }
        destruct c as [[]|e]; simpl; rewrite Hreg, Hv;
          (split; [apply union_subseteq_l | lia]). }
    destruct Hmono as [Hsub Hv]. split; [done |]. split; [done |].
    intros name. unfold getTable. case_bool_decide as Hin; [| discriminate].
    intros _. rewrite bool_decide_eq_true_2; [done |]. by apply Hsub.
Qed.

Lemma registry_one_way_witness :
  let r := (initializeAll None
              (registerTable "tags" (Some ["spaceId"; "tagName"]) (Some "/tags")
                 (new_TableRegistry initial_db)).2).2 in
  let r1 := (initializeAll (Some (PlainError "blocked"))
               (registerTable "users" None (Some "/api/users") r).2).2 in
  getTable "tags" (registerTable "users" None (Some "/api/users") r).2 = Some "tags"
  /\ getTable "tags" r1 = Some "tags".
Proof.
  intros r r1. split; [reflexivity |].
  destruct (registry_one_way (registerTable "users" None (Some "/api/users") r).2)
    as [_ Hinit].
  destruct (Hinit (Some (PlainError "blocked"))) as (_ & _ & Hkeep).
  apply Hkeep. reflexivity.
Defined.

(** X15.  A table has no handle until [initializeAll] succeeded.  After
    the registration of a new name the registry knows the name but
    [getTable] gives nothing and the resource's accessor throws the
    not-initialised error; after a successful [initializeAll] the accessor
    hands out the table. *)
Theorem table_handle_lifecycle :
  forall r name keyFields baseUrl,
    hasTable name r = false ->
    let r1 := (registerTable name keyFields baseUrl r).2 in
    hasTable name r1 = true
    /\ getTable name r1 = None
    /\ Resource.getTable name r1 = Throw (Resource.not_initialized_error name)
    /\ forall outcome r2,
         initializeAll outcome r1 = (Normal tt, r2) ->
         Resource.getTable name r2 = Normal tt.
Proof.
  intros r name kf url Hfresh r1. subst r1.
  rewrite (registerTable_fresh _ kf url _ Hfresh). simpl.
  unfold hasTable in Hfresh. apply orb_false_iff in Hfresh as [_ Hreg].
  apply bool_decide_eq_false in Hreg.
  assert (Hnone : forall r0, registeredTables r0 = registeredTables r -> getTable name r0 = None).
  { intros r0 Hr0. unfold getTable. rewrite Hr0. by rewrite bool_decide_eq_false_2. }
  split; [| split; [| split]].
  - unfold hasTable. simpl. rewrite lookup_insert_eq.
    by rewrite bool_decide_eq_true_2 by eauto.
  - by apply Hnone.
  - unfold Resource.getTable. by rewrite Hnone.
  - intros outcome r2 Hinit. apply initializeAll_success in Hinit as [_ Hr2].
    unfold Resource.getTable, getTable. rewrite Hr2. simpl.
    rewrite bool_decide_eq_true_2; [done |].
    apply elem_of_union_r, elem_of_dom. rewrite lookup_insert_eq. eauto.
Qed.

Lemma table_handle_lifecycle_witness :
  let r1 := (registerTable "users" None (Some "/api/users")
               (new_TableRegistry initial_db)).2 in
  Resource.getTable "users" r1 = Throw (Resource.not_initialized_error "users").
Proof.
  intros r1.
  apply (table_handle_lifecycle (new_TableRegistry initial_db) "users" None
           (Some "/api/users") eq_refl).
Defined.

(** X16.  [Query.size] counts every known table once.  On a consistent
    registry the registration of a new name raises it by one and a
    successful [initializeAll] leaves it as it is. *)
Theorem size_counts_tables :
  forall r,
    consistent r ->
    (forall name keyFields baseUrl,
       hasTable name r = false ->
       Facade.size (registerTable name keyFields baseUrl r).2 = S (Facade.size r))
    /\ (forall outcome r1,
          initializeAll outcome r = (Normal tt, r1) ->
          Facade.size r1 = Facade.size r).
Proof.
  intros r Hc. split.
  - intros name kf url Hfresh. rewrite (registerTable_fresh _ kf url _ Hfresh).
    unfold Facade.size, getPendingTables, getRegisteredTables. simpl.
    unfold hasTable in Hfresh. apply orb_false_iff in Hfresh as [Hpend _].
    apply bool_decide_eq_false in Hpend.
    rewrite map_size_insert_None; [done |].
    destruct (pendingTables r !! name) eqn:Hl; [| done]. exfalso. eauto.
  - intros outcome r1 Hinit. apply initializeAll_success in Hinit as [Hp Hr].
    unfold Facade.size, getPendingTables, getRegisteredTables. rewrite Hp, Hr.
    rewrite map_size_empty. simpl.
    change (length (elements (registeredTables r ∪ dom (pendingTables r))))
      with (size (registeredTables r ∪ dom (pendingTables r))).
    rewrite size_union by (symmetry; exact Hc).
    rewrite size_dom.
    change (length (elements (registeredTables r))) with (size (registeredTables r)).
    lia.
Qed.

Lemma size_counts_tables_witness :
  Facade.size (registerTable "users" None (Some "/api/users")
                 (new_TableRegistry initial_db)).2
  = S (Facade.size (new_TableRegistry initial_db)).
Proof.
  apply (proj1 (size_counts_tables (new_TableRegistry initial_db)
                  ltac:(intros name Hin _; vm_compute in Hin; discriminate))).
  reflexivity.
Defined.

End RegistryMore.

(* ================================================================== *)
(** * Further properties of the single-record operations *)
(* ================================================================== *)

Section OperationsMore.
Import Operations.

Ltac run_op :=
  unfold getById, create, update, remove, request, tbl_get, tbl_put, tbl_delete,
    call_get, call_update, emit, lift, mbind, mret, Async_bind, Async_ret;
  cbn beta iota; cbn [store trace].

(** X17.  [create] stores only what the server acknowledged.  If the POST
    is rejected, [create] rejects with the same error and no table method
    is called.  If it is answered, the returned entity is normalised and
    put, and the entity as received is the result.  A rejection of the
    [put] is not masked: [create] rejects with it, after the request. *)
Theorem create_stores_after_network :
  forall {T : Type} `{Table T} (config : OperationsConfig) (data : value) (w : world T),
    let sent := ApiRequest (baseUrl config) POST (JSON_stringify data) in
    (forall err,
       apiRequest config (baseUrl config) POST (JSON_stringify data) = Throw err ->
       create config data w
       = (Throw err, {| store := store w; trace := trace w ++ [sent] |}))
    /\ (forall response created normalized,
          apiRequest config (baseUrl config) POST (JSON_stringify data) = Normal response ->
          get_prop response "data" = Normal created ->
          getTable config = Normal tt ->
          normalize config created = Normal normalized ->
          (forall t, table_put normalized (store w) = Normal t ->
             create config data w
             = (Normal created,
                {| store := t; trace := trace w ++ [sent; TablePut normalized] |}))
          /\ (forall err, table_put normalized (store w) = Throw err ->
                create config data w
                = (Throw err,
                   {| store := store w;
                      trace := trace w ++ [sent; TablePut normalized] |}))).
Proof.
  intros T HT config data w sent. split.
  - intros err Hreq. run_op. by rewrite Hreq.
  - intros response created normalized Hreq Hdata Htbl Hnorm. split.
    + intros t Hput. run_op. rewrite Hreq, Hdata, Htbl, Hnorm. cbn [store trace].
      rewrite Hput. cbn [store trace]. by rewrite <- app_assoc.
    + intros err Hput. run_op. rewrite Hreq, Hdata, Htbl, Hnorm. cbn [store trace].
      rewrite Hput. by rewrite <- app_assoc.
Qed.

Lemma create_stores_after_network_witness :
  let w := Resource.empty_table None in
  let data := VObj [("name", VStr "Fresh User"); ("email", VStr "fresh@example.com")] in
  let sent := ApiRequest "/api/users" POST (JSON_stringify data) in
  create (Resource.users (Resource.failing (PlainError "Network failure"))) data w
  = (Throw (PlainError "Network failure"), {| store := store w; trace := [sent] |})
  /\ create (Resource.users (Resource.answering (VObj [("data", Resource.fresh_user)])))
            data w
     = (Normal Resource.fresh_user,
        {| store := {| mock_keyFields := None;
                       mock_rows := [(VStr "user1", Resource.fresh_user)] |};
           trace := [sent; TablePut Resource.fresh_user] |})
  /\ create (Resource.users (Resource.answering (VObj [("data", VNull)]))) data w
     = (Throw (TypeError "Cannot read properties of null (reading 'id')"),
        {| store := store w; trace := [sent; TablePut VNull] |}).
Proof.
  intros w data sent. split; [| split].
  - destruct (create_stores_after_network
                (Resource.users (Resource.failing (PlainError "Network failure")))
                data w) as [Hfail _].
    exact (Hfail (PlainError "Network failure") eq_refl).
  - destruct (create_stores_after_network
                (Resource.users (Resource.answering (VObj [("data", Resource.fresh_user)])))
                data w) as [_ Hok].
    destruct (Hok (VObj [("data", Resource.fresh_user)]) Resource.fresh_user
                  Resource.fresh_user) as [Hput _]; [reflexivity.. |].
    apply Hput. reflexivity.
  - destruct (create_stores_after_network
                (Resource.users (Resource.answering (VObj [("data", VNull)])))
                data w) as [_ Hok].
    destruct (Hok (VObj [("data", VNull)]) VNull VNull) as [_ Hrej]; [reflexivity.. |].
    apply Hrej. reflexivity.
Defined.

(** X18.  [update] likewise: the PATCH goes to the URL of the
    identifier; a rejected request leaves the store alone and rejects the
    call; an answered one puts the normalised entity and returns the
    entity as received. *)
Theorem update_stores_after_network :
  forall {T : Type} `{Table T} (config : OperationsConfig) (id data : value) (url : string) (w : world T),
    buildIdUrl config id = Normal url ->
    let sent := ApiRequest url PATCH (JSON_stringify data) in
    (forall err,
       apiRequest config url PATCH (JSON_stringify data) = Throw err ->
       update config id data w
       = (Throw err, {| store := store w; trace := trace w ++ [sent] |}))
    /\ (forall response updated normalized t,
          apiRequest config url PATCH (JSON_stringify data) = Normal response ->
          get_prop response "data" = Normal updated ->
          getTable config = Normal tt ->
          normalize config updated = Normal normalized ->
          table_put normalized (store w) = Normal t ->
          update config id data w
          = (Normal updated,
             {| store := t; trace := trace w ++ [sent; TablePut normalized] |})).
Proof.
  intros T HT config id data url w Hurl sent. split.
  - intros err Hreq. run_op. rewrite Hurl. cbn [store trace]. by rewrite Hreq.
  - intros response updated normalized t Hreq Hdata Htbl Hnorm Hput.
    run_op. rewrite Hurl. cbn [store trace]. rewrite Hreq, Hdata, Htbl, Hnorm.
    cbn [store trace]. rewrite Hput. cbn [store trace]. by rewrite <- app_assoc.
Qed.

Lemma update_stores_after_network_witness :
  let w := Resource.users_world [(VStr "user1", Resource.cached_user)] in
  let data := VObj [("name", VStr "Fresh User")] in
  let sent := ApiRequest "/api/users/user1" PATCH (JSON_stringify data) in
  update (Resource.users (Resource.failing (PlainError "Network failure")))
         (VStr "user1") data w
  = (Throw (PlainError "Network failure"), {| store := store w; trace := [sent] |})
  /\ update (Resource.users (Resource.answering (VObj [("data", Resource.fresh_user)])))
            (VStr "user1") data w
     = (Normal Resource.fresh_user,
        {| store := {| mock_keyFields := None;
                       mock_rows := [(VStr "user1", Resource.fresh_user)] |};
           trace := [sent; TablePut Resource.fresh_user] |}).
Proof.
  intros w data sent. split.
  - destruct (update_stores_after_network
                (Resource.users (Resource.failing (PlainError "Network failure")))
                (VStr "user1") data "/api/users/user1" w) as [Hfail _]; [reflexivity |].
    exact (Hfail (PlainError "Network failure") eq_refl).
  - destruct (update_stores_after_network
                (Resource.users (Resource.answering (VObj [("data", Resource.fresh_user)])))
                (VStr "user1") data "/api/users/user1" w) as [_ Hok]; [reflexivity |].
    apply (Hok (VObj [("data", Resource.fresh_user)]) Resource.fresh_user
               Resource.fresh_user); reflexivity.
Defined.

(** X19.  Before the table is initialised the reads fail fast and the
    writes do not.  With a table accessor that throws, [getById] rejects
    without any request or table call, while [remove], [create] and
    [update] have sent their request to the server by the time the
    accessor throws. *)
Theorem uninitialized_reads_fail_fast :
  forall {T : Type} `{Table T} (config : OperationsConfig) (e : error) (w : world T),
    getTable config = Throw e ->
    (forall id, getById config id w = (Throw e, w))
    /\ (forall id url response,
          buildIdUrl config id = Normal url ->
          apiRequest config url DELETE None = Normal response ->
          remove config id w
          = (Throw e, {| store := store w;
                         trace := trace w ++ [ApiRequest url DELETE None] |}))
    /\ (forall data response created,
          apiRequest config (baseUrl config) POST (JSON_stringify data) = Normal response ->
          get_prop response "data" = Normal created ->
          create config data w
          = (Throw e, {| store := store w;
                         trace := trace w ++ [ApiRequest (baseUrl config) POST
                                                (JSON_stringify data)] |}))
    /\ (forall id data url response updated,
          buildIdUrl config id = Normal url ->
          apiRequest config url PATCH (JSON_stringify data) = Normal response ->
          get_prop response "data" = Normal updated ->
          update config id data w
          = (Throw e, {| store := store w;
                         trace := trace w ++ [ApiRequest url PATCH
                                                (JSON_stringify data)] |})).
Proof.
  intros T HT config e w Htbl. repeat split.
  - intros id. run_op. by rewrite Htbl.
  - intros id url response Hurl Hreq. run_op. rewrite Hurl. cbn [store trace].
    by rewrite Hreq, Htbl.
  - intros data response created Hreq Hdata. run_op. by rewrite Hreq, Hdata, Htbl.
  - intros id data url response updated Hurl Hreq Hdata. run_op. rewrite Hurl.
    cbn [store trace]. by rewrite Hreq, Hdata, Htbl.
Qed.

Lemma uninitialized_reads_fail_fast_witness :
  let e := Resource.not_initialized_error "users" in
  let config :=
    Resource.operations_config "users" "/api/users" None (Throw e)
      (Resource.answering (VObj [("data", Resource.fresh_user)])) in
  let w := Resource.empty_table None in
  getById config (VStr "user1") w = (Throw e, w)
  /\ remove config (VStr "user1") w
     = (Throw e, {| store := store w;
                    trace := [ApiRequest "/api/users/user1" DELETE None] |}).
Proof.
  intros e config w.
  destruct (uninitialized_reads_fail_fast config e w) as (Hget & Hremove & _);
    [reflexivity |].
  split.
  - exact (Hget (VStr "user1")).
  - apply (Hremove (VStr "user1") "/api/users/user1"
                   (VObj [("data", Resource.fresh_user)])); reflexivity.
Defined.

(** With a record in the cache, [getById] resolves to it. *)
Lemma getById_cached {T : Type} `{Table T} (config : OperationsConfig)
    (id cached : value) (url : string) (w : world T) :
  getTable config = Normal tt ->
  table_get id (store w) = Normal cached ->
  is_nullish cached = false ->
  buildIdUrl config id = Normal url ->
  exists w1, getById config id w = (Normal cached, w1)
             /\ get_keys (trace w1) = get_keys (trace w) ++ [id].
Proof.
  intros Htbl Hget Hcached Hurl.
  rewrite (getById_steps config id cached url w Htbl Hget Hurl). cbn zeta.
  rewrite Hcached.
  destruct (getById_network_settles config url
              {| store := store w; trace := trace w ++ [TableGet id] |})
    as (v & w1 & Hnet & Hkeys).
  rewrite Hnet. exists w1. split; [done |].
  rewrite Hkeys. cbn [trace]. unfold get_keys. by rewrite omap_app.
Qed.

(** X20.  The cache wins.  When the cache read gives a record, [getById]
    resolves to that record whatever the network and the normaliser do,
    and never reads the table again; if the request is answered and the
    store accepts the record, the fresh record replaces the cached one in
    the store. *)
Theorem getById_cache_wins :
  forall {T : Type} `{Table T} (config : OperationsConfig) (id cached : value) (url : string) (w : world T),
    getTable config = Normal tt ->
    table_get id (store w) = Normal cached ->
    is_nullish cached = false ->
    buildIdUrl config id = Normal url ->
    (exists w1, getById config id w = (Normal cached, w1)
                /\ get_keys (trace w1) = get_keys (trace w) ++ [id])
    /\ (forall response data normalized t,
          apiRequest config url GET None = Normal response ->
          get_prop response "data" = Normal data ->
          normalize config data = Normal normalized ->
          table_put normalized (store w) = Normal t ->
          getById config id w
          = (Normal cached,
             {| store := t;
                trace := trace w ++ [TableGet id; ApiRequest url GET None;
                                     TablePut normalized] |})).
Proof.
  intros T HT config id cached url w Htbl Hget Hcached Hurl. split.
  - by apply (getById_cached config id cached url w).
  - intros response data normalized t Hreq Hdata Hnorm Hput.
    rewrite (getById_steps config id cached url w Htbl Hget Hurl). cbn zeta.
    rewrite Hcached.
    rewrite (getById_network_stored config url response data normalized t
               {| store := store w; trace := trace w ++ [TableGet id] |}
               Hreq Hdata Hnorm Hput).
    cbn [store trace]. by rewrite <- app_assoc.
Qed.

Lemma getById_cache_wins_witness :
  let w := Resource.users_world [(VStr "user1", Resource.cached_user)] in
  getById (Resource.users (Resource.answering (VObj [("data", Resource.fresh_user)])))
          (VStr "user1") w
  = (Normal Resource.cached_user,
     {| store := {| mock_keyFields := None;
                    mock_rows := [(VStr "user1", Resource.fresh_user)] |};
        trace := [TableGet (VStr "user1"); ApiRequest "/api/users/user1" GET None;
                  TablePut Resource.fresh_user] |}).
Proof.
  intros w.
  destruct (getById_cache_wins
              (Resource.users (Resource.answering (VObj [("data", Resource.fresh_user)])))
              (VStr "user1") Resource.cached_user "/api/users/user1" w)
    as [_ Hok]; [reflexivity.. |].
  apply (Hok (VObj [("data", Resource.fresh_user)]) Resource.fresh_user
             Resource.fresh_user); reflexivity.
Defined.

(** X21.  A store failure on the read path is swallowed.  When the
    request is answered but the store rejects the record, [getById] with
    an empty cache resolves to null, logs the store's error and leaves the
    store as it was; the fetched record is lost to the caller. *)
Theorem getById_swallows_store_failure :
  forall {T : Type} `{Table T} (config : OperationsConfig) (id cached : value) (url : string) (w : world T)
         response data normalized err,
    getTable config = Normal tt ->
    table_get id (store w) = Normal cached ->
    is_nullish cached = true ->
    buildIdUrl config id = Normal url ->
    apiRequest config url GET None = Normal response ->
    get_prop response "data" = Normal data ->
    normalize config data = Normal normalized ->
    table_put normalized (store w) = Throw err ->
    isNotFound err = false ->
    getById config id w
    = (Normal VNull,
       {| store := store w;
          trace := trace w ++ [TableGet id; ApiRequest url GET None;
                               TablePut normalized;
                               ConsoleError (getById_log config) err] |}).
Proof.
  intros T HT config id cached url w response data normalized err
         Htbl Hget Hcached Hurl Hreq Hdata Hnorm Hput Hnf.
  rewrite (getById_steps config id cached url w Htbl Hget Hurl). cbn zeta.
  rewrite Hcached.
  rewrite (getById_network_put_rejected config url response data normalized err
             {| store := store w; trace := trace w ++ [TableGet id] |}
             Hreq Hdata Hnorm Hput Hnf).
  cbn [store trace]. by rewrite <- app_assoc.
Qed.

Lemma getById_swallows_store_failure_witness :
  let w := Resource.empty_table None in
  let err := TypeError "Cannot read properties of null (reading 'id')" in
  getById (Resource.users (Resource.answering (VObj [("data", VNull)])))
          (VStr "user1") w
  = (Normal VNull,
     {| store := store w;
        trace := [TableGet (VStr "user1"); ApiRequest "/api/users/user1" GET None;
                  TablePut VNull;
                  ConsoleError "[Query] Failed to fetch users by ID: " err] |}).
Proof.
  intros w err.
  apply (getById_swallows_store_failure
           (Resource.users (Resource.answering (VObj [("data", VNull)])))
           (VStr "user1") VUndefined "/api/users/user1" w
           (VObj [("data", VNull)]) VNull VNull err); reflexivity.
Defined.

End OperationsMore.

(* ================================================================== *)
(** * The operations on the in-memory table *)
(* ================================================================== *)

Section StoredRecords.
Import Operations IdUtils Props.

Lemma same_value_zero_refl k : is_primitive k = true -> same_value_zero k k = true.
Proof.
  destruct k; try discriminate; intros _; simpl; try done.
  - by destruct b.
  - apply Z.eqb_refl.
  - apply String.eqb_refl.
Qed.

Lemma map_get_set k v rows :
  same_value_zero k k = true -> map_get k (map_set k v rows) = v.
Proof.
  intros Hk. induction rows as [|[k' v'] rest IH]; simpl.
  - by rewrite Hk.
  - destruct (same_value_zero k' k) eqn:Hk'; simpl; by rewrite Hk'.
Qed.

Lemma map_get_delete k rows : map_get k (map_delete k rows) = VUndefined.
Proof.
  unfold map_delete. induction rows as [|[k' v'] rest IH]; simpl; [done |].
  destruct (same_value_zero k' k) eqn:Hk'; simpl; [done |]. by rewrite Hk'.
Qed.

Lemma mapM_get_prop_object props (fields : list string) :
  mapM (get_prop (VObj props)) fields = Normal (map (get_own (VObj props)) fields).
Proof. apply (mapM_Normal (get_own (VObj props))). Qed.

Lemma declared_order_from_elem (fields seen : list string) f :
  f ∈ seen ++ fields ->
  f ∈ fold_left (fun seen f => if existsb (String.eqb f) seen then seen else seen ++ [f])
                fields seen.
Proof.
  revert seen. induction fields as [|g rest IH]; intros seen Hf; simpl.
  - by rewrite app_nil_r in Hf.
  - apply IH. rewrite elem_of_app in Hf. rewrite elem_of_app.
    destruct Hf as [Hf | Hf].
    + left. destruct (existsb (String.eqb g) seen); [done |].
      rewrite elem_of_app. by left.
    + apply elem_of_cons in Hf as [-> | Hf]; [| by right].
      left. destruct (existsb (String.eqb g) seen) eqn:Hg.
      * by apply existsb_eqb_elem.
      * rewrite elem_of_app, list_elem_of_singleton. by right.
Qed.

Lemma obj_lookup_reduced e (order : list string) f :
  f ∈ order -> obj_lookup f (reduced e order) = Some (extractPrimitiveValue (get_own e f)).
Proof.
  unfold reduced. induction order as [|g rest IH]; intros Hf; simpl.
  - by apply elem_of_nil in Hf.
  - destruct (String.eqb f g) eqn:Hg.
    + apply String.eqb_eq in Hg. by subst g.
    + apply IH. apply elem_of_cons in Hf as [-> | Hf]; [| done].
      by rewrite String.eqb_refl in Hg.
Qed.

(** The identifier of an object entity with key fields, and what it holds
    in a key field. *)
Lemma getEntityId_object props f0 rest :
  getEntityId (VObj props) (Some (f0 :: rest))
  = Normal (VObj (reduced (VObj props) (declared_order (f0 :: rest))))
  /\ forall f, f ∈ f0 :: rest ->
       get_own (VObj (reduced (VObj props) (declared_order (f0 :: rest)))) f
       = extractPrimitiveValue (get_own (VObj props) f).
Proof.
  split.
  - unfold getEntityId. rewrite collect_fields_fold by done.
    change (@nil (string * value)) with (reduced (VObj props) []).
    by rewrite fold_reduced.
  - intros f Hf. cbn [get_own].
    rewrite obj_lookup_reduced; [done |].
    unfold declared_order. by apply declared_order_from_elem.
Qed.

Lemma buildIdUrl_object base props f0 rest :
  UrlBuilder.buildIdUrl
    {| UrlBuilder.baseUrl := base; UrlBuilder.keyFields := Some (f0 :: rest) |}
    (VObj props)
  = Normal (base +:+ "/"
            +:+ join "/" (map (fun f => extractPrimitiveValue (get_own (VObj props) f))
                              (f0 :: rest))).
Proof.
  unfold UrlBuilder.buildIdUrl. cbn [UrlBuilder.keyFields UrlBuilder.baseUrl is_object_type typeof].
  change (fun field : string =>
            val ← get_prop (VObj props) field; mret (extractPrimitiveValue val))
    with (fun field : string =>
            Normal (extractPrimitiveValue (get_own (VObj props) field))).
  by rewrite mapM_Normal.
Qed.

Lemma json_or_undefined_primitive v : is_primitive (json_or_undefined v) = true.
Proof. unfold json_or_undefined. by destruct (JSON_stringify v). Qed.

(** The keys under which the table double files an entity and looks its
    identifier up. *)
Lemma stored_keys base keyFields props :
  storable keyFields (VObj props) ->
  exists normalized id key url deleted,
    Normalizer.normalize_value keyFields (VObj props) = Normal normalized
    /\ is_nullish normalized = false
    /\ getEntityId (VObj props) keyFields = Normal id
    /\ getItemKey keyFields normalized = Normal key
    /\ getStoreKey keyFields id = Normal key
    /\ same_value_zero key key = true
    /\ UrlBuilder.buildIdUrl
         {| UrlBuilder.baseUrl := base; UrlBuilder.keyFields := keyFields |} id
       = Normal url
    /\ buildDexieKey id keyFields = Normal deleted
    /\ getStoreKey keyFields deleted = Normal key.
Proof.
  intros Hst.
  assert (Hsimple : keyFields = None \/ keyFields = Some [] ->
    is_primitive (get_own (VObj props) "id") = true ->
    exists normalized id key url deleted,
      Normalizer.normalize_value keyFields (VObj props) = Normal normalized
      /\ is_nullish normalized = false
      /\ getEntityId (VObj props) keyFields = Normal id
      /\ getItemKey keyFields normalized = Normal key
      /\ getStoreKey keyFields id = Normal key
      /\ same_value_zero key key = true
      /\ UrlBuilder.buildIdUrl
           {| UrlBuilder.baseUrl := base; UrlBuilder.keyFields := keyFields |} id
         = Normal url
      /\ buildDexieKey id keyFields = Normal deleted
      /\ getStoreKey keyFields deleted = Normal key).
  { intros Hkf Hprim.
    exists (VObj props), (get_own (VObj props) "id"), (get_own (VObj props) "id"),
           (base +:+ "/" +:+ ToString (get_own (VObj props) "id")),
           (get_own (VObj props) "id").
    assert (Hkey : getStoreKey keyFields (get_own (VObj props) "id")
                   = Normal (get_own (VObj props) "id")).
    { unfold getStoreKey. by destruct (get_own (VObj props) "id"). }
    repeat split; try done.
    - by destruct Hkf as [-> | ->].
    - by destruct Hkf as [-> | ->].
    - by destruct Hkf as [-> | ->].
    - by apply same_value_zero_refl.
    - by destruct Hkf as [-> | ->].
    - apply buildDexieKey_simple. by right. }
  destruct keyFields as [[|f0 rest]|]; [apply Hsimple; auto | | apply Hsimple; auto].
  simpl in Hst.
  destruct (normalize_value_flat props (f0 :: rest)) as (props' & Hrun & Hfield & Hprim);
    [done | done |].
  destruct (getEntityId_object props f0 rest) as [Hid Hidf].
  set (idp := reduced (VObj props) (declared_order (f0 :: rest))) in *.
  set (keys := map (get_own (VObj props')) (f0 :: rest)).
  exists (VObj props'), (VObj idp), (json_or_undefined (VArr keys)),
         (base +:+ "/"
          +:+ join "/" (map (fun f => extractPrimitiveValue (get_own (VObj idp) f))
                            (f0 :: rest))),
         (VArr (map (fun f => extractPrimitiveValue (get_own (VObj idp) f)) (f0 :: rest))).
  split; [done |]. split; [done |]. split; [done |].
  split; [| split; [| split; [| split; [| split]]]].
  - unfold getItemKey. by rewrite mapM_get_prop_object.
  - unfold getStoreKey. rewrite mapM_get_prop_object.
    change (Normal (json_or_undefined (VArr (map (get_own (VObj idp)) (f0 :: rest))))
            = Normal (json_or_undefined (VArr keys))).
    do 3 f_equal. apply map_ext_in. intros f Hf. apply list_elem_of_In in Hf.
    by rewrite Hidf, Hfield.
  - apply same_value_zero_refl, json_or_undefined_primitive.
  - apply buildIdUrl_object.
  - by apply buildDexieKey_composite.
  - unfold getStoreKey.
    change (Normal (json_or_undefined
                      (VArr (map (fun f => extractPrimitiveValue (get_own (VObj idp) f))
                                 (f0 :: rest))))
            = Normal (json_or_undefined (VArr keys))).
    do 3 f_equal. apply map_ext_in. intros f Hf.
    apply list_elem_of_In in Hf. rewrite Hidf by done.
    rewrite extractPrimitiveValue_primitive.
    + by rewrite Hfield.
    + rewrite <- Hfield by done. by apply Hprim.
Qed.

(** X22.  Round trip through the table.  An entity a resource can store,
    put in normalised form, is what [getById] resolves to for the
    identifier [getEntityId] gives for the raw entity, whatever the other
    rows of the table are and whatever the network answers. *)
Theorem put_then_getById :
  forall (name base : string) (keyFields : option (list string))
         (transport : string -> http_method -> option string -> completion value)
         (props : list (string * value)) (rows : list (value * value)) (tr : list event),
    storable keyFields (VObj props) ->
    exists normalized id t1,
      Normalizer.normalize_value keyFields (VObj props) = Normal normalized
      /\ getEntityId (VObj props) keyFields = Normal id
      /\ mock_put normalized {| mock_keyFields := keyFields; mock_rows := rows |}
         = Normal t1
      /\ (getById (Resource.operations_config name base keyFields (Normal tt) transport)
                  id {| store := t1; trace := tr |}).1
         = Normal normalized.
Proof.
  intros name base keyFields transport props rows tr Hst.
  destruct (stored_keys base keyFields props Hst)
    as (normalized & id & key & url & deleted & Hnorm & Hnn & Hid & Hitem & Hstore
        & Hrefl & Hurl & _).
  exists normalized, id,
    {| mock_keyFields := keyFields; mock_rows := map_set key normalized rows |}.
  split; [done |]. split; [done |]. split.
  - unfold mock_put. cbn [mock_keyFields mock_rows]. by rewrite Hitem.
  - destruct (getById_cached
                (Resource.operations_config name base keyFields (Normal tt) transport)
                id normalized url
                {| store := {| mock_keyFields := keyFields;
                               mock_rows := map_set key normalized rows |};
                   trace := tr |}) as (w1 & Hrun & _); try done.
    + cbn [table_get MockTable_Table store]. unfold mock_get.
      cbn [mock_keyFields mock_rows]. rewrite Hstore.
      change (Normal (map_get key (map_set key normalized rows)) = Normal normalized).
      by rewrite map_get_set.
    + by rewrite Hrun.
Qed.

Lemma put_then_getById_witness :
  exists normalized id t1,
    Normalizer.normalize_value Resource.tags_keyFields
      (VObj [("spaceId", VObj [("id", VStr "s1"); ("name", VStr "Work")]);
             ("tagName", VStr "t1"); ("color", VStr "red")])
    = Normal normalized
    /\ getEntityId
         (VObj [("spaceId", VObj [("id", VStr "s1"); ("name", VStr "Work")]);
                ("tagName", VStr "t1"); ("color", VStr "red")])
         Resource.tags_keyFields
       = Normal id
    /\ mock_put normalized {| mock_keyFields := Resource.tags_keyFields; mock_rows := [] |}
       = Normal t1
    /\ (getById (Resource.tags (Resource.failing (PlainError "Network failure")))
                id {| store := t1; trace := [] |}).1
       = Normal normalized.
Proof.
  apply (put_then_getById "tags" "/tags" Resource.tags_keyFields
           (Resource.failing (PlainError "Network failure"))
           [("spaceId", VObj [("id", VStr "s1"); ("name", VStr "Work")]);
            ("tagName", VStr "t1"); ("color", VStr "red")] [] []).
  simpl. repeat constructor.
Defined.

(** X23.  [remove] undoes [put].  After an entity a resource can store is
    put in normalised form, a [remove] of its identifier that the server
    acknowledges leaves a table in which the identifier finds nothing. *)
Theorem put_then_remove :
  forall (name base : string) (keyFields : option (list string))
         (response : value)
         (props : list (string * value)) (rows : list (value * value)) (tr : list event),
    storable keyFields (VObj props) ->
    exists normalized id t1 w2,
      Normalizer.normalize_value keyFields (VObj props) = Normal normalized
      /\ getEntityId (VObj props) keyFields = Normal id
      /\ mock_put normalized {| mock_keyFields := keyFields; mock_rows := rows |}
         = Normal t1
      /\ remove (Resource.operations_config name base keyFields (Normal tt)
                   (Resource.answering response))
                id {| store := t1; trace := tr |}
         = (Normal tt, w2)
      /\ mock_get id (store w2) = Normal VUndefined.
Proof.
  intros name base keyFields response props rows tr Hst.
  destruct (stored_keys base keyFields props Hst)
    as (normalized & id & key & url & deleted & Hnorm & Hnn & Hid & Hitem & Hstore
        & Hrefl & Hurl & Hdel & Hdelkey).
  exists normalized, id,
    {| mock_keyFields := keyFields; mock_rows := map_set key normalized rows |}.
  eexists. split; [done |]. split; [done |]. split; [| split].
  - unfold mock_put. cbn [mock_keyFields mock_rows]. by rewrite Hitem.
  - unfold remove, request, tbl_delete, call_update, emit, lift, mbind, mret,
      Async_bind, Async_ret.
    cbn beta iota. cbn [store trace Resource.operations_config buildIdUrl apiRequest
                        getTable Operations.keyFields Resource.answering].
    rewrite Hurl. cbn [store trace]. rewrite Hdel. cbn [store trace].
    cbn [table_delete MockTable_Table]. unfold mock_delete.
    cbn [mock_keyFields mock_rows]. rewrite Hdelkey. reflexivity.
  - unfold mock_get. cbn [store mock_keyFields mock_rows]. rewrite Hstore.
    change (Normal (map_get key (map_delete key (map_set key normalized rows)))
            = Normal VUndefined).
    by rewrite map_get_delete.
Qed.

Lemma put_then_remove_witness :
  exists normalized id t1 w2,
    Normalizer.normalize_value None Resource.fresh_user = Normal normalized
    /\ getEntityId Resource.fresh_user None = Normal id
    /\ mock_put normalized
         {| mock_keyFields := None;
            mock_rows := [(VStr "user2", Resource.cached_user)] |}
       = Normal t1
    /\ remove (Resource.users (Resource.answering VUndefined)) id
              {| store := t1; trace := [] |}
       = (Normal tt, w2)
    /\ mock_get id (store w2) = Normal VUndefined.
Proof.
  apply (put_then_remove "users" "/api/users" None VUndefined
           [("id", VStr "user1"); ("name", VStr "Fresh User");
            ("email", VStr "fresh@example.com")]
           [(VStr "user2", Resource.cached_user)] []).
  reflexivity.
Defined.



End StoredRecords.

(* ================================================================== *)
(** * The transport *)
(* ================================================================== *)

Section Transport.
Import Operations.

(** X24.  Once [fetch] has answered, [apiRequest] resolves exactly when
    the status is a 2xx one and either the status is 204 or the body parses
    as JSON; a 204 resolves to undefined whatever the body is.  An error
    it raises is an [ApiError] that carries the status line of the
    response, with one exception: for a failed status whose body can be
    read neither as a JSON object or array nor as text, the rejection of
    the text read is raised as it is. *)
Theorem apiRequest_outcomes :
  forall (env : Api.Env) (url : string) (options : option Api.RequestInit)
         (token : value) (response : Api.Response),
    Api.tokenGetter env = Normal token ->
    Api.fetch env (Api.API_BASE_URL env +:+ url)
      {| Api.method := options ≫= Api.method;
         Api.headers := Some (Api.request_headers token options);
         Api.body := Api.request_body options |}
    = Normal response ->
    ((exists v, Api.apiRequest env url options = Normal v)
     <-> Api.ok response = true
         /\ (Api.status response = 204 \/ exists v, Api.json response = Normal v))
    /\ (Api.status response = 204 -> Api.apiRequest env url options = Normal VUndefined)
    /\ (forall e, Api.apiRequest env url options = Throw e ->
          (exists msg,
             e = ApiError msg (Api.status response) (Api.statusText response))
          \/ (Api.ok response = false /\ Api.errorData response = Throw e
              /\ Api.text response = Throw e))
    /\ (Api.ok response = false ->
        forall e, Api.text response = Throw e ->
          (forall parsed, Api.json response = Normal parsed ->
             Props.is_primitive parsed = true) ->
          Api.apiRequest env url options = Throw e).
Proof.
  intros env url options token response Htoken Hfetch.
  unfold Api.apiRequest. rewrite Htoken. cbn [mbind completion_bind]. rewrite Hfetch.
  cbn [mbind completion_bind].
  destruct (Api.ok response) eqn:Hok; cbn [negb].
  - destruct (Api.status response =? 204)%Z eqn:H204.
    + apply Z.eqb_eq in H204. split; [| split; [| split]].
      * split; [intros _; split; [done | by left] | intros _; by eexists].
      * done.
      * intros e He. discriminate.
      * discriminate.
    + apply Z.eqb_neq in H204. destruct (Api.json response) as [parsed | e0] eqn:Hjson.
      * split; [| split; [| split]].
        -- split; [intros _; split; [done | right; by eexists] | intros _; by eexists].
        -- intros H. by destruct H204.
        -- intros e He. discriminate.
        -- discriminate.
      * split; [| split; [| split]].
        -- split; [intros [v Hv]; discriminate |].
           intros [_ [H | [v Hv]]]; [by destruct H204 | discriminate].
        -- intros H. by destruct H204.
        -- intros e He. injection He as <-. left. by eexists.
        -- discriminate.
  - assert (Hdata : forall e, Api.errorData response = Throw e -> Api.text response = Throw e).
    { intros e. unfold Api.errorData.
      assert (Htext : (body ← Api.text response; mret (VStr body)) = Throw e ->
                      Api.text response = Throw e).
      { destruct (Api.text response) as [body | e1]; cbn; [discriminate | by intros [= ->]]. }
      destruct (Api.json response) as [parsed | e0]; [| exact Htext].
      destruct parsed; try exact Htext; cbn; discriminate. }
    split; [| split; [| split]].
    + split; [| intros [H _]; discriminate].
      intros [v Hv]. destruct (Api.errorData response); discriminate.
    + intros H204. unfold Api.ok in Hok. rewrite H204 in Hok. discriminate.
    + intros e He. destruct (Api.errorData response) as [data | e1] eqn:Hed.
      * injection He as <-. left. by eexists.
      * injection He as <-. right. split; [done |]. split; [done |]. by apply Hdata.
    + intros _ e Htext Hprim. unfold Api.errorData.
      destruct (Api.json response) as [parsed | e0].
      * specialize (Hprim parsed eq_refl).
        destruct parsed; try discriminate; by rewrite Htext.
      * by rewrite Htext.
Qed.

Lemma apiRequest_outcomes_witness :
  let answered := {| Api.status := 200; Api.statusText := "OK";
                     Api.json := Normal (VObj [("data", Resource.fresh_user)]);
                     Api.text := Normal EmptyString |} in
  let no_content := {| Api.status := 204; Api.statusText := "No Content";
                       Api.json := Throw (PlainError "Unexpected end of JSON input");
                       Api.text := Normal EmptyString |} in
  let unreadable := {| Api.status := 502; Api.statusText := "Bad Gateway";
                       Api.json := Throw (PlainError "Unexpected end of JSON input");
                       Api.text := Throw (TypeError "Failed to fetch") |} in
  (exists v, Api.apiRequest (Api.server answered) "/api/users/user1" None = Normal v)
  /\ Api.apiRequest (Api.server no_content) "/api/users/user1" None = Normal VUndefined
  /\ Api.apiRequest (Api.server unreadable) "/api/users/user1" None
     = Throw (TypeError "Failed to fetch").
Proof.
  intros answered no_content unreadable. split; [| split].
  - destruct (apiRequest_outcomes (Api.server answered) "/api/users/user1" None
                VUndefined answered) as (Hiff & _); [reflexivity | reflexivity |].
    apply Hiff. split; [reflexivity |]. right. by eexists.
  - destruct (apiRequest_outcomes (Api.server no_content) "/api/users/user1" None
                VUndefined no_content) as (_ & Hnone & _); [reflexivity | reflexivity |].
    apply Hnone. reflexivity.
  - destruct (apiRequest_outcomes (Api.server unreadable) "/api/users/user1" None
                VUndefined unreadable) as (_ & _ & _ & Hread); [reflexivity | reflexivity |].
    apply Hread; [reflexivity | reflexivity |]. intros parsed Hparsed. discriminate.
Defined.

(** X25.  [getById] over the transport.  With nothing in the cache the
    call resolves to null for every response that is not a 2xx one with a
    body.  When the body of the failed response can be read, only status
    404 is silent and any other failed status is logged as the [ApiError]
    of the transport; when it cannot be read, the rejection of the read is
    what is logged, for status 404 too.  A 204, which the transport turns
    into undefined, is logged as a TypeError. *)
Theorem getById_over_transport :
  forall {T : Type} `{Table T} (name base : string) (keyFields : option (list string))
         (env : Api.Env) (id cached : value) (url : string) (token : value)
         (response : Api.Response) (w : world T),
    let config :=
      Resource.operations_config name base keyFields (Normal tt) (Api.transport env) in
    table_get id (store w) = Normal cached ->
    is_nullish cached = true ->
    buildIdUrl config id = Normal url ->
    Api.tokenGetter env = Normal token ->
    Api.fetch env (Api.API_BASE_URL env +:+ url)
      {| Api.method := None;
         Api.headers := Some (Api.request_headers token None);
         Api.body := Api.request_body None |}
    = Normal response ->
    let settled (logged : list event) : completion value * world T :=
      (Normal VNull,
       {| store := store w;
          trace := trace w ++ [TableGet id; ApiRequest url GET None] ++ logged |}) in
    (Api.status response = 404 ->
     forall data, Api.errorData response = Normal data ->
       getById config id w = settled [])
    /\ (Api.ok response = false -> Api.status response <> 404 ->
        forall data, Api.errorData response = Normal data ->
          getById config id w
          = settled [ConsoleError (getById_log config)
                       (ApiError ("API request failed: "
                                  +:+ string_of_Z (Api.status response)
                                  +:+ " " +:+ Api.statusText response)
                                 (Api.status response) (Api.statusText response))])
    /\ (Api.ok response = false ->
        forall e, Api.errorData response = Throw e -> isNotFound e = false ->
          getById config id w = settled [ConsoleError (getById_log config) e])
    /\ (Api.status response = 204 ->
        exists msg,
          getById config id w = settled [ConsoleError (getById_log config) (TypeError msg)]).
Proof.
  intros T HT name base keyFields env id cached url token response w config
         Hget Hcached Hurl Htoken Hfetch settled.
  assert (Hsteps : getById config id w
                   = getById_network config url
                       {| store := store w; trace := trace w ++ [TableGet id] |}).
  { rewrite (getById_steps config id cached url w eq_refl Hget Hurl). cbn zeta.
    by rewrite Hcached. }
  assert (Hreq : apiRequest config url GET None
                 = (if negb (Api.ok response) then
                      _ ← Api.errorData response;
                      Throw (ApiError ("API request failed: "
                                       +:+ string_of_Z (Api.status response)
                                       +:+ " " +:+ Api.statusText response)
                                      (Api.status response) (Api.statusText response))
                    else if (Api.status response =? 204)%Z then Normal VUndefined
                    else match Api.json response with
                         | Normal parsed => Normal parsed
                         | Throw e =>
                             Throw (ApiError ("Failed to parse JSON response: "
                                              +:+ Api.message e)
                                             (Api.status response)
                                             (Api.statusText response))
                         end)).
  { cbn [config Resource.operations_config apiRequest]. unfold Api.transport, Api.apiRequest.
    cbn [Api.options_of]. rewrite Htoken. cbn [mbind completion_bind option_bind].
    change (None ≫= Api.method) with (@None string). by rewrite Hfetch. }
  assert (Hrejected : forall e,
            apiRequest config url GET None = Throw e ->
            getById config id w
            = settled (if isNotFound e then []
                       else [ConsoleError (getById_log config) e])).
  { intros e He. rewrite Hsteps, (getById_network_rejected config url _ _ He).
    unfold settled. cbn [store trace]. by rewrite <- app_assoc. }
  assert (Hfailed : Api.ok response = false ->
            forall data, Api.errorData response = Normal data ->
            getById config id w
            = settled (if (Api.status response =? 404)%Z then []
                       else [ConsoleError (getById_log config)
                               (ApiError ("API request failed: "
                                          +:+ string_of_Z (Api.status response)
                                          +:+ " " +:+ Api.statusText response)
                                         (Api.status response)
                                         (Api.statusText response))])).
  { intros Hok data Hdata. rewrite Hok, Hdata in Hreq. cbn [negb] in Hreq.
    by rewrite (Hrejected _ Hreq). }
  split; [| split; [| split]].
  - intros H404 data Hdata. rewrite (Hfailed ltac:(unfold Api.ok; by rewrite H404) data Hdata).
    by rewrite H404.
  - intros Hok Hne data Hdata. rewrite (Hfailed Hok data Hdata).
    apply Z.eqb_neq in Hne. by rewrite Hne.
  - intros Hok e Hdata Hnf. rewrite Hok, Hdata in Hreq. cbn [negb] in Hreq.
    rewrite (Hrejected _ Hreq). by rewrite Hnf.
  - intros H204. assert (Hok : Api.ok response = true) by (unfold Api.ok; by rewrite H204).
    rewrite Hok, H204 in Hreq. cbn [negb] in Hreq. rewrite Z.eqb_refl in Hreq.
    eexists. rewrite Hsteps. unfold settled.
    unfold getById_network, request, catch, emit, lift, mbind, mret, Async_bind, Async_ret.
    cbn beta iota. cbn [store trace]. rewrite Hreq. cbn [get_prop isNotFound].
    cbn [store trace]. rewrite <- !app_assoc. reflexivity.
Qed.

Lemma getById_over_transport_witness :
  let not_found := {| Api.status := 404; Api.statusText := "Not Found";
                      Api.json := Normal (VObj [("errors", VArr [])]);
                      Api.text := Normal EmptyString |} in
  let unreadable := {| Api.status := 404; Api.statusText := "Not Found";
                       Api.json := Throw (PlainError "Unexpected end of JSON input");
                       Api.text := Throw (TypeError "Failed to fetch") |} in
  let w := Resource.empty_table None in
  getById (Resource.users (Api.transport (Api.server not_found))) (VStr "nonexistent") w
  = (Normal VNull,
     {| store := store w;
        trace := [TableGet (VStr "nonexistent");
                  ApiRequest "/api/users/nonexistent" GET None] |})
  /\ getById (Resource.users (Api.transport (Api.server unreadable)))
             (VStr "nonexistent") w
     = (Normal VNull,
        {| store := store w;
           trace := [TableGet (VStr "nonexistent");
                     ApiRequest "/api/users/nonexistent" GET None;
                     ConsoleError "[Query] Failed to fetch users by ID: "
                                  (TypeError "Failed to fetch")] |}).
Proof.
  intros not_found unreadable w. split.
  - destruct (getById_over_transport "users" "/api/users" None (Api.server not_found)
                (VStr "nonexistent") VUndefined "/api/users/nonexistent" VUndefined
                not_found w) as (Hquiet & _); [reflexivity.. |].
    apply (Hquiet eq_refl (VArr [])). reflexivity.
  - destruct (getById_over_transport "users" "/api/users" None (Api.server unreadable)
                (VStr "nonexistent") VUndefined "/api/users/nonexistent" VUndefined
                unreadable w) as (_ & _ & Hread & _); [reflexivity.. |].
    apply (Hread eq_refl (TypeError "Failed to fetch")); reflexivity.
Defined.

Lemma obj_lookup_absent {A} (k : string) (props : list (string * A)) :
  k ∉ props.*1 -> obj_lookup k props = None.
Proof.
  induction props as [|[g y] rest IH]; simpl; [done |].
  intros Hk. rewrite not_elem_of_cons in Hk. destruct Hk as [Hne Hk].
  destruct (String.eqb k g) eqn:Hkg; [| by apply IH].
  apply String.eqb_eq in Hkg. by subst g.
Qed.

Lemma obj_lookup_assign {A} (k : string) (own acc : list (string * A)) :
  NoDup own.*1 ->
  obj_lookup k (fold_left (fun acc '(k, v) => obj_set k v acc) own acc)
  = match obj_lookup k own with
    | Some v => Some v
    | None => obj_lookup k acc
    end.
Proof.
  revert acc. induction own as [|[g y] rest IH]; intros acc Hnd; simpl; [done |].
  apply NoDup_cons in Hnd as [Hg Hnd]. rewrite IH by done.
  rewrite obj_lookup_set.
  destruct (String.eqb k g) eqn:Hkg; [| done].
  apply String.eqb_eq in Hkg. subst g. by rewrite obj_lookup_absent.
Qed.

(** X26.  The headers of a request.  The caller's own headers win over
    the defaults; where the caller sets none, the content type is JSON,
    and the authorisation header is the bearer token when the token getter
    gave a truthy token and absent otherwise. *)
Theorem request_headers_precedence :
  forall (token : value) (options : option Api.RequestInit),
    let own := default [] (options ≫= Api.headers) in
    let sent := Api.request_headers token options in
    NoDup own.*1 ->
    (forall k v, obj_lookup k own = Some v -> obj_lookup k sent = Some v)
    /\ (obj_lookup "Content-Type" own = None ->
        obj_lookup "Content-Type" sent = Some "application/json")
    /\ (obj_lookup "Authorization" own = None ->
        obj_lookup "Authorization" sent
        = if truthy token then Some ("Bearer " +:+ ToString token) else None).
Proof.
  intros token options own sent Hnd. unfold sent, Api.request_headers. fold own.
  split; [| split].
  - intros k v Hk. by rewrite obj_lookup_assign, Hk.
  - intros Hk. rewrite obj_lookup_assign, Hk by done. by destruct (truthy token).
  - intros Hk. rewrite obj_lookup_assign, Hk by done. by destruct (truthy token).
Qed.

Lemma request_headers_precedence_witness :
  let options := Some {| Api.method := Some "POST";
                         Api.headers := Some [("Authorization", "Basic abc")];
                         Api.body := VUndefined |} in
  obj_lookup "Authorization" (Api.request_headers (VStr "token-1") options)
  = Some "Basic abc"
  /\ obj_lookup "Content-Type" (Api.request_headers (VStr "token-1") options)
     = Some "application/json".
Proof.
  intros options.
  destruct (request_headers_precedence (VStr "token-1") options) as (Hown & Hct & _).
  - simpl. repeat constructor. intros Hin. by apply elem_of_nil in Hin.
  - split; [apply Hown; reflexivity | apply Hct; reflexivity].
Defined.

End Transport.

(* ================================================================== *)
(** * [list] and the cache operations *)
(* ================================================================== *)

Section ListFacts.
Context {T : Type} `{Operations.Table T} `{Bulk.BulkTable T}.

Ltac run_bulk :=
  unfold Bulk.list, Bulk.list_network, Bulk.request, Bulk.seedOne, Bulk.seedMany,
    Bulk.clearCache, Bulk.tbl_toArray, Bulk.tbl_bulkPut, Bulk.tbl_put, Bulk.tbl_clear,
    Bulk.call_read, Bulk.call_write, Bulk.call_update, Bulk.catch, Bulk.emit, Bulk.lift,
    mbind, mret, Bulk.Async_bind, Bulk.Async_ret;
  cbn beta iota; cbn [Bulk.store Bulk.trace].

Lemma list_network_rejected (config : Bulk.ListConfig) url err (w : Bulk.world T) :
  Operations.apiRequest (Bulk.operations config) url Operations.GET None = Throw err ->
  Bulk.list_network config url w
  = (Normal (VArr []),
     {| Bulk.store := Bulk.store w;
        Bulk.trace :=
          Bulk.trace w
          ++ [Bulk.Single (Operations.ApiRequest url Operations.GET None);
              Bulk.Single (Operations.ConsoleError (Bulk.list_log config) err)] |}).
Proof.
  intros Hreq. run_bulk. rewrite Hreq. cbn beta iota. cbn [Bulk.store Bulk.trace].
  by rewrite <- app_assoc.
Qed.

Lemma list_network_stored (config : Bulk.ListConfig) url response data normalized t
    (w : Bulk.world T) :
  Operations.apiRequest (Bulk.operations config) url Operations.GET None = Normal response ->
  get_prop response "data" = Normal data ->
  Bulk.normalizeMany config data = Normal normalized ->
  Bulk.table_bulkPut normalized (Bulk.store w) = (Normal tt, t) ->
  Bulk.list_network config url w
  = (Normal data,
     {| Bulk.store := t;
        Bulk.trace :=
          Bulk.trace w
          ++ [Bulk.Single (Operations.ApiRequest url Operations.GET None);
              Bulk.TableBulkPut normalized] |}).
Proof.
  intros Hreq Hdata Hnorm Hput. run_bulk. rewrite Hreq, Hdata, Hnorm.
  cbn [Bulk.store Bulk.trace]. rewrite Hput. cbn beta iota. cbn [Bulk.store Bulk.trace].
  by rewrite <- app_assoc.
Qed.

Lemma list_network_settles (config : Bulk.ListConfig) url (w : Bulk.world T) :
  exists v w1, Bulk.list_network config url w = (Normal v, w1).
Proof.
  run_bulk.
  destruct (Operations.apiRequest (Bulk.operations config) url Operations.GET None)
    as [response | e]; [| by eauto].
  destruct (get_prop response "data") as [data | e]; [| by eauto].
  destruct (Bulk.normalizeMany config data) as [normalized | e]; [| by eauto].
  cbn [Bulk.store Bulk.trace].
  destruct (Bulk.table_bulkPut normalized (Bulk.store w)) as [[[] | e] t]; by eauto.
Qed.

Lemma list_steps (config : Bulk.ListConfig) params allCached cached url (w : Bulk.world T) :
  Operations.getTable (Bulk.operations config) = Normal tt ->
  Bulk.table_toArray (Bulk.store w) = Normal allCached ->
  FilterMatcher.filterEntities allCached params = Normal cached ->
  Bulk.buildUrl config (Operations.baseUrl (Bulk.operations config)) params = Normal url ->
  Bulk.list config params w
  = let w1 := {| Bulk.store := Bulk.store w;
                 Bulk.trace := Bulk.trace w ++ [Bulk.TableToArray] |} in
    if (0 <? length cached)%nat
    then match Bulk.list_network config url w1 with
         | (Normal _, w2) => (Normal (VArr cached), w2)
         | (Throw e, w2) => (Throw e, w2)
         end
    else Bulk.list_network config url w1.
Proof.
  intros Htbl Harr Hfilter Hurl.
  unfold Bulk.list, Bulk.tbl_toArray, Bulk.call_read, Bulk.emit, Bulk.lift,
    mbind, mret, Bulk.Async_bind, Bulk.Async_ret.
  cbn beta iota. cbn [Bulk.store Bulk.trace].
  rewrite Htbl, Harr, Hfilter, Hurl.
  destruct (0 <? length cached)%nat; [| done].
  by destruct (Bulk.list_network config url _) as [[v | e] w2].
Qed.

End ListFacts.

Section ListAndCache.

(** X27.  [list] with a filled cache.  When the filter leaves at least
    one cached record, [list] resolves to the filtered records whatever
    the network and the normaliser do; if the request is answered and the
    store accepts the records, they have been put by then. *)
Theorem list_cache_wins :
  forall {T : Type} `{Operations.Table T} `{Bulk.BulkTable T}
         (config : Bulk.ListConfig) (params : option (list (string * value)))
         (allCached cached : list value) (url : string) (w : Bulk.world T),
    Operations.getTable (Bulk.operations config) = Normal tt ->
    Bulk.table_toArray (Bulk.store w) = Normal allCached ->
    FilterMatcher.filterEntities allCached params = Normal cached ->
    cached <> [] ->
    Bulk.buildUrl config (Operations.baseUrl (Bulk.operations config)) params
    = Normal url ->
    (exists w1, Bulk.list config params w = (Normal (VArr cached), w1))
    /\ (forall response data normalized t,
          Operations.apiRequest (Bulk.operations config) url Operations.GET None
          = Normal response ->
          get_prop response "data" = Normal data ->
          Bulk.normalizeMany config data = Normal normalized ->
          Bulk.table_bulkPut normalized (Bulk.store w) = (Normal tt, t) ->
          Bulk.list config params w
          = (Normal (VArr cached),
             {| Bulk.store := t;
                Bulk.trace :=
                  Bulk.trace w
                  ++ [Bulk.TableToArray;
                      Bulk.Single (Operations.ApiRequest url Operations.GET None);
                      Bulk.TableBulkPut normalized] |})).
Proof.
  intros T HT HB config params allCached cached url w Htbl Harr Hfilter Hne Hurl.
  rewrite (list_steps config params allCached cached url w Htbl Harr Hfilter Hurl).
  cbn zeta.
  assert (Hlen : (0 <? length cached)%nat = true).
  { destruct cached; [done |]. reflexivity. }
  rewrite Hlen. split.
  - destruct (list_network_settles config url
                {| Bulk.store := Bulk.store w;
                   Bulk.trace := Bulk.trace w ++ [Bulk.TableToArray] |})
      as (v & w1 & Hnet).
    rewrite Hnet. by eexists.
  - intros response data normalized t Hreq Hdata Hnorm Hput.
    rewrite (list_network_stored config url response data normalized t
               {| Bulk.store := Bulk.store w;
                  Bulk.trace := Bulk.trace w ++ [Bulk.TableToArray] |}
               Hreq Hdata Hnorm Hput).
    cbn [Bulk.store Bulk.trace]. by rewrite <- app_assoc.
Qed.

Lemma list_cache_wins_witness :
  let config transport :=
    Facade.list_config "users" "/api/users" None (Normal tt) transport Facade.base_only in
  let w := Facade.bulk_world
             {| Operations.mock_keyFields := None;
                Operations.mock_rows := [(VStr "user1", Resource.cached_user)] |} in
  (exists w1,
     Bulk.list (config (Resource.failing (PlainError "Network failure"))) None w
     = (Normal (VArr [Resource.cached_user]), w1))
  /\ Bulk.list (config (Resource.answering (VObj [("data", VArr [Resource.fresh_user])])))
               None w
     = (Normal (VArr [Resource.cached_user]),
        {| Bulk.store :=
             {| Operations.mock_keyFields := None;
                Operations.mock_rows := [(VStr "user1", Resource.fresh_user)] |};
           Bulk.trace :=
             [Bulk.TableToArray;
              Bulk.Single (Operations.ApiRequest "/api/users" Operations.GET None);
              Bulk.TableBulkPut [Resource.fresh_user]] |}).
Proof.
  intros config w. split.
  - destruct (list_cache_wins (config (Resource.failing (PlainError "Network failure")))
                None [Resource.cached_user] [Resource.cached_user] "/api/users" w)
      as [Hwins _]; [reflexivity | reflexivity | reflexivity | discriminate | reflexivity |].
    exact Hwins.
  - destruct (list_cache_wins
                (config (Resource.answering (VObj [("data", VArr [Resource.fresh_user])])))
                None [Resource.cached_user] [Resource.cached_user] "/api/users" w)
      as [_ Hok]; [reflexivity | reflexivity | reflexivity | discriminate | reflexivity |].
    apply (Hok (VObj [("data", VArr [Resource.fresh_user])]) (VArr [Resource.fresh_user])
               [Resource.fresh_user]); reflexivity.
Defined.

(** X28.  [list] with nothing to show from the cache.  The call waits
    for the network: an answered request gives the records as received,
    after they were put in normalised form; a rejected request gives the
    empty list and is logged, status 404 included. *)
Theorem list_waits_for_network :
  forall {T : Type} `{Operations.Table T} `{Bulk.BulkTable T}
         (config : Bulk.ListConfig) (params : option (list (string * value)))
         (allCached : list value) (url : string) (w : Bulk.world T),
    Operations.getTable (Bulk.operations config) = Normal tt ->
    Bulk.table_toArray (Bulk.store w) = Normal allCached ->
    FilterMatcher.filterEntities allCached params = Normal [] ->
    Bulk.buildUrl config (Operations.baseUrl (Bulk.operations config)) params
    = Normal url ->
    (forall err,
       Operations.apiRequest (Bulk.operations config) url Operations.GET None
       = Throw err ->
       Bulk.list config params w
       = (Normal (VArr []),
          {| Bulk.store := Bulk.store w;
             Bulk.trace :=
               Bulk.trace w
               ++ [Bulk.TableToArray;
                   Bulk.Single (Operations.ApiRequest url Operations.GET None);
                   Bulk.Single (Operations.ConsoleError (Bulk.list_log config) err)] |}))
    /\ (forall response data normalized t,
          Operations.apiRequest (Bulk.operations config) url Operations.GET None
          = Normal response ->
          get_prop response "data" = Normal data ->
          Bulk.normalizeMany config data = Normal normalized ->
          Bulk.table_bulkPut normalized (Bulk.store w) = (Normal tt, t) ->
          Bulk.list config params w
          = (Normal data,
             {| Bulk.store := t;
                Bulk.trace :=
                  Bulk.trace w
                  ++ [Bulk.TableToArray;
                      Bulk.Single (Operations.ApiRequest url Operations.GET None);
                      Bulk.TableBulkPut normalized] |})).
Proof.
  intros T HT HB config params allCached url w Htbl Harr Hfilter Hurl.
  rewrite (list_steps config params allCached [] url w Htbl Harr Hfilter Hurl).
  cbn zeta. cbn [length Nat.ltb Nat.leb]. split.
  - intros err Hreq. rewrite (list_network_rejected config url err _ Hreq).
    cbn [Bulk.store Bulk.trace]. by rewrite <- app_assoc.
  - intros response data normalized t Hreq Hdata Hnorm Hput.
    rewrite (list_network_stored config url response data normalized t
               {| Bulk.store := Bulk.store w;
                  Bulk.trace := Bulk.trace w ++ [Bulk.TableToArray] |}
               Hreq Hdata Hnorm Hput).
    cbn [Bulk.store Bulk.trace]. by rewrite <- app_assoc.
Qed.

Lemma list_waits_for_network_witness :
  let err := ApiError "Not found" 404 "Not Found" in
  let config :=
    Facade.list_config "users" "/api/users" None (Normal tt) (Resource.failing err)
      Facade.base_only in
  let w := Facade.bulk_world
             {| Operations.mock_keyFields := None; Operations.mock_rows := [] |} in
  Bulk.list config None w
  = (Normal (VArr []),
     {| Bulk.store := Bulk.store w;
        Bulk.trace :=
          [Bulk.TableToArray;
           Bulk.Single (Operations.ApiRequest "/api/users" Operations.GET None);
           Bulk.Single (Operations.ConsoleError "[Query] Failed to fetch users list: "
                                                err)] |}).
Proof.
  intros err config w.
  destruct (list_waits_for_network config None [] "/api/users" w) as [Hfail _];
    [reflexivity.. |].
  apply Hfail. reflexivity.
Defined.

(** X29.  A filter that throws stops [list] before the network.  When
    matching a cached record against the parameters throws, [list] rejects
    with that error after reading the table: no request is sent and
    nothing is logged. *)
Theorem list_filter_failure_rejects :
  forall {T : Type} `{Operations.Table T} `{Bulk.BulkTable T}
         (config : Bulk.ListConfig) (params : option (list (string * value)))
         (allCached : list value) (err : error) (w : Bulk.world T),
    Operations.getTable (Bulk.operations config) = Normal tt ->
    Bulk.table_toArray (Bulk.store w) = Normal allCached ->
    FilterMatcher.filterEntities allCached params = Throw err ->
    Bulk.list config params w
    = (Throw err,
       {| Bulk.store := Bulk.store w;
          Bulk.trace := Bulk.trace w ++ [Bulk.TableToArray] |}).
Proof.
  intros T HT HB config params allCached err w Htbl Harr Hfilter.
  unfold Bulk.list, Bulk.tbl_toArray, Bulk.call_read, Bulk.emit, Bulk.lift,
    mbind, mret, Bulk.Async_bind, Bulk.Async_ret.
  cbn beta iota. cbn [Bulk.store Bulk.trace].
  by rewrite Htbl, Harr, Hfilter.
Qed.

Lemma list_filter_failure_rejects_witness :
  let config :=
    Facade.list_config "notes" "/api/notes" None (Normal tt)
      (Resource.answering (VObj [("data", VArr [])])) Facade.base_only in
  let w := Facade.bulk_world
             {| Operations.mock_keyFields := None;
                Operations.mock_rows :=
                  [(VStr "1", VObj [("id", VStr "1"); ("type", VNull)])] |} in
  Bulk.list config (Some [("type", VStr "note")]) w
  = (Throw (TypeError "Cannot read properties of null (reading 'id')"),
     {| Bulk.store := Bulk.store w; Bulk.trace := [Bulk.TableToArray] |}).
Proof.
  intros config w.
  apply (list_filter_failure_rejects config (Some [("type", VStr "note")])
           [VObj [("id", VStr "1"); ("type", VNull)]]); reflexivity.
Defined.

Lemma getEntityId_defined entity keyFields :
  is_nullish entity = false -> exists id, IdUtils.getEntityId entity keyFields = Normal id.
Proof.
  intros Hnn. unfold IdUtils.getEntityId.
  destruct keyFields as [[|f rest]|].
  - destruct entity; try discriminate; by eexists.
  - rewrite collect_fields_fold by done. by eexists.
  - destruct entity; try discriminate; by eexists.
Qed.

Lemma serializeId_defined id keyFields :
  exists serialized, IdUtils.serializeId id keyFields = Normal serialized.
Proof.
  unfold IdUtils.serializeId.
  destruct (is_object_type id && negb (is_null id)) eqn:Hobj; [| by eexists].
  destruct keyFields as [[|f rest]|]; [by eexists | | by eexists].
  rewrite assign_fields_fold; [by eexists |].
  by destruct id.
Qed.

(** The detail entry [seedMany] and [seedOne] write for an item. *)
Lemma seed_details_run {T : Type} `{Operations.Table T} `{Bulk.BulkTable T}
    name keyFields table (items : list value) (w : Bulk.world T) :
  Forall (fun item => is_nullish item = false) items ->
  exists details,
    Bulk.seed_details (Facade.cache_config name keyFields table) items w
    = (Normal tt, {| Bulk.store := Bulk.store w; Bulk.trace := Bulk.trace w ++ details |})
    /\ Forall2 (fun item entry =>
                  exists id serialized,
                    IdUtils.getEntityId item keyFields = Normal id
                    /\ IdUtils.serializeId id keyFields = Normal serialized
                    /\ entry = Bulk.SetQueryData
                                 [VStr name; VStr "detail"; serialized] item)
               items details.
Proof.
  intros Hitems. revert w. induction Hitems as [|item rest Hnn _ IH]; intros w.
  - exists []. split; [| constructor]. destruct w. cbn. by rewrite app_nil_r.
  - destruct (getEntityId_defined item keyFields Hnn) as [id Hid].
    destruct (serializeId_defined id keyFields) as [serialized Hser].
    destruct (IH {| Bulk.store := Bulk.store w;
                    Bulk.trace :=
                      Bulk.trace w
                      ++ [Bulk.SetQueryData [VStr name; VStr "detail"; serialized] item] |})
      as (details & Hrun & Hall).
    exists (Bulk.SetQueryData [VStr name; VStr "detail"; serialized] item :: details).
    split; [| constructor; [by exists id, serialized | done]].
    cbn [Bulk.seed_details].
    unfold Bulk.emit, Bulk.lift, mbind, mret, Bulk.Async_bind, Bulk.Async_ret.
    cbn beta iota.
    cbn [Facade.cache_config Bulk.getEntityId Bulk.queryKeys QueryKeys.detail
         QueryKeys.createQueryKeys].
    rewrite Hid, Hser. cbn [completion_bind Bulk.store Bulk.trace].
    etrans; [exact Hrun |]. cbn [Bulk.store Bulk.trace]. by rewrite <- app_assoc.
Qed.

(** X30.  [seedMany] writes the store first and the cache second.  Once
    the table has taken the normalised records, the cache receives the
    list entry with the items as given and then one detail entry per item,
    in order, each under the key of the item's identifier.  If the table
    rejects the records, [seedMany] rejects and nothing is written to the
    cache. *)
Theorem seedMany_store_then_cache :
  forall {T : Type} `{Operations.Table T} `{Bulk.BulkTable T}
         (name : string) (keyFields : option (list string)) (items normalized : list value)
         (params : option (list (string * value))) (w : Bulk.world T),
    let config := Facade.cache_config name keyFields (Normal tt) in
    Forall (fun item => is_nullish item = false) items ->
    Facade.normalizeMany_value keyFields items = Normal normalized ->
    (forall t,
       Bulk.table_bulkPut normalized (Bulk.store w) = (Normal tt, t) ->
       exists details,
         Bulk.seedMany config items params w
         = (Normal tt,
            {| Bulk.store := t;
               Bulk.trace :=
                 Bulk.trace w
                 ++ [Bulk.TableBulkPut normalized;
                     Bulk.SetQueryData
                       (QueryKeys.list (QueryKeys.createQueryKeys name keyFields) params)
                       (VArr items)]
                 ++ details |})
         /\ Forall2 (fun item entry =>
                       exists id serialized,
                         IdUtils.getEntityId item keyFields = Normal id
                         /\ IdUtils.serializeId id keyFields = Normal serialized
                         /\ entry = Bulk.SetQueryData
                                      [VStr name; VStr "detail"; serialized] item)
                    items details)
    /\ (forall err t,
          Bulk.table_bulkPut normalized (Bulk.store w) = (Throw err, t) ->
          exists w1,
            Bulk.seedMany config items params w = (Throw err, w1)
            /\ Bulk.cache_writes (Bulk.trace w1) = Bulk.cache_writes (Bulk.trace w)).
Proof.
  intros T HT HB name keyFields items normalized params w config Hitems Hnorm. split.
  - intros t Hput.
    destruct (seed_details_run name keyFields (Normal tt) items
                {| Bulk.store := t;
                   Bulk.trace :=
                     (Bulk.trace w ++ [Bulk.TableBulkPut normalized])
                     ++ [Bulk.SetQueryData
                           (QueryKeys.list (QueryKeys.createQueryKeys name keyFields) params)
                           (VArr items)] |} Hitems) as (details & Hrun & Hall).
    exists details. split; [| done].
    unfold Bulk.seedMany, Bulk.tbl_bulkPut, Bulk.call_write, Bulk.emit, Bulk.lift,
      mbind, mret, Bulk.Async_bind, Bulk.Async_ret.
    cbn beta iota. cbn [config Facade.cache_config Bulk.getTable Bulk.normalizeAll
                        Bulk.queryKeys Bulk.store Bulk.trace].
    rewrite Hnorm. cbn [Bulk.store Bulk.trace]. rewrite Hput.
    cbn beta iota. cbn [Bulk.store Bulk.trace].
    etrans; [exact Hrun |]. cbn [Bulk.store Bulk.trace].
    by rewrite <- !app_assoc.
  - intros err t Hput. eexists. split.
    + unfold Bulk.seedMany, Bulk.tbl_bulkPut, Bulk.call_write, Bulk.emit, Bulk.lift,
        mbind, mret, Bulk.Async_bind, Bulk.Async_ret.
      cbn beta iota. cbn [config Facade.cache_config Bulk.getTable Bulk.normalizeAll
                          Bulk.queryKeys Bulk.store Bulk.trace].
      rewrite Hnorm. cbn [Bulk.store Bulk.trace]. rewrite Hput. reflexivity.
    + cbn [Bulk.trace]. unfold Bulk.cache_writes. rewrite List.filter_app.
      cbn [List.filter]. by rewrite app_nil_r.
Qed.

Lemma seedMany_store_then_cache_witness :
  let config := Facade.cache_config "tags" Resource.tags_keyFields (Normal tt) in
  let item := VObj [("spaceId", VObj [("id", VStr "s1"); ("name", VStr "Work")]);
                    ("tagName", VStr "t1"); ("color", VStr "red")] in
  let w := Facade.bulk_world
             {| Operations.mock_keyFields := Resource.tags_keyFields;
                Operations.mock_rows := [] |} in
  exists details,
    Bulk.seedMany config [item] None w
    = (Normal tt,
       {| Bulk.store :=
            {| Operations.mock_keyFields := Resource.tags_keyFields;
               Operations.mock_rows :=
                 [(Operations.json_or_undefined (VArr [VStr "s1"; VStr "t1"]),
                   Resource.tag_record)] |};
          Bulk.trace :=
            [Bulk.TableBulkPut [Resource.tag_record];
             Bulk.SetQueryData [VStr "tags"; VStr "list"] (VArr [item])]
            ++ details |}).
Proof.
  intros config item w.
  destruct (seedMany_store_then_cache "tags" Resource.tags_keyFields [item]
              [Resource.tag_record] None w) as [Hok _].
  - repeat constructor.
  - reflexivity.
  - destruct (Hok _ eq_refl) as (details & Hrun & _). exists details. exact Hrun.
Defined.

End ListAndCache.
